(** * Data_Engine_CSV: record batcher, sliding-window aggregator and engine

    A shallow embedding of
      - src/types/index.ts                  (CSVRecord, ProcessingOptions,
                                             AggregationResult)
      - src/processors/StreamProcessor.ts   (the record batcher)
      - src/aggregators/WindowAggregator.ts (the sliding-window aggregator, and
                                             the DataEngine class that wires
                                             both)
      - src/routes/index.ts                 (the handlers of the upload routes)
    followed by the properties proved about them.

    Conventions.
      - Clock readings (Date.now()), window sizes and intervals are integer
        milliseconds and are modelled in Z; every reading of the clock is an
        explicit argument of the function that performs it.
      - Field values are JavaScript numbers (IEEE-754 binary64, the kernel's
        primitive floats) or strings.
      - An async function is split at its await: the part that runs
        synchronously, and the continuation that a later turn of the event
        loop resumes.
      - A loop that JavaScript may run forever returns [None] here.
      - The program is given the semantics of the language; the resource
        limits of an engine (the depth of the call stack, the number of
        arguments of one call) are not modelled. *)

From Stdlib Require Import ZArith List String Ascii Lia Bool.
From Stdlib Require Import Floats.PrimFloat Numbers.Cyclic.Int63.Uint63.
From stdpp Require Import base option list gmap sorting strings.

Local Open Scope Z_scope.

(* ------------------------------------------------------------------ *)
(** * Values and records (src/types/index.ts) *)

(** [string | number], the value type of [CSVRecord]. *)
Inductive JsValue : Type :=
| VNum (n : float)
| VStr (s : string).

(** [typeof value === 'number'] *)
Definition isNumber (v : JsValue) : bool :=
  match v with VNum _ => true | VStr _ => false end.

(** A [CSVRecord]: its own properties in [Object.entries] order, keys distinct. *)
Definition CSVRecord : Type := list (string * JsValue).

(** An object used as a string-keyed map; [objGet] is [obj[key]] ([None] is
    [undefined]) and [objSet] is [obj[key] = v]. *)
Fixpoint objGet {V : Type} (key : string) (obj : list (string * V)) : option V :=
  match obj with
  | [] => None
  | (k, v) :: obj' => if String.eqb k key then Some v else objGet key obj'
  end.

Fixpoint objSet {V : Type} (key : string) (v : V) (obj : list (string * V))
  : list (string * V) :=
  match obj with
  | [] => [(key, v)]
  | (k, x) :: obj' =>
      if String.eqb k key then (k, v) :: obj' else (k, x) :: objSet key v obj'
  end.

(** [{ ...record }]: a new object with the same properties.  Values are
    immutable here, so the copy is the same list of properties. *)
Definition spread (record : CSVRecord) : CSVRecord := record.

(** An integer as a JavaScript number (exact below 2^53 in absolute value,
    which covers clock readings and lengths). *)
Definition numberOfZ (z : Z) : float :=
  if z <? 0 then PrimFloat.opp (PrimFloat.of_uint63 (Uint63.of_Z (- z)))
  else PrimFloat.of_uint63 (Uint63.of_Z z).

Definition numberOfNat (n : nat) : float := numberOfZ (Z.of_nat n).

(** The interfaces of src/types/index.ts. *)
Module Types.

Record ProcessingOptions : Type := mkOptions {
  batchSize : Z;
  windowSize : Z;        (* in milliseconds *)
  slidingInterval : Z    (* in milliseconds *)
}.

(** Per-group statistics: [count] and the [<field>_sum], [_avg], [_max],
    [_min] properties. *)
Definition GroupResult : Type := list (string * float).

Record AggregationResult : Type := mkResult {
  timestamp : Z;
  count : nat;
  data : list (string * GroupResult)
}.

End Types.

Abbreviation ProcessingOptions := Types.ProcessingOptions.
Abbreviation AggregationResult := Types.AggregationResult.
Abbreviation GroupResult := Types.GroupResult.

(* ------------------------------------------------------------------ *)
(** * StreamProcessor (src/processors/StreamProcessor.ts) *)

Module StreamProcessor.

(** The callback handed to [processBatch]: the transform callback of the
    stream, or the closure built by [_flush]. *)
Inductive Callback : Type := TransformCallback | FlushCallback.

(** How a call of [processBatch] ends its synchronous part: the callback has
    been invoked, or the function is suspended at its [await]. *)
Inductive BatchOutcome : Type := CallbackInvoked | Suspended.

Record t : Type := mk {
  buffer : list CSVRecord;
  options : ProcessingOptions;
  activeStreams : list nat;
  processing : bool;
  highWaterMark : Z;
  (* the continuation of the [processBatch] suspended at its await, with the
     callback it will invoke *)
  awaiting : option Callback;
  (* the final callback of [_flush] has been invoked *)
  finished : bool;
  (* ghost: [buffer.length] each time [processBatch] passed its guard and
     began a flush cycle, oldest first *)
  flushStarts : list nat
}.

Definition constructor (opts : ProcessingOptions) : t :=
  {| buffer := []; options := opts; activeStreams := []; processing := false;
     highWaterMark := 1000; awaiting := None; finished := false;
     flushStarts := [] |}.

Definition withBuffer (b : list CSVRecord) (sp : t) : t :=
  {| buffer := b; options := options sp; activeStreams := activeStreams sp;
     processing := processing sp; highWaterMark := highWaterMark sp;
     awaiting := awaiting sp; finished := finished sp;
     flushStarts := flushStarts sp |}.

Definition withProcessing (p : bool) (a : option Callback) (sp : t) : t :=
  {| buffer := buffer sp; options := options sp; activeStreams := activeStreams sp;
     processing := p; highWaterMark := highWaterMark sp;
     awaiting := a; finished := finished sp;
     flushStarts := flushStarts sp |}.

Definition withFinished (sp : t) : t :=
  {| buffer := buffer sp; options := options sp; activeStreams := activeStreams sp;
     processing := processing sp; highWaterMark := highWaterMark sp;
     awaiting := awaiting sp; finished := true;
     flushStarts := flushStarts sp |}.

Definition logFlushStart (sp : t) : t :=
  {| buffer := buffer sp; options := options sp; activeStreams := activeStreams sp;
     processing := processing sp; highWaterMark := highWaterMark sp;
     awaiting := awaiting sp; finished := finished sp;
     flushStarts := flushStarts sp ++ [length (buffer sp)] |}.

(** [array.slice(i, j)] for [0 <= i <= j]. *)
Definition slice {T : Type} (array : list T) (i j : nat) : list T :=
  firstn (j - i) (skipn i array).

(** The loop of [chunkArray]:
    [for (let i = 0; i < array.length; i += size) chunks.push(array.slice(i, i + size))]. *)
Fixpoint chunkLoop {T : Type} (fuel : nat) (array : list T) (size i : nat)
  (chunks : list (list T)) : option (list (list T)) :=
  if (i <? length array)%nat then
    match fuel with
    | O => None
    | S fuel' =>
        chunkLoop fuel' array size (i + size)%nat (chunks ++ [slice array i (i + size)])
    end
  else Some chunks.

Definition chunkArray {T : Type} (array : list T) (size : nat) : option (list (list T)) :=
  chunkLoop (length array) array size 0%nat [].

(** [Math.ceil(n / 4)] for a length [n]. *)
Definition ceilQuarter (n : nat) : nat := ((n + 3) / 4)%nat.

(** [processChunk]: every record gets [timestamp: Date.now()] and is pushed;
    the result is the list of records pushed, in order.  The records of a
    chunk are stamped in one synchronous pass; [now] stands for the clock
    during that pass. *)
Definition processChunk (now : Z) (records : list CSVRecord) : list CSVRecord :=
  map (fun record => objSet "timestamp" (VNum (numberOfZ now)) (spread record)) records.

(** [processBatch(callback)] up to its await (or to its end when it does not
    await): the new state, the records pushed, and how it ended. *)
Definition processBatch (now : Z) (callback : Callback) (sp : t)
  : option (t * list CSVRecord * BatchOutcome) :=
  if processing sp then Some (sp, [], CallbackInvoked)
  else
    let sp := logFlushStart sp in
    (* this.buffer.splice(0, this.options.batchSize) *)
    let deleteCount := Z.to_nat (Types.batchSize (options sp)) in
    let batch := firstn deleteCount (buffer sp) in
    let sp := withBuffer (skipn deleteCount (buffer sp)) sp in
    if (0 <? length batch)%nat then
      match chunkArray batch (ceilQuarter (length batch)) with
      | None => None
      | Some chunks =>
          Some (withProcessing true (Some callback) sp,
                flat_map (processChunk now) chunks, Suspended)
      end
    else Some (withProcessing false None sp, [], CallbackInvoked).

(** [_transform(chunk, encoding, callback)] *)
Definition _transform (now : Z) (chunk : CSVRecord) (sp : t)
  : option (t * list CSVRecord * BatchOutcome) :=
  let sp := withBuffer (buffer sp ++ [chunk]) sp in
  let len := Z.of_nat (length (buffer sp)) in
  if (Types.batchSize (options sp) <=? len) || (highWaterMark sp <=? len)
  then processBatch now TransformCallback sp
  else Some (sp, [], CallbackInvoked).

(** [_flush(callback)].  When [processBatch] invokes the closure at once and
    the buffer is not empty, [_flush] calls itself synchronously. *)
Fixpoint _flush (fuel : nat) (now : Z) (sp : t) : option (t * list CSVRecord) :=
  if (0 <? length (buffer sp))%nat then
    match processBatch now FlushCallback sp with
    | None => None
    | Some (sp1, out, Suspended) => Some (sp1, out)
    | Some (sp1, out, CallbackInvoked) =>
        if (0 <? length (buffer sp1))%nat then
          match fuel with
          | O => None
          | S fuel' =>
              match _flush fuel' now sp1 with
              | None => None
              | Some (sp2, out2) => Some (sp2, out ++ out2)
              end
          end
        else Some (withFinished sp1, out)
    end
  else Some (withFinished sp, []).

(** The continuation of a suspended [processBatch]: its [finally] block,
    [this.processing = false; callback()]. *)
Definition resume (fuel : nat) (now : Z) (sp : t) : option (t * list CSVRecord) :=
  match awaiting sp with
  | None => Some (sp, [])
  | Some TransformCallback => Some (withProcessing false None sp, [])
  | Some FlushCallback =>
      let sp := withProcessing false None sp in
      if (0 <? length (buffer sp))%nat then _flush fuel now sp
      else Some (withFinished sp, [])
  end.

(** [addStream(stream)] *)
Definition addStream (stream : nat) (sp : t) : t :=
  {| buffer := buffer sp; options := options sp;
     activeStreams := if existsb (Nat.eqb stream) (activeStreams sp)
                      then activeStreams sp else activeStreams sp ++ [stream];
     processing := processing sp; highWaterMark := highWaterMark sp;
     awaiting := awaiting sp; finished := finished sp;
     flushStarts := flushStarts sp |}.

(** [cleanup()] *)
Definition cleanup (sp : t) : t :=
  {| buffer := []; options := options sp; activeStreams := [];
     processing := processing sp; highWaterMark := highWaterMark sp;
     awaiting := awaiting sp; finished := finished sp;
     flushStarts := flushStarts sp |}.

(** ** Event-level behaviour *)

(** What the event loop can do to a batcher: deliver a record to
    [_transform], resume the suspended [processBatch], or deliver the end of
    input to [_flush]. *)
Inductive Event : Type :=
| Accept (now : Z) (chunk : CSVRecord)
| Resume (now : Z)
| Final (now : Z).

(** One event; the records pushed while handling it form the batch it emits. *)
Definition step (fuel : nat) (ev : Event) (sp : t) : option (t * list CSVRecord) :=
  match ev with
  | Accept now chunk =>
      match _transform now chunk sp with
      | None => None
      | Some (sp', out, _) => Some (sp', out)
      end
  | Resume now => resume fuel now sp
  | Final now => _flush fuel now sp
  end.

(** The batches emitted so far are the non-empty groups of pushed records. *)
Definition batchOf (out : list CSVRecord) : list (list CSVRecord) :=
  match out with [] => [] | _ => [out] end.

Fixpoint run (fuel : nat) (evs : list Event) (sp : t)
  : option (t * list (list CSVRecord)) :=
  match evs with
  | [] => Some (sp, [])
  | ev :: evs' =>
      match step fuel ev sp with
      | None => None
      | Some (sp1, out) =>
          match run fuel evs' sp1 with
          | None => None
          | Some (sp2, batches) => Some (sp2, batchOf out ++ batches)
          end
      end
  end.

(** The stream transport serialises writes: a record (or the end of input)
    is delivered only when no callback is outstanding, and a continuation is
    resumed only when one is suspended. *)
Definition admissible (ev : Event) (sp : t) : bool :=
  match ev, awaiting sp with
  | Accept _ _, None => true
  | Final _, None => true
  | Resume _, Some _ => true
  | _, _ => false
  end.

Fixpoint serialised (fuel : nat) (evs : list Event) (sp : t) : bool :=
  match evs with
  | [] => true
  | ev :: evs' =>
      admissible ev sp &&
      match step fuel ev sp with
      | None => true
      | Some (sp1, _) => serialised fuel evs' sp1
      end
  end.

(** Resume until nothing is suspended. *)
Fixpoint settle (steps fuel : nat) (now : Z) (sp : t)
  : option (t * list (list CSVRecord)) :=
  match awaiting sp with
  | None => Some (sp, [])
  | Some _ =>
      match steps with
      | O => None
      | S steps' =>
          match resume fuel now sp with
          | None => None
          | Some (sp1, out) =>
              match settle steps' fuel now sp1 with
              | None => None
              | Some (sp2, batches) => Some (sp2, batchOf out ++ batches)
              end
          end
      end
  end.

(** A serialised write: [_transform], then the wait for its callback. *)
Definition write (fuel : nat) (now : Z) (chunk : CSVRecord) (sp : t)
  : option (t * list (list CSVRecord)) :=
  match _transform now chunk sp with
  | None => None
  | Some (sp1, out, CallbackInvoked) => Some (sp1, batchOf out)
  | Some (sp1, out, Suspended) =>
      match resume fuel now sp1 with
      | None => None
      | Some (sp2, out2) => Some (sp2, batchOf out ++ batchOf out2)
      end
  end.

Fixpoint writeAll (fuel : nat) (input : list (Z * CSVRecord)) (sp : t)
  : option (t * list (list CSVRecord)) :=
  match input with
  | [] => Some (sp, [])
  | (now, chunk) :: input' =>
      match write fuel now chunk sp with
      | None => None
      | Some (sp1, batches) =>
          match writeAll fuel input' sp1 with
          | None => None
          | Some (sp2, batches') => Some (sp2, batches ++ batches')
          end
      end
  end.

(** End of input: [_flush] and the continuations it schedules, until the
    final callback. *)
Definition flushAll (steps fuel : nat) (now : Z) (sp : t)
  : option (t * list (list CSVRecord)) :=
  match _flush fuel now sp with
  | None => None
  | Some (sp1, out) =>
      match settle steps fuel now sp1 with
      | None => None
      | Some (sp2, batches) => Some (sp2, batchOf out ++ batches)
      end
  end.

(** A whole source pushed through a fresh batcher, then the end of input. *)
Definition pipeline (steps fuel : nat) (opts : ProcessingOptions)
  (input : list (Z * CSVRecord)) (tEnd : Z) : option (t * list (list CSVRecord)) :=
  match writeAll fuel input (constructor opts) with
  | None => None
  | Some (sp1, batches) =>
      match flushAll steps fuel tEnd sp1 with
      | None => None
      | Some (sp2, batches') => Some (sp2, batches ++ batches')
      end
  end.

End StreamProcessor.

(* ------------------------------------------------------------------ *)
(** * WindowAggregator (src/aggregators/WindowAggregator.ts) *)

Module WindowAggregator.

Record Window : Type := mkWindow {
  startTime : Z;
  records : list CSVRecord
}.

(** The value of [Math.ceil(windowSize / slidingInterval) + 1]: an integer
    when the interval is not zero, otherwise an infinity or NaN. *)
Inductive JsNumber : Type :=
| Finite (z : Z)
| PosInfinity
| NegInfinity
| NotANumber.

Record t : Type := mk {
  windows : gmap Z Window;
  windowSize : Z;
  slidingInterval : Z;
  lastCleanup : Z;
  timer : bool;          (* [timer !== null] *)
  processing : bool;
  maxWindows : JsNumber;
  subscribed : bool      (* a listener for 'aggregation' is registered *)
}.

(** [Math.ceil(a / b)] for integers, [b] not zero. *)
Definition ceilDiv (a b : Z) : Z := - ((- a) / b).

Definition computeMaxWindows (ws si : Z) : JsNumber :=
  if si =? 0 then
    if 0 <? ws then PosInfinity else if ws <? 0 then NegInfinity else NotANumber
  else Finite (ceilDiv ws si + 1).

(** The constructor; [now] is its reading of the clock.  Nothing in it
    throws, whatever the options. *)
Definition constructor (opts : ProcessingOptions) (now : Z) : t :=
  {| windows := ∅;
     windowSize := Types.windowSize opts;
     slidingInterval := Types.slidingInterval opts;
     lastCleanup := now;
     timer := true;
     processing := false;
     maxWindows := computeMaxWindows (Types.windowSize opts)
                                     (Types.slidingInterval opts);
     subscribed := false |}.

Definition withWindows (w : gmap Z Window) (agg : t) : t :=
  {| windows := w; windowSize := windowSize agg;
     slidingInterval := slidingInterval agg; lastCleanup := lastCleanup agg;
     timer := timer agg; processing := processing agg;
     maxWindows := maxWindows agg; subscribed := subscribed agg |}.

(** [on('aggregation', listener)] *)
Definition on (agg : t) : t :=
  {| windows := windows agg; windowSize := windowSize agg;
     slidingInterval := slidingInterval agg; lastCleanup := lastCleanup agg;
     timer := timer agg; processing := processing agg;
     maxWindows := maxWindows agg; subscribed := true |}.

(** [addToWindow(windowTime, record)] *)
Definition addToWindow (windowTime : Z) (record : CSVRecord) (w : gmap Z Window)
  : gmap Z Window :=
  let window :=
    match w !! windowTime with
    | Some window => window
    | None => {| startTime := windowTime; records := [] |}
    end in
  <[windowTime := {| startTime := startTime window;
                     records := records window ++ [spread record] |}]> w.

(** The number of iterations of [for (let i = 0; i < maxWindows; i++)];
    [None] when the loop has no end. *)
Definition loopBound (n : JsNumber) : option nat :=
  match n with
  | Finite z => Some (Z.to_nat z)
  | PosInfinity => None
  | NegInfinity | NotANumber => Some O
  end.

(** The body of that loop, from index [i], [n] more times. *)
Fixpoint addRecordLoop (n : nat) (i : Z) (now windowStart ws si : Z)
  (record : CSVRecord) (w : gmap Z Window) : gmap Z Window :=
  match n with
  | O => w
  | S n' =>
      let windowTime := windowStart - i * si in
      let w' := if now - windowTime <=? ws
                then addToWindow windowTime record w else w in
      addRecordLoop n' (i + 1) now windowStart ws si record w'
  end.

(** [cleanupWindows()]; [now] is its own reading of the clock. *)
Definition cleanupWindows (now : Z) (agg : t) : t :=
  let cutoff := now - windowSize agg in
  {| windows := filter (fun kv : Z * Window => ~ (kv.1 < cutoff)) (windows agg);
     windowSize := windowSize agg;
     slidingInterval := slidingInterval agg; lastCleanup := now;
     timer := timer agg; processing := processing agg;
     maxWindows := maxWindows agg; subscribed := subscribed agg |}.

(** [addRecord(record)]: [now] is read on entry, [now'] by the eviction pass
    when it runs. *)
Definition addRecord (now now' : Z) (record : CSVRecord) (agg : t) : option t :=
  match loopBound (maxWindows agg) with
  | None => None
  | Some n =>
      let windowStart := now / slidingInterval agg * slidingInterval agg in
      let agg1 :=
        withWindows
          (addRecordLoop n 0 now windowStart (windowSize agg) (slidingInterval agg)
             record (windows agg)) agg in
      Some (if windowSize agg1 <? now - lastCleanup agg1
            then cleanupWindows now' agg1 else agg1)
  end.

(** [stop()] *)
Definition stop (agg : t) : t :=
  {| windows := ∅; windowSize := windowSize agg;
     slidingInterval := slidingInterval agg; lastCleanup := lastCleanup agg;
     timer := false; processing := processing agg;
     maxWindows := maxWindows agg; subscribed := false |}.

(** ** Aggregation *)

(** [Math.max(...values)] and [Math.min(...values)], for a list of values
    that the engine accepts as the arguments of one call. *)
Definition isPosZero (x : float) : bool :=
  match PrimFloat.classify x with FloatClass.PZero => true | _ => false end.
Definition isNegZero (x : float) : bool :=
  match PrimFloat.classify x with FloatClass.NZero => true | _ => false end.

Definition mathMax (values : list float) : float :=
  fold_left
    (fun highest v =>
       if PrimFloat.is_nan highest || PrimFloat.is_nan v then PrimFloat.nan
       else if PrimFloat.ltb highest v || (isPosZero v && isNegZero highest)
            then v else highest)
    values PrimFloat.neg_infinity.

Definition mathMin (values : list float) : float :=
  fold_left
    (fun lowest v =>
       if PrimFloat.is_nan lowest || PrimFloat.is_nan v then PrimFloat.nan
       else if PrimFloat.ltb v lowest || (isNegZero v && isPosZero lowest)
            then v else lowest)
    values PrimFloat.infinity.

(** [getNumericFields(record)] *)
Definition getNumericFields (record : CSVRecord) : list string :=
  map fst
    (filter (fun kv : string * JsValue =>
               negb (String.eqb kv.1 "timestamp") && isNumber kv.2 = true)
       record).

(** [Array.prototype.join(sep)] *)
Fixpoint join (sep : string) (parts : list string) : string :=
  match parts with
  | [] => ""
  | [p] => p
  | p :: parts' => String.append p (String.append sep (join sep parts'))
  end.

(** The order of [.sort(([a], [b]) => b - a)]: larger start times first. *)
Definition laterFirst (a b : Z * Window) : Prop := b.1 <= a.1.

#[global] Instance laterFirst_dec : RelDecision laterFirst.
Proof. intros a b. unfold laterFirst. apply _. Defined.

Section Builtins.

(** The two conversions of the language the aggregation relies on:
    [Number(s)] for a string [s] (NaN when [s] is not a numeric literal) and
    the string form of a number inside a template literal. *)
Variable StringToNumber : string -> float.
Variable NumberToString : float -> string.

(** [Number(r[field])]; a missing field is [undefined], whose number is NaN. *)
Definition toNumber (v : option JsValue) : float :=
  match v with
  | None => PrimFloat.nan
  | Some (VNum n) => n
  | Some (VStr s) => StringToNumber s
  end.

Definition toString (v : JsValue) : string :=
  match v with
  | VNum n => NumberToString n
  | VStr s => s
  end.

(** [getGroupKey(record)] *)
Definition getGroupKey (record : CSVRecord) : string :=
  join "|"
    (map (fun kv : string * JsValue =>
            String.append kv.1 (String.append ":" (toString kv.2)))
       (filter (fun kv : string * JsValue =>
                  negb (String.eqb kv.1 "timestamp") = true) record)).

(** [records.map(r => Number(r[field])).filter(v => !isNaN(v))] *)
Definition numericValues (field : string) (records : list CSVRecord) : list float :=
  filter (fun v : float => negb (PrimFloat.is_nan v) = true)
    (map (fun r => toNumber (objGet field r)) records).

(** The body of [numericFields.forEach(field => ...)]. *)
Definition aggregateField (records : list CSVRecord) (result : GroupResult)
  (field : string) : GroupResult :=
  let values := numericValues field records in
  if (0 <? length values)%nat then
    let sum := fold_left PrimFloat.add values 0%float in
    let result := objSet (String.append field "_sum") sum result in
    let result := objSet (String.append field "_avg")
                    (PrimFloat.div sum (numberOfNat (length values))) result in
    let result := objSet (String.append field "_max") (mathMax values) result in
    objSet (String.append field "_min") (mathMin values) result
  else result.

(** [calculateGroupAggregations(records)]; [None] is the TypeError that
    [records[0]] raises for an empty group. *)
Definition calculateGroupAggregations (records : list CSVRecord) : option GroupResult :=
  match records with
  | [] => None
  | first :: _ =>
      let numericFields := getNumericFields first in
      Some (fold_left (aggregateField records) numericFields
              [("count", numberOfNat (length records))])
  end.

(** The body of [records.forEach(record => ...)] in [calculateAggregations]:
    the record joins the group of its key, which is created when new. *)
Definition addToGroup (groups : list (string * list CSVRecord)) (record : CSVRecord)
  : list (string * list CSVRecord) :=
  let key := getGroupKey record in
  let groups := match objGet key groups with
                | None => objSet key [] groups
                | Some _ => groups
                end in
  match objGet key groups with
  | Some group => objSet key (group ++ [record]) groups
  | None => groups
  end.

(** The map from group key to the records of the group, in insertion order. *)
Definition groupRecords (records : list CSVRecord) : list (string * list CSVRecord) :=
  fold_left addToGroup records [].

(** The body of [groups.forEach((groupRecords, key) => ...)];
    [None] once a group's computation has thrown. *)
Definition setGroupResult (results : option (list (string * GroupResult)))
  (kg : string * list CSVRecord) : option (list (string * GroupResult)) :=
  match results, calculateGroupAggregations (snd kg) with
  | Some results, Some r => Some (objSet (fst kg) r results)
  | _, _ => None
  end.

(** [calculateAggregations(records)]; [None] when it throws. *)
Definition calculateAggregations (records : list CSVRecord)
  : option (list (string * GroupResult)) :=
  fold_left setGroupResult (groupRecords records) (Some []).

(** How [processWindow] ends. *)
Inductive WindowOutcome : Type :=
| EarlyReturn
| Emitted (result : AggregationResult)
| Threw.

(** [processWindow(startTime, window)] *)
Definition processWindow (startTime : Z) (window : Window) : WindowOutcome :=
  if (length (records window) =? 0)%nat then EarlyReturn
  else
    match calculateAggregations (records window) with
    | Some aggregations =>
        Emitted {| Types.timestamp := startTime;
                   Types.count := length (records window);
                   Types.data := aggregations |}
    | None => Threw
    end.

Definition emitted (o : WindowOutcome) : list AggregationResult :=
  match o with Emitted r => [r] | _ => [] end.

(** The windows a tick visits: those at least one interval old, most recent
    first. *)
Definition windowsToProcess (now : Z) (agg : t) : list (Z * Window) :=
  merge_sort laterFirst
    (filter (fun kv : Z * Window => now - kv.1 >= slidingInterval agg)
       (map_to_list (windows agg))).

(** [processWindows()]: the results emitted by one tick, in emission order.
    Its awaits are on settled promises, so the tick is taken as one step. *)
Definition processWindows (now : Z) (agg : t) : list AggregationResult :=
  if processing agg then []
  else flat_map (fun kv => emitted (processWindow kv.1 kv.2))
         (windowsToProcess now agg).

(** ** Event-level behaviour *)

Inductive Event : Type :=
| AddRecord (now now' : Z) (record : CSVRecord)
| Tick (now : Z)
| Stop.

(** One event: the new state and the results emitted to the listeners. *)
Definition step (ev : Event) (agg : t) : option (t * list AggregationResult) :=
  match ev with
  | AddRecord now now' record =>
      match addRecord now now' record agg with
      | None => None
      | Some agg' => Some (agg', [])
      end
  | Tick now => Some (agg, if timer agg then processWindows now agg else [])
  | Stop => Some (stop agg, [])
  end.

Fixpoint run (evs : list Event) (agg : t) : option (t * list AggregationResult) :=
  match evs with
  | [] => Some (agg, [])
  | ev :: evs' =>
      match step ev agg with
      | None => None
      | Some (agg1, out) =>
          match run evs' agg1 with
          | None => None
          | Some (agg2, out') => Some (agg2, out ++ out')
          end
      end
  end.

End Builtins.

End WindowAggregator.

(* ------------------------------------------------------------------ *)
(** * DataEngine (the class shipped after WindowAggregator in
      src/aggregators/WindowAggregator.ts) *)

Module DataEngine.

(** The store the engine and its callers share: result objects, and arrays
    of references to them.  [this.results] is a reference to an array. *)
Record Heap : Type := mkHeap {
  objects : gmap nat AggregationResult;
  arrays : gmap nat (list nat)
}.

Definition allocObject (r : AggregationResult) (h : Heap) : nat * Heap :=
  let ref := fresh (dom (objects h)) in
  (ref, {| objects := <[ref := r]> (objects h); arrays := arrays h |}).

Definition allocArray (items : list nat) (h : Heap) : nat * Heap :=
  let ref := fresh (dom (arrays h)) in
  (ref, {| objects := objects h; arrays := <[ref := items]> (arrays h) |}).

(** Any in-place change of the array at [ref]: push, pop, splice, sort,
    reverse, an assignment to an index or to [length]. *)
Definition mutateArray (ref : nat) (f : list nat -> list nat) (h : Heap) : Heap :=
  {| objects := objects h; arrays := alter f ref (arrays h) |}.

(** Any change of the properties of the result object at [ref]. *)
Definition mutateObject (ref : nat) (f : AggregationResult -> AggregationResult)
  (h : Heap) : Heap :=
  {| objects := alter f ref (objects h); arrays := arrays h |}.

Record t : Type := mk {
  processor : StreamProcessor.t;
  aggregator : WindowAggregator.t;
  results : nat
}.

(** The entries of the array behind [this.results], and what they refer to. *)
Definition logRefs (e : t) (h : Heap) : list nat :=
  default [] (arrays h !! results e).

Definition readArray (ref : nat) (h : Heap) : list (option AggregationResult) :=
  map (fun r => objects h !! r) (default [] (arrays h !! ref)).

Definition logOf (e : t) (h : Heap) : list (option AggregationResult) :=
  readArray (results e) h.

(** [new DataEngine(options)]; [now] is the aggregator's reading of the clock. *)
Definition constructor (opts : ProcessingOptions) (now : Z) (h : Heap) : t * Heap :=
  let (ref, h) := allocArray [] h in
  ({| processor := StreamProcessor.constructor opts;
      aggregator := WindowAggregator.on (WindowAggregator.constructor opts now);
      results := ref |}, h).

(** [handleAggregationResult(result)]: [this.results.push(result)] *)
Definition handleAggregationResult (result : nat) (e : t) (h : Heap) : Heap :=
  mutateArray (results e) (fun items => items ++ [result]) h.

(** [aggregator.emit('aggregation', {...})] for each result of a tick: the
    object is created, then handed to the listener when there is one. *)
Fixpoint emitAll (emitted : list AggregationResult) (e : t) (h : Heap) : Heap :=
  match emitted with
  | [] => h
  | r :: emitted' =>
      let (ref, h) := allocObject r h in
      let h := if WindowAggregator.subscribed (aggregator e)
               then handleAggregationResult ref e h else h in
      emitAll emitted' e h
  end.

(** [getResults()]: [[...this.results]], a new array with the same entries. *)
Definition getResults (e : t) (h : Heap) : nat * Heap :=
  allocArray (logRefs e h) h.

(** [cleanup()] *)
Definition cleanup (e : t) (h : Heap) : t * Heap :=
  let (ref, h) := allocArray [] h in
  ({| processor := StreamProcessor.cleanup (processor e);
      aggregator := WindowAggregator.stop (aggregator e);
      results := ref |}, h).

(** ** One call of [processFile] *)

(** What the parser hands to the validation stage. *)
Inductive Chunk : Type :=
| Row (record : CSVRecord)
| NotAnObject.

(** The state of the promise returned by [processFile]. *)
Inductive Settlement : Type := Pending | Resolved | Rejected.

(** [resolve()] and [reject(error)] settle a promise once. *)
Definition settleWith (s old : Settlement) : Settlement :=
  match old with Pending => s | _ => old end.

Record Config : Type := mkConfig {
  engine : t;
  heap : Heap;
  completion : Settlement;
  destroyed : bool;      (* the local [cleanup] closure has run *)
  snapshots : list nat   (* the arrays [getResults] has handed to callers *)
}.

Inductive Event : Type :=
| Decoded (now now' : Z) (chunk : Chunk)   (* the parser hands a chunk down the pipe *)
| ParserError                              (* parser.on('error') *)
| StreamError                              (* stream.on('error') *)
| EndOfInput (now now' : Z)                (* the parser ends *)
| SetupFailure                             (* the catch block of processFile *)
| TimerTick (now : Z)                      (* the aggregator's interval fires *)
| Cleanup                                  (* the owner calls cleanup() *)
| GetResults                               (* a caller calls getResults() *)
| MutateSnapshot (i : nat) (f : list nat -> list nat)
                                           (* a caller changes, in place, the
                                              i-th array it was handed *)
| MutateEntry (i j : nat) (f : AggregationResult -> AggregationResult).
                                           (* a caller changes the properties
                                              of the object it finds at index
                                              j of the i-th array it was
                                              handed *)

(** What a caller finds at index [j] of the [i]-th array it was handed:
    a reference to a result object, or nothing. *)
Definition entryOf (i j : nat) (c : Config) : option nat :=
  match snapshots c !! i with
  | Some a => default [] (arrays (heap c) !! a) !! j
  | None => None
  end.

(** The events whose handler runs [this.cleanup()]. *)
Definition runsCleanup (ev : Event) : bool :=
  match ev with
  | SetupFailure | Cleanup => true
  | _ => false
  end.

Section Builtins.

Variable StringToNumber : string -> float.
Variable NumberToString : float -> string.

(** The start of [processFile]: both stages are registered with the
    processor and the promise is pending.  A call on an engine whose
    processor an earlier call has ended or destroyed is started like the
    first one: the events it is given here include those the program can
    still deliver to it. *)
Definition processFile (e : t) (h : Heap) : Config :=
  {| engine := {| processor := StreamProcessor.addStream 1%nat
                                 (StreamProcessor.addStream 0%nat (processor e));
                  aggregator := aggregator e;
                  results := results e |};
     heap := h; completion := Pending; destroyed := false; snapshots := [] |}.

(** [stream.on('data', record => this.aggregator.addRecord(record))] for the
    records the processor pushed. *)
Fixpoint onData (now now' : Z) (pushed : list CSVRecord) (agg : WindowAggregator.t)
  : option WindowAggregator.t :=
  match pushed with
  | [] => Some agg
  | record :: pushed' =>
      match WindowAggregator.addRecord now now' record agg with
      | None => None
      | Some agg' => onData now now' pushed' agg'
      end
  end.

(** The local [cleanup] closure followed by [reject(error)]. *)
Definition fail (c : Config) : Config :=
  {| engine := {| processor := StreamProcessor.cleanup (processor (engine c));
                  aggregator := aggregator (engine c);
                  results := results (engine c) |};
     heap := heap c;
     completion := settleWith Rejected (completion c);
     destroyed := true; snapshots := snapshots c |}.

Definition withPipeline (sp : StreamProcessor.t) (agg : WindowAggregator.t)
  (c : Config) : Config :=
  {| engine := {| processor := sp; aggregator := agg; results := results (engine c) |};
     heap := heap c; completion := completion c; destroyed := destroyed c;
     snapshots := snapshots c |}.

(** One event of the loop.  [steps] and [fuel] bound the batcher's runs. *)
Definition step (steps fuel : nat) (ev : Event) (c : Config) : option Config :=
  match ev with
  | Decoded now now' chunk =>
      if destroyed c then Some c
      else
        match chunk with
        | NotAnObject => Some (fail c)
        | Row record =>
            match StreamProcessor.write fuel now record (processor (engine c)) with
            | None => None
            | Some (sp, batches) =>
                match onData now now' (concat batches) (aggregator (engine c)) with
                | None => None
                | Some agg => Some (withPipeline sp agg c)
                end
            end
        end
  | ParserError => if destroyed c then Some c else Some (fail c)
  | StreamError => if destroyed c then Some c else Some (fail c)
  | EndOfInput now now' =>
      if destroyed c then Some c
      else
        match StreamProcessor.flushAll steps fuel now (processor (engine c)) with
        | None => None
        | Some (sp, batches) =>
            match onData now now' (concat batches) (aggregator (engine c)) with
            | None => None
            | Some agg =>
                let c := withPipeline sp agg c in
                (* stream.on('end', () => resolve()) *)
                Some {| engine := engine c; heap := heap c;
                        completion := settleWith Resolved (completion c);
                        destroyed := destroyed c; snapshots := snapshots c |}
            end
        end
  | SetupFailure =>
      let (e, h) := cleanup (engine c) (heap c) in
      Some {| engine := e; heap := h;
              completion := settleWith Rejected (completion c);
              destroyed := true; snapshots := snapshots c |}
  | TimerTick now =>
      let agg := aggregator (engine c) in
      let emitted := if WindowAggregator.timer agg
                     then WindowAggregator.processWindows
                            StringToNumber NumberToString now agg
                     else [] in
      Some {| engine := engine c; heap := emitAll emitted (engine c) (heap c);
              completion := completion c; destroyed := destroyed c;
              snapshots := snapshots c |}
  | Cleanup =>
      (* [processor.cleanup()] destroys the stages of the pipe and removes the
         listeners of [processFile]: the call in progress is left pending *)
      let (e, h) := cleanup (engine c) (heap c) in
      Some {| engine := e; heap := h; completion := completion c;
              destroyed := true; snapshots := snapshots c |}
  | GetResults =>
      let (ref, h) := getResults (engine c) (heap c) in
      Some {| engine := engine c; heap := h; completion := completion c;
              destroyed := destroyed c; snapshots := snapshots c ++ [ref] |}
  | MutateSnapshot i f =>
      match snapshots c !! i with
      | Some ref =>
          Some {| engine := engine c; heap := mutateArray ref f (heap c);
                  completion := completion c; destroyed := destroyed c;
                  snapshots := snapshots c |}
      | None => Some c
      end
  | MutateEntry i j f =>
      match entryOf i j c with
      | Some ref =>
          Some {| engine := engine c; heap := mutateObject ref f (heap c);
                  completion := completion c; destroyed := destroyed c;
                  snapshots := snapshots c |}
      | None => Some c
      end
  end.

(** The results a step emits. *)
Definition emittedBy (ev : Event) (c : Config) : list AggregationResult :=
  match ev with
  | TimerTick now =>
      if WindowAggregator.timer (aggregator (engine c))
      then WindowAggregator.processWindows StringToNumber NumberToString now
             (aggregator (engine c))
      else []
  | _ => []
  end.

Fixpoint run (steps fuel : nat) (evs : list Event) (c : Config) : option Config :=
  match evs with
  | [] => Some c
  | ev :: evs' =>
      match step steps fuel ev c with
      | None => None
      | Some c' => run steps fuel evs' c'
      end
  end.

(** The results emitted along a run, in emission order. *)
Fixpoint emittedDuring (steps fuel : nat) (evs : list Event) (c : Config)
  : list AggregationResult :=
  match evs with
  | [] => []
  | ev :: evs' =>
      emittedBy ev c ++
      match step steps fuel ev c with
      | None => []
      | Some c' => emittedDuring steps fuel evs' c'
      end
  end.

(** A new engine, in an empty store, with one call of [processFile] begun. *)
Definition start (opts : ProcessingOptions) (now : Z) : Config :=
  let (e, h) := constructor opts now {| objects := ∅; arrays := ∅ |} in
  processFile e h.

End Builtins.

(** A source whose decode stream produces no record: the parser ends at
    once. *)
Definition emptySource (now : Z) : list Event := [EndOfInput now now].

End DataEngine.

(* ------------------------------------------------------------------ *)
(** * Conversions used in the examples *)

(** [Number(s)] on the strings made of decimal digits only: the value of the
    literal, and 0 for the empty string.  Every other string is outside this
    fragment and is given NaN. *)
Fixpoint digitsValue (acc : Z) (s : string) : option Z :=
  match s with
  | EmptyString => Some acc
  | String c s' =>
      let n := Z.of_nat (nat_of_ascii c) in
      if (48 <=? n) && (n <=? 57) then digitsValue (10 * acc + (n - 48)) s' else None
  end.

Definition decimalStringToNumber (s : string) : float :=
  match digitsValue 0 s with
  | Some z => numberOfZ z
  | None => PrimFloat.nan
  end.

(** The string of a number, for the numbers 0 to 99 (their decimal digits);
    other numbers are outside this fragment and are given the empty string. *)
Definition digitChar (d : nat) : string :=
  String (ascii_of_nat (48 + d)) EmptyString.

Definition smallNumberToString (x : float) : string :=
  match find (fun n => PrimFloat.eqb x (numberOfNat n)) (seq 0 100) with
  | Some n => if (n <? 10)%nat then digitChar n
              else String.append (digitChar (n / 10)) (digitChar (n mod 10))
  | None => ""
  end.

(* ------------------------------------------------------------------ *)
(** * The router (src/routes/index.ts) *)

Module Routes.

(** How [await dataEngine.processFile(file.path)] ends when the promise
    settles: it returns, or it throws and the handler reads
    [error instanceof Error ? error.message : String(error)]. *)
Inductive Awaited : Type :=
| Fulfilled
| RejectedWith (text : string).

(** An entry of [results] in a response. *)
Record FileResult : Type := mkFileResult {
  filename : string;
  status : string;
  error : option string
}.

(** The [message] of a response: the template [`Processed ${n} file(s)`] or
    the fixed text of the upload route. *)
Inductive Message : Type :=
| ProcessedFiles (n : nat)
| FileProcessedSuccessfully.

(** What a handler sends: the status code and the properties of the body
    (an absent property is [None]). *)
Record Response : Type := mkResponse {
  code : nat;
  success : bool;
  message : option Message;
  filesProcessed : option nat;
  failure : option string;       (* the [error] property of the body *)
  results : list FileResult
}.

(** An uploaded file: [file.originalname], and how the promise of its
    [processFile] settles ([None]: it never does). *)
Definition Upload : Type := (string * option Awaited)%type.

(** The callback of [files.map] in the process route. *)
Definition processOne (originalname : string) (a : Awaited) : FileResult :=
  match a with
  | Fulfilled => {| filename := originalname; status := "success"; error := None |}
  | RejectedWith text =>
      {| filename := originalname; status := "error"; error := Some text |}
  end.

(** [await Promise.all(files.map(...))]: the results in the order of the
    files, once every promise has settled. *)
Fixpoint awaitAll (files : list Upload) : option (list FileResult) :=
  match files with
  | [] => Some []
  | (originalname, a) :: files' =>
      match a, awaitAll files' with
      | Some a, Some rest => Some (processOne originalname a :: rest)
      | _, _ => None
      end
  end.

(** The handler of [POST /process]; [req.files] may be undefined.  The
    result is the response and whether the handler called
    [dataEngine.cleanup()]; [None] when it never answers. *)
Definition processRoute (files : option (list Upload)) : option (Response * bool) :=
  match files with
  | None | Some [] =>
      Some ({| code := 400; success := false; message := None;
               filesProcessed := None; failure := Some "No files uploaded";
               results := [] |}, false)
  | Some files =>
      match awaitAll files with
      | None => None
      | Some results =>
          let hasErrors := existsb (fun r => String.eqb (status r) "error") results in
          Some ({| code := 200; success := negb hasErrors;
                   message := Some (ProcessedFiles (length files));
                   filesProcessed := Some (length files); failure := None;
                   results := results |}, false)
      end
  end.

(** The handler of [POST /upload]; [req.file] may be undefined. *)
Definition uploadRoute (file : option Upload) : option (Response * bool) :=
  match file with
  | None =>
      Some ({| code := 400; success := false; message := None;
               filesProcessed := None; failure := Some "No file uploaded";
               results := [] |}, false)
  | Some (_, None) => None
  | Some (originalname, Some Fulfilled) =>
      Some ({| code := 200; success := true;
               message := Some FileProcessedSuccessfully;
               filesProcessed := None; failure := None;
               results := [{| filename := originalname; status := "success";
                              error := None |}] |}, false)
  | Some (originalname, Some (RejectedWith text)) =>
      Some ({| code := 400; success := false; message := None;
               filesProcessed := None; failure := Some "Error processing file";
               (* req.file?.originalname || 'unknown' *)
               results := [{| filename := if String.eqb originalname EmptyString
                                          then "unknown" else originalname;
                              status := "error"; error := Some text |}] |}, true)
  end.

(** What [await] sees of a call of [processFile] in a given state of its
    promise; [text] is the message of the error it was rejected with. *)
Definition awaited (s : DataEngine.Settlement) (text : string) : option Awaited :=
  match s with
  | DataEngine.Pending => None
  | DataEngine.Resolved => Some Fulfilled
  | DataEngine.Rejected => Some (RejectedWith text)
  end.

Section Builtins.

Variable StringToNumber : string -> float.
Variable NumberToString : float -> string.

(** One request to [POST /upload] against the engine of the module: the call
    of [processFile] runs through the events [evs], then the handler
    answers, after [dataEngine.cleanup()] when the call failed. *)
Definition upload (steps fuel : nat) (originalname text : string)
  (evs : list DataEngine.Event) (e : DataEngine.t) (h : DataEngine.Heap)
  : option (Response * DataEngine.Config) :=
  match DataEngine.run StringToNumber NumberToString steps fuel evs
          (DataEngine.processFile e h) with
  | None => None
  | Some c =>
      match uploadRoute (Some (originalname, awaited (DataEngine.completion c) text)) with
      | None => None
      | Some (response, cleans) =>
          if cleans
          then match DataEngine.step StringToNumber NumberToString steps fuel
                       DataEngine.Cleanup c with
               | None => None
               | Some c' => Some (response, c')
               end
          else Some (response, c)
      end
  end.

End Builtins.

End Routes.

(* ------------------------------------------------------------------ *)
(** * Vocabulary of the properties *)

(** A window start [k] is aligned and at most [ws] old at time [now]. *)
Definition covers (ws si now k : Z) : Prop :=
  k mod si = 0 /\ 0 <= now - k <= ws.

(** The same range with the age [ws] itself excluded. *)
Definition coversHalfOpen (ws si now k : Z) : Prop :=
  k mod si = 0 /\ 0 <= now - k < ws.

#[global] Instance covers_dec ws si now k : Decision (covers ws si now k).
Proof. unfold covers. apply _. Defined.

(** The window stored under [k] once [record] has been appended to it. *)
Definition appendTo (k : Z) (record : CSVRecord)
  (old : option WindowAggregator.Window) : WindowAggregator.Window :=
  match old with
  | Some window =>
      {| WindowAggregator.startTime := WindowAggregator.startTime window;
         WindowAggregator.records :=
           WindowAggregator.records window ++ [spread record] |}
  | None => {| WindowAggregator.startTime := k;
               WindowAggregator.records := [spread record] |}
  end.

(** Iterations [i .. i+n-1] of the loop of [addRecord] reach [k]. *)
Definition reached (now windowStart ws si i : Z) (n : nat) (k : Z) : Prop :=
  (windowStart - k) mod si = 0 /\
  i <= (windowStart - k) / si < i + Z.of_nat n /\
  now - k <= ws.

#[global] Instance reached_dec now windowStart ws si i n k :
  Decision (reached now windowStart ws si i n k).
Proof. unfold reached. apply _. Defined.

(** The eviction pass of a call of [addRecord] at [now] runs, reads [now']
    and removes the window starting at [k]. *)
Definition evictedBy (agg : WindowAggregator.t) (now now' k : Z) : Prop :=
  WindowAggregator.windowSize agg < now - WindowAggregator.lastCleanup agg /\
  k < now' - WindowAggregator.windowSize agg.

#[global] Instance evictedBy_dec agg now now' k : Decision (evictedBy agg now now' k).
Proof. unfold evictedBy. apply _. Defined.

(** The state comes from the constructor: [maxWindows] is what it computed. *)
Definition configured (agg : WindowAggregator.t) : Prop :=
  WindowAggregator.maxWindows agg =
  WindowAggregator.computeMaxWindows (WindowAggregator.windowSize agg)
    (WindowAggregator.slidingInterval agg).

(** A record for the examples. *)
Definition sampleRecord : CSVRecord := [("id", VNum 1%float)].

(** The clock does not run backwards: the event reads it at [te] or later. *)
Definition notBefore (te : Z) (ev : WindowAggregator.Event) : Prop :=
  match ev with
  | WindowAggregator.AddRecord now _ _ => te <= now
  | WindowAggregator.Tick now => te <= now
  | WindowAggregator.Stop => True
  end.

(** Every window of the map holds at least one record and is stored under
    its own start time. *)
Definition populated (w : gmap Z WindowAggregator.Window) : Prop :=
  forall (k : Z) (window : WindowAggregator.Window),
    w !! k = Some window ->
    (1 <= length (WindowAggregator.records window))%nat /\
    WindowAggregator.startTime window = k.

(** An aggregator with window size 1000 and interval 500 after one record
    added at time 1250. *)
Definition sampleAggregator : WindowAggregator.t :=
  default (WindowAggregator.constructor (Types.mkOptions 2 1000 500) 1000)
    (WindowAggregator.addRecord 1250 1250 sampleRecord
       (WindowAggregator.constructor (Types.mkOptions 2 1000 500) 1000)).

(** A run of the aggregator for the examples. *)
Definition sampleEvents : list WindowAggregator.Event :=
  [WindowAggregator.AddRecord 1000 1000 sampleRecord;
   WindowAggregator.AddRecord 1250 1250 sampleRecord;
   WindowAggregator.Tick 1500;
   WindowAggregator.AddRecord 3000 3001 sampleRecord;
   WindowAggregator.Stop;
   WindowAggregator.AddRecord 3200 3200 sampleRecord].

(** The four statistics of a field, the property each is stored under and
    its value over a list of numbers. *)
Inductive Stat : Type := Sum | Avg | Max | Min.

Definition suffix (st : Stat) : string :=
  match st with
  | Sum => "_sum"
  | Avg => "_avg"
  | Max => "_max"
  | Min => "_min"
  end.

Definition statKey (field : string) (st : Stat) : string :=
  String.append field (suffix st).

Definition statValue (st : Stat) (values : list float) : float :=
  match st with
  | Sum => fold_left PrimFloat.add values 0%float
  | Avg => PrimFloat.div (fold_left PrimFloat.add values 0%float)
             (numberOfNat (length values))
  | Max => WindowAggregator.mathMax values
  | Min => WindowAggregator.mathMin values
  end.

(** What one record contributes to the statistics of [field]: the number its
    value converts to, when that is not NaN.  A missing field contributes
    nothing; a text contributes the number it spells, if it spells one. *)
Definition contribution (StringToNumber : string -> float) (field : string)
  (record : CSVRecord) : list float :=
  match objGet field record with
  | None => []
  | Some (VNum n) => if PrimFloat.is_nan n then [] else [n]
  | Some (VStr s) =>
      if PrimFloat.is_nan (StringToNumber s) then [] else [StringToNumber s]
  end.

(** The records of a pass that carry the group key [key], in arrival order. *)
Definition groupOf (NumberToString : float -> string) (key : string)
  (records : list CSVRecord) : list CSVRecord :=
  filter (fun record => WindowAggregator.getGroupKey NumberToString record = key)
    records.

(** [result] holds the statistics of [group]: [count], and the four
    statistics of exactly the fields that are a number in the first record
    and contribute at least one value, each taken over the contributions. *)
Definition describes (StringToNumber : string -> float) (group : list CSVRecord)
  (result : GroupResult) : Prop :=
  match group with
  | [] => False
  | first :: _ =>
      objGet "count" result = Some (numberOfNat (length group)) /\
      forall (field : string) (st : Stat),
        objGet (statKey field st) result =
        if decide (field ∈ WindowAggregator.getNumericFields first /\
                   flat_map (contribution StringToNumber field) group <> [])
        then Some (statValue st (flat_map (contribution StringToNumber field) group))
        else None
  end.

(** The occurrences of [field] that are numbers, texts never converted. *)
Definition numericOccurrences (field : string) (records : list CSVRecord) : list float :=
  flat_map (fun record => match objGet field record with
                          | Some (VNum n) => [n]
                          | _ => []
                          end) records.

(** Two records of one group: the number 10 and the text "10". *)
Definition tenAsNumber : CSVRecord := [("value", VNum 10%float)].
Definition tenAsText : CSVRecord := [("value", VStr "10")].

(** Cutting a list into consecutive pieces of [size] elements, the last one
    possibly shorter; [fuel] bounds the number of pieces. *)
Fixpoint piecesOf {T : Type} (fuel size : nat) (l : list T) : list (list T) :=
  match fuel with
  | O => []
  | S fuel' =>
      match l with
      | [] => []
      | _ => firstn size l :: piecesOf fuel' size (skipn size l)
      end
  end.

(** The sizes of the pieces of a list of [n] elements: [n / size] full ones,
    then the remainder when there is one. *)
Definition pieceSizes (n size : nat) : list nat :=
  replicate (n / size) size ++
  (if (n mod size =? 0)%nat then [] else [(n mod size)%nat]).

(** A batcher with batch size [b] whose buffer holds [n] sample records. *)
Definition loadedProcessor (b : Z) (n : nat) : StreamProcessor.t :=
  StreamProcessor.withBuffer (replicate n sampleRecord)
    (StreamProcessor.constructor (Types.mkOptions b 1000 500)).

(** The total number of records in a list of batches. *)
Definition totalLength (batches : list (list CSVRecord)) : nat :=
  list_sum (map (@length CSVRecord) batches).

(** No batch is larger than [b]. *)
Definition withinBatchSize (b : Z) (batches : list (list CSVRecord)) : Prop :=
  Forall (fun batch => Z.of_nat (length batch) <= b) batches.

(** The states a batcher with options [opts] is in between the events of a
    serialised run: idle with a buffer below both thresholds, or waiting for
    a flush cycle that took the whole buffer. *)
Definition idle (opts : ProcessingOptions) (sp : StreamProcessor.t) : Prop :=
  StreamProcessor.options sp = opts /\
  StreamProcessor.highWaterMark sp = 1000 /\
  StreamProcessor.processing sp = false /\
  StreamProcessor.awaiting sp = None /\
  Z.of_nat (length (StreamProcessor.buffer sp)) < Types.batchSize opts /\
  Z.of_nat (length (StreamProcessor.buffer sp)) < 1000.

Definition flushing (opts : ProcessingOptions) (sp : StreamProcessor.t) : Prop :=
  StreamProcessor.options sp = opts /\
  StreamProcessor.highWaterMark sp = 1000 /\
  StreamProcessor.processing sp = true /\
  StreamProcessor.awaiting sp <> None /\
  StreamProcessor.buffer sp = [].

(** Every flush cycle so far began with at most [b] records in the buffer. *)
Definition flushStartsWithin (b : Z) (sp : StreamProcessor.t) : Prop :=
  Forall (fun n => Z.of_nat n <= b) (StreamProcessor.flushStarts sp).

(** Seven records for the examples, all read at time 0. *)
Definition sampleInput : list (Z * CSVRecord) := replicate 7 (0, sampleRecord).

(** Two records fill a batch of size 2 and start a flush cycle; four more
    arrive while it is in flight; it resumes; the next record starts a cycle. *)
Definition inFlightAccepts : list StreamProcessor.Event :=
  [StreamProcessor.Accept 0 sampleRecord; StreamProcessor.Accept 0 sampleRecord;
   StreamProcessor.Accept 1 sampleRecord; StreamProcessor.Accept 1 sampleRecord;
   StreamProcessor.Accept 1 sampleRecord; StreamProcessor.Accept 1 sampleRecord;
   StreamProcessor.Resume 2;
   StreamProcessor.Accept 3 sampleRecord].

(** The same seven records delivered as the transport does. *)
Definition serialAccepts : list StreamProcessor.Event :=
  [StreamProcessor.Accept 0 sampleRecord; StreamProcessor.Accept 0 sampleRecord;
   StreamProcessor.Resume 0;
   StreamProcessor.Accept 1 sampleRecord; StreamProcessor.Accept 1 sampleRecord;
   StreamProcessor.Resume 1;
   StreamProcessor.Accept 1 sampleRecord; StreamProcessor.Accept 1 sampleRecord;
   StreamProcessor.Resume 2;
   StreamProcessor.Accept 3 sampleRecord;
   StreamProcessor.Final 4; StreamProcessor.Resume 4].

(** The results log of a configuration, read through the store. *)
Definition configLog (c : DataEngine.Config) : list (option AggregationResult) :=
  DataEngine.logOf (DataEngine.engine c) (DataEngine.heap c).

(** The entries of the log as references to result objects, in order. *)
Definition configRefs (c : DataEngine.Config) : list nat :=
  DataEngine.logRefs (DataEngine.engine c) (DataEngine.heap c).

(** The events by which a caller changes an entry object. *)
Definition mutatesEntry (ev : DataEngine.Event) : bool :=
  match ev with
  | DataEngine.MutateEntry _ _ _ => true
  | _ => false
  end.

(** The entries a step finds in the log, as the step leaves them: a
    caller's change of a result object shows at every position of the log
    that holds this object; no other step changes an entry. *)
Definition entriesAfter (ev : DataEngine.Event) (c : DataEngine.Config)
  : list (option AggregationResult) :=
  match ev with
  | DataEngine.MutateEntry i j f =>
      match DataEngine.entryOf i j c with
      | Some ref =>
          map (fun r => if decide (r = ref)
                        then f <$> DataEngine.objects (DataEngine.heap c) !! r
                        else DataEngine.objects (DataEngine.heap c) !! r)
            (configRefs c)
      | None => configLog c
      end
  | _ => configLog c
  end.

(** What holds of every configuration an engine reaches: its results array
    is allocated, the entries of the log refer to allocated objects, the
    aggregator's timer runs only while the engine listens, and the arrays
    handed to callers are allocated and are not the results array. *)
Definition wellFormed (c : DataEngine.Config) : Prop :=
  DataEngine.results (DataEngine.engine c) ∈ dom (DataEngine.arrays (DataEngine.heap c)) /\
  (forall r : nat,
     r ∈ DataEngine.logRefs (DataEngine.engine c) (DataEngine.heap c) ->
     r ∈ dom (DataEngine.objects (DataEngine.heap c))) /\
  (WindowAggregator.timer (DataEngine.aggregator (DataEngine.engine c)) = true ->
   WindowAggregator.subscribed (DataEngine.aggregator (DataEngine.engine c)) = true) /\
  (forall a : nat,
     a ∈ DataEngine.snapshots c ->
     a ∈ dom (DataEngine.arrays (DataEngine.heap c)) /\
     a <> DataEngine.results (DataEngine.engine c)).

(** Options with a size or duration that is not positive. *)
Definition invalidOptions (opts : ProcessingOptions) : Prop :=
  Types.batchSize opts <= 0 \/ Types.windowSize opts <= 0 \/
  Types.slidingInterval opts <= 0.

(** A caller's change of a result: its count is set to 0. *)
Definition clearCount (r : AggregationResult) : AggregationResult :=
  {| Types.timestamp := Types.timestamp r; Types.count := 0;
     Types.data := Types.data r |}.

(** Two records, a tick that emits two results, and a call of [getResults]. *)
Definition snapshotSession : list DataEngine.Event :=
  [DataEngine.Decoded 1000 1000 (DataEngine.Row sampleRecord);
   DataEngine.Decoded 1100 1100 (DataEngine.Row sampleRecord);
   DataEngine.TimerTick 1500;
   DataEngine.GetResults].

(** The same, after which the caller reverses and truncates the array it
    received and clears the count of the entry it then finds first, and a
    second tick emits. *)
Definition sharedEntrySession : list DataEngine.Event :=
  snapshotSession ++
  [DataEngine.MutateSnapshot 0 (fun items => firstn 1 (rev items));
   DataEngine.MutateEntry 0 0 clearCount;
   DataEngine.TimerTick 2000].

(** A run of the engine for the examples: two records, a tick, a snapshot
    that its caller reverses and truncates, another tick, the end of input. *)
Definition sampleSession : list DataEngine.Event :=
  [DataEngine.Decoded 1000 1000 (DataEngine.Row sampleRecord);
   DataEngine.Decoded 1100 1100 (DataEngine.Row sampleRecord);
   DataEngine.TimerTick 1500;
   DataEngine.GetResults;
   DataEngine.MutateSnapshot 0 (fun items => firstn 1 (rev items));
   DataEngine.TimerTick 2000;
   DataEngine.EndOfInput 2100 2100].

(* ------------------------------------------------------------------ *)
(** * Vocabulary of the further properties *)

(** [out] is [record] with its [timestamp] property set to one of the clock
    readings [times], every other property as it was. *)
Definition stampedAmong (times : list Z) (out record : CSVRecord) : Prop :=
  exists now : Z,
    now ∈ times /\ out = objSet "timestamp" (VNum (numberOfZ now)) record.

(** The buffer length at which [_transform] starts a flush cycle: the batch
    size, or the high-water mark when that is smaller. *)
Definition flushThreshold (opts : ProcessingOptions) : Z :=
  Z.min (Types.batchSize opts) 1000.

(** Records read at times 10, 20, ..., with ids 1, 2, ... *)
Definition numberedInput (n : nat) : list (Z * CSVRecord) :=
  map (fun i => (10 * Z.of_nat i, [("id", VNum (numberOfNat i))])) (seq 1 n).

(** Every window of the map starts at a multiple of [si]. *)
Definition aligned (si : Z) (w : gmap Z WindowAggregator.Window) : Prop :=
  forall (k : Z) (window : WindowAggregator.Window),
    w !! k = Some window -> (si | k).

(** [record] with its [timestamp] property set to [v]. *)
Definition withTimestamp (v : JsValue) (record : CSVRecord) : CSVRecord :=
  objSet "timestamp" v (spread record).

(** Records given as (timestamp value, record) pairs, each record carrying
    that [timestamp]. *)
Definition timestamped (input : list (JsValue * CSVRecord)) : list CSVRecord :=
  map (fun vr => withTimestamp vr.1 vr.2) input.

(** The events that come from the source of a call of [processFile]. *)
Definition fromSource (ev : DataEngine.Event) : bool :=
  match ev with
  | DataEngine.Decoded _ _ _ | DataEngine.ParserError | DataEngine.StreamError
  | DataEngine.EndOfInput _ _ => true
  | _ => false
  end.

(** The source events that make the call fail. *)
Definition sourceFailure (ev : DataEngine.Event) : bool :=
  match ev with
  | DataEngine.Decoded _ _ DataEngine.NotAnObject
  | DataEngine.ParserError | DataEngine.StreamError => true
  | _ => false
  end.

(** The events that can follow the start of a call of [processFile]: all
    but the failure of its set-up, which its catch block handles before the
    call returns. *)
Definition afterSetup (ev : DataEngine.Event) : bool :=
  match ev with
  | DataEngine.SetupFailure => false
  | _ => true
  end.

(** A session for the examples: a record is buffered, the parser fails, and
    the source goes on delivering. *)
Definition failingSession : list DataEngine.Event :=
  [DataEngine.Decoded 1000 1000 (DataEngine.Row sampleRecord);
   DataEngine.ParserError;
   DataEngine.Decoded 1100 1100 (DataEngine.Row sampleRecord);
   DataEngine.EndOfInput 1200 1200].

(** The events of a source that decodes [rows] and then ends at [tEnd]. *)
Definition sourceOf (rows : list (Z * CSVRecord)) (tEnd : Z) : list DataEngine.Event :=
  map (fun tr => DataEngine.Decoded tr.1 tr.1 (DataEngine.Row tr.2)) rows ++
  [DataEngine.EndOfInput tEnd tEnd].

(** A sequence of calls of [addRecord], each with its two clock readings and
    its record; [None] when one of them does not return. *)
Fixpoint feed (calls : list (Z * Z * CSVRecord)) (agg : WindowAggregator.t)
  : option WindowAggregator.t :=
  match calls with
  | [] => Some agg
  | (now, now', record) :: calls' =>
      match WindowAggregator.addRecord now now' record agg with
      | None => None
      | Some agg' => feed calls' agg'
      end
  end.

(** Uploaded files whose calls of [processFile] have all settled. *)
Definition settledUploads (settled : list (string * Routes.Awaited)) : list Routes.Upload :=
  map (fun na => (na.1, Some na.2)) settled.

(** An aggregator whose window (100) is shorter than its interval (500). *)
Definition shortWindowAggregator : WindowAggregator.t :=
  WindowAggregator.constructor (Types.mkOptions 2 100 500) 0.

(** Two records added to a new aggregator with window size 1000 and
    interval 500. *)
Definition twoRecords : list WindowAggregator.Event :=
  [WindowAggregator.AddRecord 1000 1000 sampleRecord;
   WindowAggregator.AddRecord 1250 1250 sampleRecord].

(** An engine with batch size 2 that holds one record in its buffer. *)
Definition bufferedSession : DataEngine.Config :=
  default (DataEngine.start (Types.mkOptions 2 1000 500) 1000)
    (DataEngine.run decimalStringToNumber smallNumberToString 2 1
       [DataEngine.Decoded 1000 1000 (DataEngine.Row sampleRecord)]
       (DataEngine.start (Types.mkOptions 2 1000 500) 1000)).

(* ------------------------------------------------------------------ *)
(** * Window assignment *)

Section WindowAssignment.

Import WindowAggregator.

Lemma addToWindow_lookup (k windowTime : Z) record (w : gmap Z Window) :
  addToWindow windowTime record w !! k =
  if decide (k = windowTime) then Some (appendTo k record (w !! k)) else w !! k.
Proof.
  unfold addToWindow. destruct (decide (k = windowTime)) as [->|Hne].
  - rewrite lookup_insert_eq. unfold appendTo.
    destruct (w !! windowTime); reflexivity.
  - rewrite lookup_insert_ne by congruence. reflexivity.
Qed.

Lemma addRecordLoop_lookup (n : nat) :
  forall (i now windowStart ws si : Z) record (w : gmap Z Window) (k : Z),
    0 < si ->
    addRecordLoop n i now windowStart ws si record w !! k =
    if decide (reached now windowStart ws si i n k)
    then Some (appendTo k record (w !! k)) else w !! k.
Proof.
  induction n as [|n IH]; intros i now windowStart ws si record w k Hsi.
  - simpl. destruct (decide _) as [(_ & Hr & _)|_]; [lia | reflexivity].
  - cbn [addRecordLoop]. rewrite IH by assumption.
    set (windowTime := windowStart - i * si).
    assert (Hq : k = windowTime <->
                 (windowStart - k) mod si = 0 /\ (windowStart - k) / si = i).
    { subst windowTime. split.
      - intros ->. replace (windowStart - (windowStart - i * si)) with (i * si) by lia.
        rewrite Z.mod_mul, Z.div_mul by lia. auto.
      - intros [Hm Hd].
        pose proof (Z.div_mod (windowStart - k) si ltac:(lia)) as E.
        rewrite Hm, Hd in E. lia. }
    destruct (decide (k = windowTime)) as [Hk|Hk].
    + pose proof (proj1 Hq Hk) as [Hm Hd].
      destruct (decide (reached _ _ _ _ (i + 1) n k)) as [(_ & Hr & _)|_]; [lia|].
      destruct (now - windowTime <=? ws) eqn:Hle.
      * rewrite addToWindow_lookup, decide_True by assumption.
        rewrite decide_True; [reflexivity|].
        unfold reached. apply Z.leb_le in Hle. subst k. repeat split; lia.
      * rewrite decide_False; [reflexivity|].
        unfold reached. apply Z.leb_gt in Hle. subst k. lia.
    + assert (Hw : (if now - windowTime <=? ws
                    then addToWindow windowTime record w else w) !! k = w !! k).
      { destruct (now - windowTime <=? ws); [|reflexivity].
        rewrite addToWindow_lookup, decide_False by assumption. reflexivity. }
      rewrite Hw.
      destruct (decide (reached _ _ _ _ (i + 1) n k)) as [H1|H1];
        destruct (decide (reached _ _ _ _ i (S n) k)) as [H2|H2];
        try reflexivity; exfalso.
      * apply H2. destruct H1 as (? & ? & ?). unfold reached. repeat split; lia.
      * apply H1. destruct H2 as (Hm & Hr & ?). unfold reached.
        destruct (Z.eq_dec ((windowStart - k) / si) i) as [Hd|Hd].
        { exfalso. apply Hk, Hq. auto. }
        repeat split; lia.
Qed.

(** With the bounds the constructor computes, the loop reaches exactly the
    aligned starts that are at most [ws] old. *)
Lemma reached_covers (now ws si k : Z) :
  0 < ws -> 0 < si ->
  reached now (now / si * si) ws si 0 (Z.to_nat (ceilDiv ws si + 1)) k <->
  covers ws si now k.
Proof.
  intros Hws Hsi. unfold reached, covers, ceilDiv.
  pose proof (Z.div_mod now si ltac:(lia)) as Enow.
  pose proof (Z.mod_pos_bound now si Hsi) as Bnow.
  assert (Hceil : ws <= - (- ws / si) * si).
  { pose proof (Z.div_mod (- ws) si ltac:(lia)) as E.
    pose proof (Z.mod_pos_bound (- ws) si Hsi). nia. }
  assert (Hcpos : 0 <= - (- ws / si)).
  { pose proof (Z.div_mod (- ws) si ltac:(lia)) as E.
    pose proof (Z.mod_pos_bound (- ws) si Hsi). nia. }
  split.
  - intros (Hm & Hr & Hle).
    pose proof (Z.div_mod (now / si * si - k) si ltac:(lia)) as E.
    rewrite Hm in E. split.
    + rewrite <- (Z.mod_mul (now / si) si) in Hm by lia.
      replace k with (now / si * si - si * ((now / si * si - k) / si)) by lia.
      unfold Z.sub. rewrite <- Z.mul_opp_r, (Z.mul_comm si), Z.mod_add by lia.
      apply Z.mod_mul. lia.
    + nia.
  - intros (Hm & Hr).
    pose proof (Z.div_mod k si ltac:(lia)) as Ek. rewrite Hm in Ek.
    assert (Hdiff : now / si * si - k = (now / si - k / si) * si) by lia.
    rewrite Hdiff, Z.mod_mul, Z.div_mul by lia.
    assert (k / si <= now / si) by (apply Z.div_le_mono; lia).
    repeat split; try lia.
    rewrite Z2Nat.id by lia. nia.
Qed.


(** An eviction pass keeps a window exactly when its start is not below the
    cutoff, and keeps it unchanged. *)
Lemma cleanupWindows_lookup (now : Z) (agg : t) (k : Z) :
  windows (cleanupWindows now agg) !! k =
  if decide (k < now - windowSize agg) then None else windows agg !! k.
Proof.
  cbn [cleanupWindows windows]. rewrite map_lookup_filter.
  destruct (windows agg !! k) as [window|]; simpl.
  - destruct (decide (k < now - windowSize agg)).
    + rewrite option_guard_False by (simpl; tauto). reflexivity.
    + rewrite option_guard_True by (simpl; tauto). reflexivity.
  - destruct (decide _); reflexivity.
Qed.


(** C1 (as amended).  With positive [windowSize] and [slidingInterval], a
    call of [addRecord] at time [now] returns, and it appends a copy of the
    record to exactly the windows whose start is a multiple of
    [slidingInterval] with [now - start] in the closed range
    [0 .. windowSize]; every other window is left as it was.  The eviction
    pass that may end the call removes the windows older than [windowSize]
    at its own reading [now'] of the clock. *)
Theorem addRecord_assigns_covering_windows
  (agg : t) (now now' : Z) (record : CSVRecord) :
  configured agg -> 0 < windowSize agg -> 0 < slidingInterval agg ->
  exists agg',
    addRecord now now' record agg = Some agg' /\
    forall k : Z,
      windows agg' !! k =
      if decide (evictedBy agg now now' k) then None
      else if decide (covers (windowSize agg) (slidingInterval agg) now k)
           then Some (appendTo k record (windows agg !! k))
           else windows agg !! k.
Proof.
  intros Hcfg Hws Hsi. unfold addRecord. rewrite Hcfg.
  unfold computeMaxWindows. destruct (Z.eqb_spec (slidingInterval agg) 0) as [E|_]; [lia|].
  cbn [loopBound]. eexists. split; [reflexivity|]. intros k.
  cbn [withWindows windowSize lastCleanup].
  assert (Hloop : forall k0,
    addRecordLoop (Z.to_nat (ceilDiv (windowSize agg) (slidingInterval agg) + 1)) 0 now
      (now / slidingInterval agg * slidingInterval agg) (windowSize agg)
      (slidingInterval agg) record (windows agg) !! k0 =
    if decide (covers (windowSize agg) (slidingInterval agg) now k0)
    then Some (appendTo k0 record (windows agg !! k0)) else windows agg !! k0).
  { intros k0. rewrite addRecordLoop_lookup by assumption.
    destruct (decide (reached _ _ _ _ _ _ _)) as [H|H];
      destruct (decide (covers _ _ _ _)) as [H'|H']; try reflexivity; exfalso.
    - apply H', reached_covers; assumption.
    - apply H, reached_covers; assumption. }
  destruct (Z.ltb_spec (windowSize agg) (now - lastCleanup agg)) as [Hc|Hc].
  - rewrite cleanupWindows_lookup. cbn [withWindows windowSize windows].
    destruct (decide (k < now' - windowSize agg)) as [Hk|Hk].
    + rewrite decide_True by (split; assumption). reflexivity.
    + rewrite decide_False by (intros [_ ?]; contradiction). apply Hloop.
  - rewrite decide_False by (intros [? _]; lia). cbn [withWindows windows]. apply Hloop.
Qed.

(** The theorem at a concrete call: window size 1000, interval 500, a record
    added at time 1250 to a new aggregator. *)
Lemma addRecord_assigns_covering_windows_witness :
  exists agg',
    addRecord 1250 1250 sampleRecord (constructor (Types.mkOptions 2 1000 500) 1000)
      = Some agg' /\
    forall k : Z,
      windows agg' !! k =
      if decide (evictedBy (constructor (Types.mkOptions 2 1000 500) 1000) 1250 1250 k)
      then None
      else if decide (covers 1000 500 1250 k)
           then Some (appendTo k sampleRecord
                        (windows (constructor (Types.mkOptions 2 1000 500) 1000) !! k))
           else windows (constructor (Types.mkOptions 2 1000 500) 1000) !! k.
Proof.
  apply (addRecord_assigns_covering_windows
           (constructor (Types.mkOptions 2 1000 500) 1000) 1250 1250 sampleRecord).
  - reflexivity.
  - simpl. lia.
  - simpl. lia.
Defined.

(** C1 as stated fails: with window size 1000 and interval 500, a record
    added at time 1000 is appended to the window that starts at 0, although
    [1000 - 0] is not in the half-open range [0 .. 1000). *)
Lemma addRecord_reaches_window_of_full_age :
  exists agg',
    addRecord 1000 1000 sampleRecord (constructor (Types.mkOptions 2 1000 500) 1000)
      = Some agg' /\
    windows agg' !! 0 = Some {| startTime := 0; records := [sampleRecord] |} /\
    windows (constructor (Types.mkOptions 2 1000 500) 1000) !! 0 = None /\
    ~ coversHalfOpen 1000 500 1000 0.
Proof.
  eexists. split; [reflexivity|]. split; [reflexivity|]. split; [reflexivity|].
  unfold coversHalfOpen. lia.
Qed.

End WindowAssignment.

Section WindowLifetime.

Import WindowAggregator.

Variable StringToNumber : string -> float.
Variable NumberToString : float -> string.

Lemma addRecord_returns (agg : t) (now now' : Z) (record : CSVRecord) :
  configured agg -> slidingInterval agg <> 0 ->
  exists agg', addRecord now now' record agg = Some agg' /\
               configured agg' /\
               windowSize agg' = windowSize agg /\
               slidingInterval agg' = slidingInterval agg.
Proof.
  intros Hcfg Hsi. unfold addRecord. rewrite Hcfg. unfold computeMaxWindows.
  destruct (Z.eqb_spec (slidingInterval agg) 0) as [E|_]; [contradiction|].
  cbn [loopBound]. eexists. split; [reflexivity|].
  cbn [withWindows windowSize lastCleanup].
  destruct (windowSize agg <? now - lastCleanup agg);
    unfold configured; cbn; rewrite Hcfg; unfold computeMaxWindows;
    destruct (Z.eqb_spec (slidingInterval agg) 0); try contradiction; auto.
Qed.

(** A call of [addRecord] at [now] leaves alone every start time that is
    more than [windowSize] in the past, apart from evicting it. *)
Lemma addRecord_keeps_absent (agg agg' : t) (now now' : Z) record (k : Z) :
  0 < slidingInterval agg ->
  addRecord now now' record agg = Some agg' ->
  windowSize agg < now - k ->
  windows agg !! k = None ->
  windows agg' !! k = None.
Proof.
  intros Hsi Hadd Hold Hk. unfold addRecord in Hadd.
  destruct (loopBound (maxWindows agg)) as [n|]; [|discriminate].
  injection Hadd as <-. cbn [withWindows windowSize lastCleanup].
  assert (Hloop : addRecordLoop n 0 now (now / slidingInterval agg * slidingInterval agg)
                    (windowSize agg) (slidingInterval agg) record (windows agg) !! k = None).
  { rewrite addRecordLoop_lookup by assumption.
    rewrite decide_False; [assumption|]. intros (_ & _ & ?). lia. }
  destruct (windowSize agg <? now - lastCleanup agg).
  - rewrite cleanupWindows_lookup. cbn [withWindows windows windowSize].
    destruct (decide _); [reflexivity | assumption].
  - cbn [withWindows windows]. assumption.
Qed.

Lemma run_keeps_evicted (te k : Z) (evs : list Event) :
  forall agg : t,
    configured agg -> 0 < slidingInterval agg ->
    Forall (notBefore te) evs ->
    k < te - windowSize agg ->
    windows agg !! k = None ->
    exists agg' out,
      run StringToNumber NumberToString evs agg = Some (agg', out) /\
      windows agg' !! k = None.
Proof.
  induction evs as [|ev evs IH]; intros agg Hcfg Hsi Hev Hk Habs.
  - exists agg, []. split; [reflexivity | assumption].
  - inversion Hev as [|? ? Hnb Hrest]; subst.
    destruct ev as [now now' record| now |]; cbn [run step].
    + destruct (addRecord_returns agg now now' record Hcfg ltac:(lia))
        as (agg1 & Hadd & Hcfg1 & Hws1 & Hsi1).
      rewrite Hadd.
      assert (Habs1 : windows agg1 !! k = None).
      { apply (addRecord_keeps_absent agg agg1 now now' record k); try assumption.
        simpl in Hnb. lia. }
      destruct (IH agg1 Hcfg1 ltac:(lia) Hrest ltac:(lia) Habs1)
        as (agg' & out & Hrun & Hfin).
      rewrite Hrun. eauto.
    + destruct (IH agg Hcfg Hsi Hrest Hk Habs) as (agg' & out & Hrun & Hfin).
      rewrite Hrun. eauto.
    + destruct (IH (stop agg) Hcfg Hsi Hrest Hk (lookup_empty k))
        as (agg' & out & Hrun & Hfin).
      rewrite Hrun. eauto.
Qed.

(** C7.  An eviction pass at time [te] removes exactly the windows whose
    start is below [te - windowSize] and leaves the others as they were;
    and whatever happens afterwards, at clock readings not before [te], the
    events are all handled and no window is stored again under the start
    time of an evicted one. *)
Theorem eviction_is_exact_and_final
  (agg : t) (te : Z) (evs : list Event) :
  configured agg -> 0 < slidingInterval agg ->
  Forall (notBefore te) evs ->
  (forall k : Z,
     windows (cleanupWindows te agg) !! k =
     if decide (k < te - windowSize agg) then None else windows agg !! k) /\
  (forall k : Z,
     k < te - windowSize agg ->
     exists agg' out,
       run StringToNumber NumberToString evs (cleanupWindows te agg) = Some (agg', out) /\
       windows agg' !! k = None).
Proof.
  intros Hcfg Hsi Hev. split.
  - intros k. apply cleanupWindows_lookup.
  - intros k Hk. apply (run_keeps_evicted te k evs (cleanupWindows te agg)).
    + exact Hcfg.
    + exact Hsi.
    + assumption.
    + exact Hk.
    + rewrite cleanupWindows_lookup, decide_True by assumption. reflexivity.
Qed.

End WindowLifetime.

(** The theorem for an aggregator with window size 1000 and interval 500
    that holds the windows of a record added at 1250, evicted at 5000 and
    then fed again. *)
Lemma eviction_is_exact_and_final_witness :
  (forall k : Z,
     WindowAggregator.windows (WindowAggregator.cleanupWindows 5000 sampleAggregator) !! k =
     if decide (k < 5000 - WindowAggregator.windowSize sampleAggregator) then None
     else WindowAggregator.windows sampleAggregator !! k) /\
  (forall k : Z,
     k < 5000 - WindowAggregator.windowSize sampleAggregator ->
     exists agg' out,
       WindowAggregator.run decimalStringToNumber smallNumberToString
         [WindowAggregator.AddRecord 5000 5000 sampleRecord;
          WindowAggregator.Tick 5500;
          WindowAggregator.AddRecord 6000 6001 sampleRecord]
         (WindowAggregator.cleanupWindows 5000 sampleAggregator) = Some (agg', out) /\
       WindowAggregator.windows agg' !! k = None).
Proof.
  apply (eviction_is_exact_and_final decimalStringToNumber smallNumberToString
           sampleAggregator 5000).
  - reflexivity.
  - vm_compute. reflexivity.
  - repeat constructor; simpl; lia.
Defined.



Section GroupStatistics.

Import WindowAggregator.

Variable StringToNumber : string -> float.

(** ** Property names *)

Lemma string_length_append (a b : string) :
  String.length (String.append a b) = (String.length a + String.length b)%nat.
Proof. induction a as [|c a IH]; simpl; [reflexivity | f_equal; exact IH]. Qed.

Lemma append_same_length_inj (a : string) :
  forall b s1 s2 : string,
    String.length s1 = String.length s2 ->
    String.append a s1 = String.append b s2 -> a = b /\ s1 = s2.
Proof.
  induction a as [|c a IH]; intros [|c' b] s1 s2 Hlen Heq.
  - auto.
  - apply (f_equal String.length) in Heq.
    rewrite !string_length_append in Heq. simpl in Heq. lia.
  - apply (f_equal String.length) in Heq.
    rewrite !string_length_append in Heq. simpl in Heq. lia.
  - change (String c (String.append a s1) = String c' (String.append b s2)) in Heq.
    injection Heq as -> Heq. destruct (IH b s1 s2 Hlen Heq) as [-> ->]. auto.
Qed.

Lemma suffix_length (st : Stat) : String.length (suffix st) = 4%nat.
Proof. destruct st; reflexivity. Qed.

Lemma suffix_inj (st st' : Stat) : suffix st = suffix st' -> st = st'.
Proof. destruct st, st'; cbn; intros H; try reflexivity; discriminate. Qed.

Lemma statKey_inj (f g : string) (st st' : Stat) :
  statKey f st = statKey g st' -> f = g /\ st = st'.
Proof.
  unfold statKey. intros H.
  apply append_same_length_inj in H as [-> H].
  - split; [reflexivity | apply suffix_inj, H].
  - rewrite !suffix_length. reflexivity.
Qed.

Lemma statKey_not_count (f : string) (st : Stat) : statKey f st <> "count".
Proof.
  unfold statKey. change "count" with (String.append "c" "ount"). intros H.
  apply append_same_length_inj in H as [_ H].
  - destruct st; discriminate.
  - rewrite suffix_length. reflexivity.
Qed.

(** ** Reading and writing properties *)

Lemma objGet_objSet_eq {V : Type} (key : string) (v : V) (obj : list (string * V)) :
  objGet key (objSet key v obj) = Some v.
Proof.
  induction obj as [|[k x] obj IH]; cbn.
  - rewrite String.eqb_refl. reflexivity.
  - destruct (String.eqb_spec k key) as [->|Hne]; cbn.
    + rewrite String.eqb_refl. reflexivity.
    + destruct (String.eqb_spec k key); [contradiction | exact IH].
Qed.

Lemma objGet_objSet_ne {V : Type} (key key' : string) (v : V) (obj : list (string * V)) :
  key <> key' -> objGet key (objSet key' v obj) = objGet key obj.
Proof.
  intros Hne. induction obj as [|[k x] obj IH]; cbn.
  - destruct (String.eqb_spec key' key); [congruence | reflexivity].
  - destruct (String.eqb_spec k key') as [->|Hk]; cbn.
    + destruct (String.eqb_spec key' key); [congruence | reflexivity].
    + destruct (String.eqb_spec k key); [reflexivity | exact IH].
Qed.

Lemma objGet_objSet {V : Type} (key key' : string) (v : V) (obj : list (string * V)) :
  objGet key (objSet key' v obj) =
  if decide (key = key') then Some v else objGet key obj.
Proof.
  destruct (decide (key = key')) as [->|Hne].
  - apply objGet_objSet_eq.
  - apply objGet_objSet_ne, Hne.
Qed.

(** ** The values that enter the statistics *)

Lemma numericValues_contributions (field : string) (records : list CSVRecord) :
  numericValues StringToNumber field records =
  flat_map (contribution StringToNumber field) records.
Proof.
  unfold numericValues. induction records as [|r records IH]; [reflexivity|].
  cbn [map flat_map]. rewrite filter_cons, IH. unfold contribution, toNumber.
  destruct (objGet field r) as [[n|s]|]; cbn.
  - destruct (PrimFloat.is_nan n) eqn:E.
    + rewrite decide_False by (cbn; congruence). reflexivity.
    + rewrite decide_True by reflexivity. reflexivity.
  - destruct (PrimFloat.is_nan (StringToNumber s)) eqn:E.
    + rewrite decide_False by (cbn; congruence). reflexivity.
    + rewrite decide_True by reflexivity. reflexivity.
  - rewrite decide_False by (cbn; congruence). reflexivity.
Qed.

(** ** One field, then all of them *)

Lemma aggregateField_statKey (records : list CSVRecord) (result : GroupResult)
  (field g : string) (st : Stat) :
  objGet (statKey g st) (aggregateField StringToNumber records result field) =
  if decide (g = field /\ numericValues StringToNumber field records <> [])
  then Some (statValue st (numericValues StringToNumber field records))
  else objGet (statKey g st) result.
Proof.
  unfold aggregateField.
  destruct (numericValues StringToNumber field records) as [|v values] eqn:E.
  - cbn. rewrite decide_False by (intros [_ ?]; congruence). reflexivity.
  - cbn [length Nat.ltb Nat.leb].
    change (String.append field "_sum") with (statKey field Sum).
    change (String.append field "_avg") with (statKey field Avg).
    change (String.append field "_max") with (statKey field Max).
    change (String.append field "_min") with (statKey field Min).
    rewrite !objGet_objSet.
    destruct (decide (g = field /\ v :: values <> [])) as [[-> _]|Hno].
    + destruct st;
        repeat match goal with
        | |- context [decide (statKey ?f ?s = statKey ?f ?s')] =>
            let Hd := fresh "Hd" in
            destruct (decide (statKey f s = statKey f s')) as [Hd|Hd];
            [ try (apply statKey_inj in Hd as [_ Hd]; discriminate Hd)
            | try (exfalso; apply Hd; reflexivity) ]
        end;
        reflexivity.
    + assert (Hne : g <> field) by (intros ->; apply Hno; split; [reflexivity | discriminate]).
      repeat match goal with
      | |- context [decide (statKey g ?s = statKey field ?s')] =>
          let Hd := fresh "Hd" in
          destruct (decide (statKey g s = statKey field s')) as [Hd|Hd];
          [ apply statKey_inj in Hd as [Hd _]; contradiction | ]
      end.
      reflexivity.
Qed.

Lemma aggregateField_count (records : list CSVRecord) (result : GroupResult)
  (field : string) :
  objGet "count" (aggregateField StringToNumber records result field) =
  objGet "count" result.
Proof.
  unfold aggregateField. destruct (0 <? length _)%nat; [|reflexivity].
  change (String.append field "_sum") with (statKey field Sum).
  change (String.append field "_avg") with (statKey field Avg).
  change (String.append field "_max") with (statKey field Max).
  change (String.append field "_min") with (statKey field Min).
  rewrite !objGet_objSet_ne; [reflexivity|..];
    intros H; symmetry in H; exact (statKey_not_count _ _ H).
Qed.

Lemma aggregateFields_statKey (records : list CSVRecord) (fields : list string) :
  forall (result : GroupResult) (g : string) (st : Stat),
    objGet (statKey g st)
      (fold_left (aggregateField StringToNumber records) fields result) =
    if decide (g ∈ fields /\ numericValues StringToNumber g records <> [])
    then Some (statValue st (numericValues StringToNumber g records))
    else objGet (statKey g st) result.
Proof.
  induction fields as [|f fields IH] using rev_ind; intros result g st.
  - cbn. rewrite decide_False; [reflexivity|]. intros [H _]. inversion H.
  - rewrite fold_left_app. cbn [fold_left]. rewrite aggregateField_statKey, IH.
    destruct (decide (g = f /\ _)) as [[-> Hv]|Hno].
    + rewrite decide_True; [reflexivity|]. split; [|assumption].
      apply elem_of_app. right. apply list_elem_of_singleton. reflexivity.
    + destruct (decide (g ∈ fields /\ _)) as [[Hin Hv]|Hno'].
      * rewrite decide_True; [reflexivity|]. split; [|assumption].
        apply elem_of_app. left. assumption.
      * rewrite decide_False; [reflexivity|]. intros [Hin Hv].
        apply elem_of_app in Hin as [Hin|Hin].
        -- apply Hno'. auto.
        -- apply list_elem_of_singleton in Hin. subst g. apply Hno. auto.
Qed.

Lemma aggregateFields_count (records : list CSVRecord) (fields : list string) :
  forall result : GroupResult,
    objGet "count" (fold_left (aggregateField StringToNumber records) fields result) =
    objGet "count" result.
Proof.
  induction fields as [|f fields IH]; intros result; cbn; [reflexivity|].
  rewrite IH. apply aggregateField_count.
Qed.

(** The statistics of one group. *)
Lemma calculateGroupAggregations_describes (first : CSVRecord) (rest : list CSVRecord) :
  exists result : GroupResult,
    calculateGroupAggregations StringToNumber (first :: rest) = Some result /\
    describes StringToNumber (first :: rest) result.
Proof.
  cbn [calculateGroupAggregations describes]. eexists. split; [reflexivity|]. split.
  - rewrite aggregateFields_count. reflexivity.
  - intros field st. rewrite aggregateFields_statKey.
    rewrite numericValues_contributions.
    destruct (decide _); [reflexivity|].
    cbn [objGet].
    destruct (String.eqb_spec "count" (statKey field st)) as [E|_]; [|reflexivity].
    symmetry in E. destruct (statKey_not_count _ _ E).
Qed.

(** ** The groups of a pass *)

Variable NumberToString : float -> string.

Lemma objGet_None_keys {V : Type} (key : string) (obj : list (string * V)) :
  objGet key obj = None <-> key ∉ map fst obj.
Proof.
  induction obj as [|[k x] obj IH]; cbn.
  - split; [intros _ H; inversion H | reflexivity].
  - rewrite not_elem_of_cons. destruct (String.eqb_spec k key) as [->|Hne].
    + split; [discriminate | intros [H _]; contradiction].
    + rewrite IH. split; [intros H; split; [congruence | exact H] | intros [_ H]; exact H].
Qed.

Lemma objSet_keys {V : Type} (key : string) (v : V) (obj : list (string * V)) (k : string) :
  k ∈ map fst (objSet key v obj) -> k = key \/ k ∈ map fst obj.
Proof.
  induction obj as [|[k0 x] obj IH]; cbn.
  - intros H. apply list_elem_of_singleton in H. auto.
  - destruct (String.eqb_spec k0 key) as [->|Hne]; cbn.
    + auto.
    + rewrite !elem_of_cons. intros [->|H]; [auto|].
      destruct (IH H); auto.
Qed.

Lemma objSet_NoDup {V : Type} (key : string) (v : V) (obj : list (string * V)) :
  NoDup (map fst obj) -> NoDup (map fst (objSet key v obj)).
Proof.
  induction obj as [|[k0 x] obj IH]; cbn.
  - intros _. apply NoDup_singleton.
  - intros Hnd. apply NoDup_cons in Hnd as [Hk0 Hnd].
    destruct (String.eqb_spec k0 key) as [->|Hne]; cbn.
    + apply NoDup_cons. split; assumption.
    + apply NoDup_cons. split; [|apply IH, Hnd].
      intros [->|H]%objSet_keys; contradiction.
Qed.

Lemma addToGroup_lookup (groups : list (string * list CSVRecord)) (record : CSVRecord)
  (key : string) :
  objGet key (addToGroup NumberToString groups record) =
  if decide (key = getGroupKey NumberToString record)
  then Some (default [] (objGet key groups) ++ [record])
  else objGet key groups.
Proof.
  unfold addToGroup. set (k := getGroupKey NumberToString record).
  destruct (objGet k groups) as [group|] eqn:E.
  - rewrite E, objGet_objSet.
    destruct (decide (key = k)) as [->|_]; [rewrite E|]; reflexivity.
  - rewrite objGet_objSet_eq, !objGet_objSet.
    destruct (decide (key = k)) as [->|_]; [rewrite E|]; reflexivity.
Qed.

Lemma addToGroup_NoDup (groups : list (string * list CSVRecord)) (record : CSVRecord) :
  NoDup (map fst groups) ->
  NoDup (map fst (addToGroup NumberToString groups record)).
Proof.
  intros Hnd. unfold addToGroup.
  destruct (objGet _ groups) as [group|] eqn:E.
  - rewrite E. apply objSet_NoDup, Hnd.
  - rewrite objGet_objSet_eq. apply objSet_NoDup, objSet_NoDup, Hnd.
Qed.

(** The group stored under a key holds the records of that key, in arrival
    order; a key that no record carries has no group. *)
Lemma groupRecords_lookup (records : list CSVRecord) (key : string) :
  objGet key (groupRecords NumberToString records) =
  match groupOf NumberToString key records with
  | [] => None
  | group => Some group
  end.
Proof.
  unfold groupRecords, groupOf.
  induction records as [|record records IH] using rev_ind; [reflexivity|].
  rewrite fold_left_app. cbn [fold_left]. rewrite addToGroup_lookup, IH, filter_app.
  rewrite filter_cons, filter_nil.
  destruct (decide (key = getGroupKey NumberToString record)) as [->|Hne].
  - rewrite decide_True by reflexivity.
    destruct (filter _ records); reflexivity.
  - rewrite decide_False by congruence. rewrite app_nil_r. reflexivity.
Qed.

Lemma groupRecords_NoDup (records : list CSVRecord) :
  NoDup (map fst (groupRecords NumberToString records)).
Proof.
  unfold groupRecords.
  induction records as [|record records IH] using rev_ind; [apply NoDup_nil_2|].
  rewrite fold_left_app. cbn [fold_left]. apply addToGroup_NoDup, IH.
Qed.

Lemma setGroupResults_lookup (groups : list (string * list CSVRecord)) :
  forall acc : list (string * GroupResult),
    NoDup (map fst groups) ->
    (forall key group, objGet key groups = Some group -> group <> []) ->
    exists results : list (string * GroupResult),
      fold_left (setGroupResult StringToNumber) groups (Some acc) = Some results /\
      forall key : string,
        objGet key results =
        match objGet key groups with
        | Some group => calculateGroupAggregations StringToNumber group
        | None => objGet key acc
        end.
Proof.
  induction groups as [|[k group] groups IH]; intros acc Hnd Hne.
  - exists acc. split; reflexivity.
  - cbn [map fst] in Hnd. apply NoDup_cons in Hnd as [Hk Hnd].
    assert (Hgroup : group <> []).
    { apply (Hne k). cbn. rewrite String.eqb_refl. reflexivity. }
    destruct group as [|first rest]; [contradiction|].
    destruct (calculateGroupAggregations_describes first rest) as (r & Hr & _).
    cbn [fold_left]. unfold setGroupResult at 2. cbn [fst snd]. rewrite Hr.
    destruct (IH (objSet k r acc) Hnd) as (results & Hfold & Hlook).
    + intros key g Hg. apply (Hne key). cbn.
      destruct (String.eqb_spec k key) as [->|_]; [|exact Hg].
      apply objGet_None_keys in Hk. congruence.
    + exists results. split; [exact Hfold|]. intros key. rewrite Hlook. cbn [objGet].
      destruct (String.eqb_spec k key) as [->|Hkey].
      * apply objGet_None_keys in Hk. rewrite Hk, objGet_objSet_eq, Hr. reflexivity.
      * rewrite objGet_objSet_ne by congruence. reflexivity.
Qed.

(** An aggregation pass does not throw: under each group key it stores what
    [calculateGroupAggregations] returns for the records of that key, and it
    stores nothing under a key that no record carries. *)
Lemma calculateAggregations_returns (records : list CSVRecord) :
  exists results : list (string * GroupResult),
    calculateAggregations StringToNumber NumberToString records = Some results /\
    forall key : string,
      objGet key results =
      match groupOf NumberToString key records with
      | [] => None
      | group => calculateGroupAggregations StringToNumber group
      end.
Proof.
  unfold calculateAggregations.
  destruct (setGroupResults_lookup (groupRecords NumberToString records) []
              (groupRecords_NoDup records)) as (results & Hfold & Hlook).
  - intros key group. rewrite groupRecords_lookup.
    destruct (groupOf NumberToString key records); [discriminate|].
    intros [= <-]. discriminate.
  - exists results. split; [exact Hfold|]. intros key.
    rewrite Hlook, groupRecords_lookup.
    destruct (groupOf NumberToString key records); reflexivity.
Qed.

(** C2 (as amended).  An aggregation pass returns statistics for exactly the
    group keys its records carry.  The statistics of a group hold [count],
    the number of records of the group, and the properties [<field>_sum],
    [_avg], [_max], [_min] for exactly the fields that are a number in the
    first record of the group and have at least one value in the group whose
    conversion by [Number] is not NaN.  Each statistic is taken over those
    converted values: a missing field and a text that spells no number are
    skipped, a text that spells a number is converted and counted, and the
    average divides the sum by the number of values counted. *)
Theorem group_statistics (records : list CSVRecord) :
  exists results : list (string * GroupResult),
    calculateAggregations StringToNumber NumberToString records = Some results /\
    forall key : string,
      (groupOf NumberToString key records = [] -> objGet key results = None) /\
      (groupOf NumberToString key records <> [] ->
       exists result : GroupResult,
         objGet key results = Some result /\
         describes StringToNumber (groupOf NumberToString key records) result).
Proof.
  destruct (calculateAggregations_returns records) as (results & Hrun & Hlook).
  exists results. split; [exact Hrun|]. intros key. rewrite Hlook.
  destruct (groupOf NumberToString key records) as [|first rest].
  - split; [reflexivity | contradiction].
  - split; [discriminate|]. intros _.
    destruct (calculateGroupAggregations_describes first rest) as (result & Hr & Hd).
    exists result. split; assumption.
Qed.

End GroupStatistics.

(** C2 as stated fails.  The records [{value: 10}] and [{value: "10"}] have
    the same group key; in their group the text is converted, so the sum is
    20 and the average 10 over two values, while the one occurrence that is
    a number sums to 10. *)
Lemma textual_number_is_counted :
  groupOf smallNumberToString "value:10" [tenAsNumber; tenAsText]
    = [tenAsNumber; tenAsText] /\
  numericOccurrences "value" [tenAsNumber; tenAsText] = [10%float] /\
  exists (results : list (string * GroupResult)) (result : GroupResult),
    WindowAggregator.calculateAggregations decimalStringToNumber smallNumberToString
      [tenAsNumber; tenAsText] = Some results /\
    objGet "value:10" results = Some result /\
    objGet "count" result = Some 2%float /\
    objGet "value_sum" result = Some 20%float /\
    objGet "value_avg" result = Some 10%float /\
    objGet "value_sum" result <>
      Some (statValue Sum (numericOccurrences "value" [tenAsNumber; tenAsText])).
Proof.
  split; [vm_compute; reflexivity|]. split; [vm_compute; reflexivity|].
  eexists _, _. split; [vm_compute; reflexivity|].
  split; [vm_compute; reflexivity|]. split; [vm_compute; reflexivity|].
  split; [vm_compute; reflexivity|]. split; [vm_compute; reflexivity|].
  intros H.
  apply (f_equal (fun o => match o with
                           | Some x => PrimFloat.eqb x 10%float
                           | None => false
                           end)) in H.
  vm_compute in H. discriminate.
Qed.

Section NonEmptyWindows.

Import WindowAggregator.

Variable StringToNumber : string -> float.
Variable NumberToString : float -> string.

Lemma populated_empty : populated ∅.
Proof. intros k window H. rewrite lookup_empty in H. discriminate. Qed.

Lemma populated_addToWindow (windowTime : Z) record (w : gmap Z Window) :
  populated w -> populated (addToWindow windowTime record w).
Proof.
  intros Hw k window. rewrite addToWindow_lookup.
  destruct (decide (k = windowTime)) as [->|_]; [|apply Hw].
  intros [= <-]. unfold appendTo.
  destruct (w !! windowTime) as [old|] eqn:E; cbn.
  - rewrite length_app. cbn. split; [lia | apply (Hw _ _ E)].
  - split; [lia | reflexivity].
Qed.

Lemma populated_addRecordLoop (n : nat) :
  forall (i now windowStart ws si : Z) record (w : gmap Z Window),
    populated w -> populated (addRecordLoop n i now windowStart ws si record w).
Proof.
  induction n as [|n IH]; intros i now windowStart ws si record w Hw; cbn.
  - assumption.
  - apply IH. destruct (_ <=? _); [apply populated_addToWindow|]; assumption.
Qed.

Lemma populated_cleanupWindows (now : Z) (agg : t) :
  populated (windows agg) -> populated (windows (cleanupWindows now agg)).
Proof.
  intros Hw k window. rewrite cleanupWindows_lookup.
  destruct (decide _); [discriminate | apply Hw].
Qed.

Lemma populated_step (ev : Event) (agg agg' : t) (out : list AggregationResult) :
  step StringToNumber NumberToString ev agg = Some (agg', out) ->
  populated (windows agg) -> populated (windows agg').
Proof.
  destruct ev as [now now' record| now |]; cbn [step].
  - unfold addRecord. destruct (loopBound (maxWindows agg)) as [n|]; [|discriminate].
    intros [= <- <-] Hw. cbn [withWindows windowSize lastCleanup].
    destruct (_ <? _).
    + apply populated_cleanupWindows. cbn. apply populated_addRecordLoop, Hw.
    + cbn. apply populated_addRecordLoop, Hw.
  - intros [= <- <-] Hw. assumption.
  - intros [= <- <-] _. cbn. apply populated_empty.
Qed.

(** On a non-empty window [processWindow] neither takes its early return
    nor throws: it emits a result that carries the start time and counts
    the records of the window. *)
Lemma processWindow_populated (k : Z) (window : Window) :
  (1 <= length (records window))%nat ->
  exists r : AggregationResult,
    processWindow StringToNumber NumberToString k window = Emitted r /\
    Types.count r = length (records window) /\
    Types.timestamp r = k.
Proof.
  intros Hlen. unfold processWindow.
  destruct (Nat.eqb_spec (length (records window)) 0) as [E|_]; [lia|].
  destruct (calculateAggregations_returns StringToNumber NumberToString (records window))
    as (results & -> & _).
  eexists. split; [reflexivity|]. split; reflexivity.
Qed.

Lemma windowsToProcess_stored (now : Z) (agg : t) (k : Z) (window : Window) :
  (k, window) ∈ windowsToProcess now agg -> windows agg !! k = Some window.
Proof.
  unfold windowsToProcess. rewrite merge_sort_Permutation.
  intros [_ H]%list_elem_of_filter. apply elem_of_map_to_list in H. exact H.
Qed.

Lemma processWindows_counts (now : Z) (agg : t) :
  populated (windows agg) ->
  Forall (fun r => (1 <= Types.count r)%nat)
    (processWindows StringToNumber NumberToString now agg).
Proof.
  intros Hw. unfold processWindows. destruct (processing agg); [constructor|].
  apply Forall_forall. intros r Hr. apply list_elem_of_In in Hr.
  apply in_flat_map in Hr as ([k window] & Hin & Hr).
  apply list_elem_of_In in Hin. apply windowsToProcess_stored in Hin.
  destruct (Hw _ _ Hin) as [Hlen _].
  destruct (processWindow_populated k window Hlen) as (r' & Hemit & Hcount & _).
  cbn [fst snd] in Hr. rewrite Hemit in Hr. cbn [emitted] in Hr.
  destruct Hr as [<-|[]]. lia.
Qed.

(** C10.  In every state the aggregator reaches from its constructor, each
    window of the map holds at least one record, so [processWindow] never
    takes its empty-window return on it: it emits a result whose count is
    the number of records of the window; and every result emitted on the
    way has a count of at least one. *)
Theorem windows_never_empty (opts : ProcessingOptions) (t0 : Z)
  (evs : list Event) (agg : t) (out : list AggregationResult) :
  run StringToNumber NumberToString evs (constructor opts t0) = Some (agg, out) ->
  (forall (k : Z) (window : Window),
     windows agg !! k = Some window ->
     (1 <= length (records window))%nat /\
     processWindow StringToNumber NumberToString k window <> EarlyReturn /\
     exists r : AggregationResult,
       processWindow StringToNumber NumberToString k window = Emitted r /\
       Types.count r = length (records window)) /\
  Forall (fun r => (1 <= Types.count r)%nat) out.
Proof.
  assert (Hgen : forall evs agg0 agg out,
    run StringToNumber NumberToString evs agg0 = Some (agg, out) ->
    populated (windows agg0) ->
    populated (windows agg) /\ Forall (fun r => (1 <= Types.count r)%nat) out).
  { clear. induction evs as [|ev evs IH]; intros agg0 agg out Hrun Hw.
    - injection Hrun as <- <-. split; [assumption | constructor].
    - cbn [run] in Hrun.
      destruct (step _ _ ev agg0) as [[agg1 out1]|] eqn:Hstep; [|discriminate].
      destruct (run _ _ evs agg1) as [[agg2 out2]|] eqn:Hrest; [|discriminate].
      injection Hrun as <- <-.
      destruct (IH agg1 agg2 out2 Hrest (populated_step ev agg0 agg1 out1 Hstep Hw))
        as [Hw2 Hout2].
      split; [assumption|]. apply Forall_app. split; [|assumption].
      destruct ev as [now now' record| now |]; cbn [step] in Hstep.
      + destruct (addRecord _ _ _ _); [|discriminate].
        injection Hstep as <- <-. constructor.
      + injection Hstep as <- <-. destruct (timer agg0); [|constructor].
        apply processWindows_counts, Hw.
      + injection Hstep as <- <-. constructor. }
  intros Hrun.
  destruct (Hgen evs (constructor opts t0) agg out Hrun populated_empty) as [Hw Hout].
  split; [|assumption].
  intros k window Hk. destruct (Hw k window Hk) as [Hlen _].
  destruct (processWindow_populated k window Hlen) as (r & Hemit & Hcount & _).
  split; [assumption|]. split; [rewrite Hemit; discriminate|].
  exists r. split; assumption.
Qed.

End NonEmptyWindows.

(** The theorem on a run of a new aggregator: three records, a tick that
    emits, a stop, and a record after the stop. *)
Lemma windows_never_empty_witness :
  exists agg out,
    WindowAggregator.run decimalStringToNumber smallNumberToString sampleEvents
      (WindowAggregator.constructor (Types.mkOptions 2 1000 500) 1000) = Some (agg, out) /\
    out <> [] /\
    (forall (k : Z) (window : WindowAggregator.Window),
       WindowAggregator.windows agg !! k = Some window ->
       (1 <= length (WindowAggregator.records window))%nat /\
       WindowAggregator.processWindow decimalStringToNumber smallNumberToString k window
         <> WindowAggregator.EarlyReturn /\
       exists r : AggregationResult,
         WindowAggregator.processWindow decimalStringToNumber smallNumberToString
           k window = WindowAggregator.Emitted r /\
         Types.count r = length (WindowAggregator.records window)) /\
    Forall (fun r => (1 <= Types.count r)%nat) out.
Proof.
  eexists _, _. split; [vm_compute; reflexivity|]. split; [discriminate|].
  apply (windows_never_empty decimalStringToNumber smallNumberToString
           (Types.mkOptions 2 1000 500) 1000 sampleEvents).
  vm_compute. reflexivity.
Defined.

Section Chunking.

Import StreamProcessor.

Context {T : Type}.

Lemma chunkLoop_pieces (fuel : nat) :
  forall (array : list T) (size i : nat) (chunks : list (list T)),
    (1 <= size)%nat -> (length array - i <= fuel)%nat ->
    chunkLoop fuel array size i chunks =
    Some (chunks ++ piecesOf fuel size (skipn i array)).
Proof.
  induction fuel as [|fuel IH]; intros array size i chunks Hsize Hfuel.
  - cbn [chunkLoop piecesOf]. destruct (Nat.ltb_spec i (length array)); [lia|].
    rewrite app_nil_r. reflexivity.
  - cbn [chunkLoop piecesOf].
    destruct (Nat.ltb_spec i (length array)) as [Hlt|Hge].
    + rewrite IH by lia.
      destruct (skipn i array) as [|x rest] eqn:E.
      { apply (f_equal (@length T)) in E. rewrite length_skipn in E. cbn in E. lia. }
      rewrite <- E. unfold slice.
      replace (i + size - i)%nat with size by lia.
      rewrite <- app_assoc. cbn [app]. rewrite skipn_skipn.
      replace (size + i)%nat with (i + size)%nat by lia. reflexivity.
    + rewrite skipn_all2 by lia. rewrite app_nil_r. reflexivity.
Qed.

(** [chunkArray] returns whenever the chunk size is positive. *)
Lemma chunkArray_pieces (array : list T) (size : nat) :
  (1 <= size)%nat ->
  chunkArray array size = Some (piecesOf (length array) size array).
Proof.
  intros Hsize. unfold chunkArray.
  rewrite chunkLoop_pieces by lia. reflexivity.
Qed.

Lemma piecesOf_concat (fuel : nat) :
  forall (size : nat) (l : list T),
    (1 <= size)%nat -> (length l <= fuel)%nat ->
    concat (piecesOf fuel size l) = l.
Proof.
  induction fuel as [|fuel IH]; intros size l Hsize Hfuel.
  - destruct l; [reflexivity | cbn in Hfuel; lia].
  - cbn [piecesOf]. destruct l as [|x l]; [reflexivity|].
    cbn [concat]. rewrite IH.
    + apply firstn_skipn.
    + assumption.
    + rewrite length_skipn. cbn [length] in *. lia.
Qed.

Lemma piecesOf_sizes (fuel : nat) :
  forall (size : nat) (l : list T),
    (1 <= size)%nat -> (length l <= fuel)%nat ->
    map (@length T) (piecesOf fuel size l) = pieceSizes (length l) size.
Proof.
  induction fuel as [|fuel IH]; intros size l Hsize Hfuel.
  - destruct l; [|cbn in Hfuel; lia]. cbn. unfold pieceSizes. cbn.
    rewrite Nat.Div0.div_0_l, Nat.Div0.mod_0_l. reflexivity.
  - cbn [piecesOf]. destruct l as [|x l].
    + cbn. unfold pieceSizes. cbn.
      rewrite Nat.Div0.div_0_l, Nat.Div0.mod_0_l. reflexivity.
    + set (l0 := x :: l) in *. cbn [map]. rewrite IH; [|assumption|].
      2:{ rewrite length_skipn. subst l0. cbn [length] in *. lia. }
      rewrite length_firstn, length_skipn. unfold pieceSizes.
      destruct (Nat.le_gt_cases size (length l0)) as [Hle|Hgt].
      * rewrite Nat.min_l by assumption.
        assert (Hd : ((length l0 - size + 1 * size) / size
                      = (length l0 - size) / size + 1)%nat)
          by (apply Nat.div_add; lia).
        assert (Hm : ((length l0 - size + 1 * size) mod size
                      = (length l0 - size) mod size)%nat)
          by (apply Nat.Div0.mod_add).
        replace (length l0 - size + 1 * size)%nat with (length l0) in Hd, Hm by lia.
        rewrite Hd, Hm, Nat.add_1_r. reflexivity.
      * rewrite Nat.min_r by lia.
        replace (length l0 - size)%nat with O by lia.
        rewrite Nat.Div0.div_0_l, Nat.Div0.mod_0_l.
        rewrite Nat.div_small, Nat.mod_small by lia.
        destruct (Nat.eqb_spec (length l0) 0) as [E0|_].
        { subst l0. cbn in E0. lia. }
        reflexivity.
Qed.

End Chunking.

(** A batch of [n >= 1] records is cut into at most four chunks. *)
Lemma pieceSizes_at_most_four (n : nat) :
  (1 <= n)%nat ->
  (length (pieceSizes n (StreamProcessor.ceilQuarter n)) <= 4)%nat.
Proof.
  intros Hn. unfold pieceSizes, StreamProcessor.ceilQuarter.
  set (size := ((n + 3) / 4)%nat).
  assert (Hsize : (1 <= size)%nat).
  { subst size. apply Nat.div_le_lower_bound; lia. }
  assert (Hcover : (n <= 4 * size)%nat).
  { subst size. pose proof (Nat.div_mod_eq (n + 3) 4) as E.
    pose proof (Nat.mod_upper_bound (n + 3) 4 ltac:(lia)). lia. }
  pose proof (Nat.div_mod_eq n size) as E.
  pose proof (Nat.mod_upper_bound n size ltac:(lia)) as Hm.
  rewrite length_app, length_replicate.
  destruct (Nat.eqb_spec (n mod size) 0) as [E0|E0]; cbn [length]; nia.
Qed.

Section FlushCycle.

Import StreamProcessor.

Lemma ceilQuarter_positive (n : nat) : (1 <= n)%nat -> (1 <= ceilQuarter n)%nat.
Proof. intros Hn. unfold ceilQuarter. apply Nat.div_le_lower_bound; lia. Qed.

Lemma processChunk_chunks (now : Z) (chunks : list (list CSVRecord)) :
  flat_map (processChunk now) chunks = processChunk now (concat chunks).
Proof.
  unfold processChunk. rewrite flat_map_concat_map, concat_map. reflexivity.
Qed.

(** A flush cycle that finds records to remove. *)
Lemma processBatch_some (now : Z) (callback : Callback) (sp : t) :
  processing sp = false ->
  firstn (Z.to_nat (Types.batchSize (options sp))) (buffer sp) <> [] ->
  processBatch now callback sp =
  Some (withProcessing true (Some callback)
          (withBuffer (skipn (Z.to_nat (Types.batchSize (options sp))) (buffer sp))
             (logFlushStart sp)),
        processChunk now (firstn (Z.to_nat (Types.batchSize (options sp))) (buffer sp)),
        Suspended).
Proof.
  intros Hp Hbatch. unfold processBatch. rewrite Hp.
  cbn [logFlushStart withBuffer options buffer].
  set (batch := firstn _ (buffer sp)) in *.
  destruct (Nat.ltb_spec 0 (length batch)) as [Hlen|Hlen].
  - rewrite chunkArray_pieces by (apply ceilQuarter_positive; lia).
    rewrite processChunk_chunks, piecesOf_concat;
      [reflexivity | apply ceilQuarter_positive; lia | lia].
  - destruct batch; [contradiction | cbn in Hlen; lia].
Qed.

(** A flush cycle that finds nothing to remove. *)
Lemma processBatch_none (now : Z) (callback : Callback) (sp : t) :
  processing sp = false ->
  firstn (Z.to_nat (Types.batchSize (options sp))) (buffer sp) = [] ->
  processBatch now callback sp =
  Some (withProcessing false None
          (withBuffer (skipn (Z.to_nat (Types.batchSize (options sp))) (buffer sp))
             (logFlushStart sp)),
        [], CallbackInvoked).
Proof.
  intros Hp Hbatch. unfold processBatch. rewrite Hp.
  cbn [logFlushStart withBuffer options buffer]. rewrite Hbatch. reflexivity.
Qed.

(** C4 (as amended).  A flush cycle removes the first [batchSize] records of
    the buffer, or all of them when there are fewer.  When it removed [n >= 1]
    records it cuts them into consecutive chunks of [ceil(n / 4)] records,
    the last chunk shorter when [n] is not a multiple of that size: at least
    one chunk and at most four.  Every removed record is stamped and pushed,
    in buffer order, and the cycle then waits for the chunks to resolve. *)
Theorem flush_cycle_chunks (now : Z) (callback : Callback) (sp : t) :
  processing sp = false ->
  exists (sp' : t) (pushed : list CSVRecord) (outcome : BatchOutcome),
    processBatch now callback sp = Some (sp', pushed, outcome) /\
    buffer sp' = skipn (Z.to_nat (Types.batchSize (options sp))) (buffer sp) /\
    pushed = processChunk now
               (firstn (Z.to_nat (Types.batchSize (options sp))) (buffer sp)) /\
    (firstn (Z.to_nat (Types.batchSize (options sp))) (buffer sp) = [] ->
     outcome = CallbackInvoked /\ processing sp' = false) /\
    (firstn (Z.to_nat (Types.batchSize (options sp))) (buffer sp) <> [] ->
     outcome = Suspended /\ processing sp' = true /\
     exists chunks : list (list CSVRecord),
       chunkArray (firstn (Z.to_nat (Types.batchSize (options sp))) (buffer sp))
         (ceilQuarter
            (length (firstn (Z.to_nat (Types.batchSize (options sp))) (buffer sp))))
       = Some chunks /\
       concat chunks = firstn (Z.to_nat (Types.batchSize (options sp))) (buffer sp) /\
       map (@length CSVRecord) chunks =
         pieceSizes
           (length (firstn (Z.to_nat (Types.batchSize (options sp))) (buffer sp)))
           (ceilQuarter
              (length (firstn (Z.to_nat (Types.batchSize (options sp))) (buffer sp)))) /\
       (1 <= length chunks <= 4)%nat /\
       pushed = flat_map (processChunk now) chunks).
Proof.
  intros Hp.
  remember (firstn (Z.to_nat (Types.batchSize (options sp))) (buffer sp))
    as batch eqn:E.
  destruct batch as [|x batch'].
  - eexists _, _, _. split; [apply processBatch_none; [assumption | symmetry; exact E]|].
    split; [reflexivity|]. split; [reflexivity|]. split.
    + intros _. split; reflexivity.
    + intros H. contradiction.
  - eexists _, _, _. split.
    { apply processBatch_some; [assumption|]. rewrite <- E. discriminate. }
    split; [reflexivity|]. split; [rewrite <- E; reflexivity|]. split.
    + intros H. discriminate.
    + intros _. split; [reflexivity|]. split; [reflexivity|].
      assert (Hlen : (1 <= length (x :: batch'))%nat) by (cbn; lia).
      pose proof (ceilQuarter_positive _ Hlen) as Hsize.
      eexists. split; [apply chunkArray_pieces; assumption|].
      split; [apply piecesOf_concat; [assumption | lia]|].
      split; [apply piecesOf_sizes; [assumption | lia]|].
      split.
      * split; [cbn [piecesOf length]; lia|].
        rewrite <- (length_map (@length CSVRecord)), piecesOf_sizes by (assumption || lia).
        apply pieceSizes_at_most_four; assumption.
      * rewrite processChunk_chunks, piecesOf_concat by (assumption || lia).
        rewrite <- E. reflexivity.
Qed.

End FlushCycle.

(** The theorem for a buffer of seven records and batch size 5. *)
Lemma flush_cycle_chunks_witness :
  exists (sp' : StreamProcessor.t) (pushed : list CSVRecord)
         (outcome : StreamProcessor.BatchOutcome),
    StreamProcessor.processBatch 0 StreamProcessor.TransformCallback (loadedProcessor 5 7)
      = Some (sp', pushed, outcome) /\
    length (StreamProcessor.buffer sp') = 2%nat /\
    length pushed = 5%nat.
Proof.
  destruct (flush_cycle_chunks 0 StreamProcessor.TransformCallback (loadedProcessor 5 7)
              eq_refl) as (sp' & pushed & outcome & Hrun & Hbuf & Hpushed & _).
  exists sp', pushed, outcome. split; [exact Hrun|].
  split; [rewrite Hbuf | rewrite Hpushed]; reflexivity.
Defined.

(** C4 as stated fails: a batch of five records is cut into three chunks,
    of 2, 2 and 1 records, and a batch of ten into chunks of 3, 3, 3 and 1. *)
Lemma five_records_make_three_chunks :
  (exists chunks : list (list CSVRecord),
     StreamProcessor.chunkArray
       (firstn 5 (StreamProcessor.buffer (loadedProcessor 5 5)))
       (StreamProcessor.ceilQuarter 5) = Some chunks /\
     map (@length CSVRecord) chunks = [2; 2; 1]%nat /\
     length chunks <> 4%nat) /\
  (exists chunks : list (list CSVRecord),
     StreamProcessor.chunkArray
       (firstn 10 (StreamProcessor.buffer (loadedProcessor 10 10)))
       (StreamProcessor.ceilQuarter 10) = Some chunks /\
     map (@length CSVRecord) chunks = [3; 3; 3; 1]%nat).
Proof.
  split.
  - eexists. split; [vm_compute; reflexivity|].
    split; [reflexivity | discriminate].
  - eexists. split; [vm_compute; reflexivity|]. reflexivity.
Qed.

Section Batching.

Import StreamProcessor.

Variable opts : ProcessingOptions.
Hypothesis batchSize_positive : 1 <= Types.batchSize opts.

Lemma processChunk_length (now : Z) (records : list CSVRecord) :
  length (processChunk now records) = length records.
Proof. unfold processChunk. apply length_map. Qed.

Lemma totalLength_app (b1 b2 : list (list CSVRecord)) :
  totalLength (b1 ++ b2) = (totalLength b1 + totalLength b2)%nat.
Proof. unfold totalLength. rewrite map_app, list_sum_app. reflexivity. Qed.

Lemma totalLength_batchOf (out : list CSVRecord) :
  totalLength (batchOf out) = length out.
Proof.
  unfold totalLength. destruct out; cbn; [reflexivity | lia].
Qed.

Lemma withinBatchSize_batchOf (out : list CSVRecord) :
  Z.of_nat (length out) <= Types.batchSize opts ->
  withinBatchSize (Types.batchSize opts) (batchOf out).
Proof.
  intros H. unfold withinBatchSize. destruct out; cbn; repeat constructor. exact H.
Qed.

(** ** One flush cycle from a state that is not flushing *)

(** From a buffer that is not empty, [_flush] starts a cycle and suspends. *)
Lemma _flush_starts_cycle (fuel : nat) (now : Z) (sp : t) :
  options sp = opts -> processing sp = false -> buffer sp <> [] ->
  _flush fuel now sp =
  Some (withProcessing true (Some FlushCallback)
          (withBuffer (skipn (Z.to_nat (Types.batchSize opts)) (buffer sp))
             (logFlushStart sp)),
        processChunk now (firstn (Z.to_nat (Types.batchSize opts)) (buffer sp))).
Proof.
  intros Ho Hp Hb. destruct fuel; cbn [_flush];
    (destruct (buffer sp) as [|x rest] eqn:E; [contradiction|]);
    cbn [length Nat.ltb Nat.leb];
    (rewrite processBatch_some;
     [ rewrite Ho, E; reflexivity
     | assumption
     | rewrite Ho, E; destruct (Z.to_nat (Types.batchSize opts)) eqn:Eb;
       [lia | discriminate] ]).
Qed.

(** ** Draining *)

Lemma settle_idle (steps fuel : nat) (now : Z) (sp : t) :
  awaiting sp = None -> settle steps fuel now sp = Some (sp, []).
Proof. intros Ha. destruct steps; cbn [settle]; rewrite Ha; reflexivity. Qed.

(** Once [_flush] has started a cycle, resuming until nothing is suspended
    empties the buffer: every resumption starts the next cycle, which takes
    at least one record. *)
Lemma settle_drains (steps fuel : nat) (now : Z) :
  forall sp : t,
    options sp = opts -> awaiting sp = Some FlushCallback ->
    (length (buffer sp) < steps)%nat ->
    exists (sp' : t) (batches : list (list CSVRecord)),
      settle steps fuel now sp = Some (sp', batches) /\
      buffer sp' = [] /\ finished sp' = true /\ awaiting sp' = None /\
      totalLength batches = length (buffer sp) /\
      withinBatchSize (Types.batchSize opts) batches.
Proof.
  induction steps as [|steps IH]; intros sp Ho Ha Hlen; [lia|].
  cbn [settle]. rewrite Ha. unfold resume. rewrite Ha.
  destruct (buffer sp) as [|x rest] eqn:E.
  - cbn [withProcessing buffer]. rewrite E. cbn [length Nat.ltb Nat.leb].
    rewrite settle_idle by reflexivity.
    eexists _, _. split; [reflexivity|]. cbn.
    repeat split; try assumption. constructor.
  - cbn [withProcessing buffer]. rewrite E. cbn [length Nat.ltb Nat.leb].
    rewrite (_flush_starts_cycle fuel now (withProcessing false None sp));
      [|exact Ho|reflexivity|cbn; rewrite E; discriminate].
    cbn [withProcessing buffer].
    set (n := Z.to_nat (Types.batchSize opts)).
    assert (Hn : (1 <= n)%nat) by (subst n; lia).
    match goal with
    | |- context [settle steps fuel now ?s] =>
        destruct (IH s) as (sp' & batches & Hrun & Hb & Hf & Haw & Htot & Hwithin)
    end.
    + exact Ho.
    + reflexivity.
    + cbn. rewrite length_skipn. rewrite E in *. cbn [length] in *. lia.
    + rewrite Hrun. eexists _, _. split; [reflexivity|].
      split; [assumption|]. split; [assumption|]. split; [assumption|]. split.
      * rewrite totalLength_app, totalLength_batchOf, Htot, processChunk_length.
        cbn [buffer withBuffer withProcessing logFlushStart].
        rewrite length_firstn, length_skipn, E. cbn [length]. lia.
      * apply Forall_app. split; [|assumption].
        apply withinBatchSize_batchOf. rewrite processChunk_length, length_firstn.
        subst n. lia.
Qed.

(** [flushAll] terminates from every state that is not flushing, whatever
    remainder the buffer holds, and emits that remainder. *)
Lemma flushAll_drains (steps fuel : nat) (now : Z) (sp : t) :
  options sp = opts -> processing sp = false -> awaiting sp = None ->
  (length (buffer sp) - Z.to_nat (Types.batchSize opts) < steps)%nat ->
  exists (sp' : t) (batches : list (list CSVRecord)),
    flushAll steps fuel now sp = Some (sp', batches) /\
    buffer sp' = [] /\ finished sp' = true /\
    totalLength batches = length (buffer sp) /\
    withinBatchSize (Types.batchSize opts) batches.
Proof.
  intros Ho Hp Ha Hlen. unfold flushAll.
  destruct (buffer sp) as [|x rest] eqn:E.
  - destruct fuel; cbn [_flush]; rewrite E; cbn [length Nat.ltb Nat.leb];
      rewrite settle_idle by exact Ha;
      (eexists _, _; split; [reflexivity|]); cbn; rewrite ?E;
      repeat split; constructor.
  - rewrite <- E. rewrite _flush_starts_cycle;
      [|assumption|assumption|rewrite E; discriminate].
    set (n := Z.to_nat (Types.batchSize opts)).
    assert (Hn : (1 <= n)%nat) by (subst n; lia).
    match goal with
    | |- context [settle steps fuel now ?s] =>
        destruct (settle_drains steps fuel now s)
          as (sp' & batches & Hrun & Hb & Hf & _ & Htot & Hwithin)
    end.
    + exact Ho.
    + reflexivity.
    + cbn. rewrite length_skipn, E. subst n. exact Hlen.
    + rewrite Hrun. eexists _, _. split; [reflexivity|].
      split; [assumption|]. split; [assumption|]. split.
      * rewrite totalLength_app, totalLength_batchOf, Htot, processChunk_length.
        cbn [buffer withBuffer withProcessing logFlushStart].
        rewrite length_firstn, length_skipn, E. cbn [length]. lia.
      * apply Forall_app. split; [|assumption].
        apply withinBatchSize_batchOf. rewrite processChunk_length, length_firstn.
        subst n. lia.
Qed.

End Batching.

Section SerialisedRuns.

Import StreamProcessor.

Variable opts : ProcessingOptions.
Hypothesis batchSize_positive : 1 <= Types.batchSize opts.

(** A record accepted by an idle batcher either stays in the buffer, below
    both thresholds, or starts a flush cycle that takes the whole buffer. *)
Lemma _transform_idle (now : Z) (chunk : CSVRecord) (sp : t) :
  idle opts sp ->
  (exists sp1 : t,
     _transform now chunk sp = Some (sp1, [], CallbackInvoked) /\
     idle opts sp1 /\
     length (buffer sp1) = S (length (buffer sp)) /\
     flushStarts sp1 = flushStarts sp) \/
  (exists (sp2 : t) (out : list CSVRecord),
     _transform now chunk sp = Some (sp2, out, Suspended) /\
     flushing opts sp2 /\
     awaiting sp2 = Some TransformCallback /\
     length out = S (length (buffer sp)) /\
     Z.of_nat (length out) <= Types.batchSize opts /\
     out <> [] /\
     flushStarts sp2 = flushStarts sp ++ [S (length (buffer sp))]).
Proof.
  intros (Ho & Hh & Hp & Ha & Hb & Hw). unfold _transform.
  cbn [withBuffer options buffer highWaterMark]. rewrite Ho, Hh, length_app.
  cbn [length]. rewrite Nat.add_1_r.
  destruct ((Types.batchSize opts <=? Z.of_nat (S (length (buffer sp)))) ||
            (1000 <=? Z.of_nat (S (length (buffer sp))))) eqn:Hth.
  - right.
    set (sp1 := withBuffer (buffer sp ++ [chunk]) sp).
    assert (Hall : (length (buffer sp1) <= Z.to_nat (Types.batchSize (options sp1)))%nat).
    { subst sp1. cbn. rewrite Ho, length_app. cbn. lia. }
    rewrite processBatch_some.
    + rewrite firstn_all2, skipn_all2 by exact Hall.
      eexists _, _. split; [reflexivity|]. subst sp1. unfold flushing.
      cbn [withProcessing withBuffer logFlushStart buffer options highWaterMark
             processing awaiting flushStarts].
      rewrite processChunk_length, length_app. cbn [length]. rewrite Nat.add_1_r.
      repeat split; try assumption; try discriminate; try lia.
      destruct (buffer sp); discriminate.
    + exact Hp.
    + rewrite firstn_all2 by exact Hall. subst sp1. cbn.
      destruct (buffer sp); discriminate.
  - left. apply orb_false_iff in Hth as [H1 H2].
    apply Z.leb_gt in H1, H2.
    eexists. split; [reflexivity|]. unfold idle.
    cbn [withBuffer buffer options highWaterMark processing awaiting flushStarts].
    rewrite length_app. cbn [length]. rewrite Nat.add_1_r.
    repeat split; assumption.
Qed.

(** A serialised write leaves the batcher idle and emits at most one batch. *)
Lemma write_idle (fuel : nat) (now : Z) (chunk : CSVRecord) (sp : t) :
  idle opts sp ->
  exists (sp' : t) (batches : list (list CSVRecord)),
    write fuel now chunk sp = Some (sp', batches) /\
    idle opts sp' /\
    (totalLength batches + length (buffer sp') = S (length (buffer sp)))%nat /\
    withinBatchSize (Types.batchSize opts) batches.
Proof.
  intros Hidle. unfold write.
  destruct (_transform_idle now chunk sp Hidle)
    as [(sp1 & -> & Hidle1 & Hlen & _)
       |(sp2 & out & -> & (Ho & Hh & Hp & Ha & Hb) & Haw & Hlen & Hle & Hne & _)].
  - eexists _, _. split; [reflexivity|]. split; [assumption|]. split.
    + cbn. lia.
    + constructor.
  - unfold resume. rewrite Haw.
    eexists _, _. split; [reflexivity|]. split.
    + unfold idle. cbn [withProcessing options highWaterMark processing awaiting buffer].
      rewrite Hb. cbn [length]. repeat split; try assumption; lia.
    + split.
      * cbn [withProcessing buffer]. rewrite Hb, app_nil_r, totalLength_batchOf.
        cbn [length]. lia.
      * cbn [batchOf]. rewrite app_nil_r. apply withinBatchSize_batchOf. exact Hle.
Qed.

Lemma writeAll_idle (fuel : nat) (input : list (Z * CSVRecord)) :
  forall sp : t,
    idle opts sp ->
    exists (sp' : t) (batches : list (list CSVRecord)),
      writeAll fuel input sp = Some (sp', batches) /\
      idle opts sp' /\
      (totalLength batches + length (buffer sp')
       = length input + length (buffer sp))%nat /\
      withinBatchSize (Types.batchSize opts) batches.
Proof.
  induction input as [|[now chunk] input IH]; intros sp Hidle.
  - eexists _, _. split; [reflexivity|]. split; [assumption|].
    split; [reflexivity | constructor].
  - cbn [writeAll].
    destruct (write_idle fuel now chunk sp Hidle)
      as (sp1 & batches1 & -> & Hidle1 & Htot1 & Hw1).
    destruct (IH sp1 Hidle1) as (sp2 & batches2 & -> & Hidle2 & Htot2 & Hw2).
    eexists _, _. split; [reflexivity|]. split; [assumption|]. split.
    + rewrite totalLength_app. cbn [length]. lia.
    + apply Forall_app. split; assumption.
Qed.

Lemma constructor_idle : idle opts (constructor opts).
Proof. unfold idle. cbn. repeat split; lia. Qed.

(** C5.  For a positive batch size, pushing any finite input through a new
    batcher and then signalling the end of input returns: the lengths of the
    emitted batches sum to the length of the input, no batch is larger than
    the batch size, and the batcher ends with an empty buffer and its final
    callback invoked.  The flush loop on its own terminates from every
    buffer, a remainder shorter than the batch size included, and emits
    exactly the records it held. *)
Theorem pipeline_emits_every_record
  (steps fuel : nat) (input : list (Z * CSVRecord)) (tEnd : Z) :
  (1 <= steps)%nat ->
  (exists (sp : t) (batches : list (list CSVRecord)),
     pipeline steps fuel opts input tEnd = Some (sp, batches) /\
     totalLength batches = length input /\
     withinBatchSize (Types.batchSize opts) batches /\
     buffer sp = [] /\ finished sp = true) /\
  (forall sp0 : t,
     options sp0 = opts -> processing sp0 = false -> awaiting sp0 = None ->
     exists (sp : t) (batches : list (list CSVRecord)),
       flushAll (S (length (buffer sp0))) fuel tEnd sp0 = Some (sp, batches) /\
       totalLength batches = length (buffer sp0) /\
       withinBatchSize (Types.batchSize opts) batches /\
       buffer sp = [] /\ finished sp = true).
Proof.
  intros Hsteps. split.
  - unfold pipeline.
    destruct (writeAll_idle fuel input (constructor opts) constructor_idle)
      as (sp1 & batches1 & -> & (Ho & Hh & Hp & Ha & Hb & Hw) & Htot1 & Hw1).
    destruct (flushAll_drains opts batchSize_positive steps fuel tEnd sp1 Ho Hp Ha)
      as (sp2 & batches2 & -> & Hbuf & Hfin & Htot2 & Hw2); [lia|].
    eexists _, _. split; [reflexivity|]. split.
    + rewrite totalLength_app. cbn in Htot1. lia.
    + split; [apply Forall_app; split; assumption|]. split; assumption.
  - intros sp0 Ho Hp Ha.
    destruct (flushAll_drains opts batchSize_positive (S (length (buffer sp0)))
                fuel tEnd sp0 Ho Hp Ha)
      as (sp2 & batches2 & -> & Hbuf & Hfin & Htot2 & Hw2); [lia|].
    eexists _, _. split; [reflexivity|]. repeat split; assumption.
Qed.

(** ** The buffer at the start of a flush cycle *)

Lemma step_serialised (fuel : nat) (ev : Event) (sp : t) :
  (idle opts sp \/ flushing opts sp) ->
  flushStartsWithin (Types.batchSize opts) sp ->
  admissible ev sp = true ->
  exists (sp' : t) (out : list CSVRecord),
    step fuel ev sp = Some (sp', out) /\
    (idle opts sp' \/ flushing opts sp') /\
    flushStartsWithin (Types.batchSize opts) sp'.
Proof.
  intros Hstate Hlog Hadm. unfold admissible in Hadm.
  destruct ev as [now chunk|now|now]; cbn [step].
  - (* Accept *)
    destruct (awaiting sp) eqn:Ha; [discriminate|].
    destruct Hstate as [Hidle|(_ & _ & _ & Hna & _)]; [|congruence].
    destruct (_transform_idle now chunk sp Hidle)
      as [(sp1 & -> & Hidle1 & _ & Hfs)
         |(sp2 & out & -> & Hfl & _ & Hlen & Hle & _ & Hfs)].
    + eexists _, _. split; [reflexivity|]. split; [left; assumption|].
      unfold flushStartsWithin. rewrite Hfs. exact Hlog.
    + eexists _, _. split; [reflexivity|]. split; [right; assumption|].
      unfold flushStartsWithin. rewrite Hfs. apply Forall_app. split; [exact Hlog|].
      repeat constructor. rewrite <- Hlen. exact Hle.
  - (* Resume *)
    destruct (awaiting sp) as [cb|] eqn:Ha; [|discriminate].
    destruct Hstate as [(_ & _ & _ & Hna & _)|(Ho & Hh & Hp & _ & Hb)]; [congruence|].
    unfold resume. rewrite Ha.
    destruct cb.
    + eexists _, _. split; [reflexivity|]. split; [|exact Hlog].
      left. unfold idle.
      cbn [withProcessing options highWaterMark processing awaiting buffer].
      rewrite Hb. cbn [length]. repeat split; try assumption; lia.
    + cbn [withProcessing buffer]. rewrite Hb. cbn [length Nat.ltb Nat.leb].
      eexists _, _. split; [reflexivity|]. split; [|exact Hlog].
      left. unfold idle. cbn. rewrite Hb. cbn [length].
      repeat split; try assumption; lia.
  - (* Final *)
    destruct (awaiting sp) eqn:Ha; [discriminate|].
    destruct Hstate as [(Ho & Hh & Hp & _ & Hb & Hw)|(_ & _ & _ & Hna & _)]; [|congruence].
    destruct (buffer sp) as [|x rest] eqn:E.
    + destruct fuel; cbn [_flush]; rewrite E; cbn [length Nat.ltb Nat.leb];
        (eexists _, _; split; [reflexivity|]); (split; [|exact Hlog]);
        left; unfold idle; cbn; rewrite E; cbn [length];
        repeat split; try assumption; lia.
    + rewrite (_flush_starts_cycle opts batchSize_positive fuel now sp Ho Hp)
        by (rewrite E; discriminate).
      eexists _, _. split; [reflexivity|]. split.
      * right. unfold flushing.
        cbn [withProcessing withBuffer logFlushStart options highWaterMark
               processing awaiting buffer].
        repeat split; try assumption; try discriminate.
        apply skipn_all2. rewrite E. cbn [length] in *. lia.
      * unfold flushStartsWithin.
        cbn [withProcessing withBuffer logFlushStart flushStarts].
        apply Forall_app. split; [exact Hlog|]. repeat constructor.
        rewrite E. cbn [length] in *. lia.
Qed.

Lemma run_serialised (fuel : nat) (evs : list Event) :
  forall sp : t,
    (idle opts sp \/ flushing opts sp) ->
    flushStartsWithin (Types.batchSize opts) sp ->
    serialised fuel evs sp = true ->
    exists (sp' : t) (batches : list (list CSVRecord)),
      run fuel evs sp = Some (sp', batches) /\
      flushStartsWithin (Types.batchSize opts) sp'.
Proof.
  induction evs as [|ev evs IH]; intros sp Hstate Hlog Hser.
  - eexists _, _. split; [reflexivity | exact Hlog].
  - cbn [serialised] in Hser. apply andb_true_iff in Hser as [Hadm Hser].
    destruct (step_serialised fuel ev sp Hstate Hlog Hadm)
      as (sp1 & out & Hstep & Hstate1 & Hlog1).
    cbn [run]. rewrite Hstep in *.
    destruct (IH sp1 Hstate1 Hlog1 Hser) as (sp2 & batches & -> & Hlog2).
    eexists _, _. split; [reflexivity | exact Hlog2].
Qed.

(** C6 (as amended).  When accept calls are serialised as the stream
    transport serialises them (a record or the end of input is delivered
    only when no flush cycle is in flight), every event is handled and the
    buffer never holds more than [batchSize] records at the moment a flush
    cycle begins. *)
Theorem serialised_flush_starts_within_batch_size (fuel : nat) (evs : list Event) :
  serialised fuel evs (constructor opts) = true ->
  exists (sp' : t) (batches : list (list CSVRecord)),
    run fuel evs (constructor opts) = Some (sp', batches) /\
    flushStartsWithin (Types.batchSize opts) sp'.
Proof.
  intros Hser. apply run_serialised; [left; apply constructor_idle | constructor | exact Hser].
Qed.

End SerialisedRuns.

(** The theorem for seven records and batch size 3: batches of 3, 3 and 1. *)
Lemma pipeline_emits_every_record_witness :
  exists (sp : StreamProcessor.t) (batches : list (list CSVRecord)),
    StreamProcessor.pipeline 2 1 (Types.mkOptions 3 1000 500) sampleInput 9
      = Some (sp, batches) /\
    totalLength batches = 7%nat /\
    withinBatchSize 3 batches /\
    StreamProcessor.buffer sp = [] /\ StreamProcessor.finished sp = true.
Proof.
  apply (pipeline_emits_every_record (Types.mkOptions 3 1000 500) ltac:(simpl; lia)
           2 1 sampleInput 9 ltac:(lia)).
Defined.

(** The theorem for the seven records delivered one write at a time to a
    batcher of batch size 2. *)
Lemma serialised_flush_starts_within_batch_size_witness :
  exists (sp' : StreamProcessor.t) (batches : list (list CSVRecord)),
    StreamProcessor.run 1 serialAccepts
      (StreamProcessor.constructor (Types.mkOptions 2 1000 500)) = Some (sp', batches) /\
    flushStartsWithin 2 sp'.
Proof.
  apply (serialised_flush_starts_within_batch_size (Types.mkOptions 2 1000 500)
           ltac:(simpl; lia) 1 serialAccepts).
  vm_compute. reflexivity.
Defined.

(** C6 as stated fails.  With batch size 2, four records accepted while a
    flush cycle is in flight all stay in the buffer, and the next cycle
    begins with five records: three more than the batch size. *)
Lemma in_flight_accepts_overfill_buffer :
  exists (sp' : StreamProcessor.t) (batches : list (list CSVRecord)),
    StreamProcessor.run 1 inFlightAccepts
      (StreamProcessor.constructor (Types.mkOptions 2 1000 500)) = Some (sp', batches) /\
    StreamProcessor.flushStarts sp' = [2; 5]%nat /\
    ~ flushStartsWithin (2 + 1) sp'.
Proof.
  eexists _, _. split; [vm_compute; reflexivity|]. split; [reflexivity|].
  unfold flushStartsWithin. cbn [StreamProcessor.flushStarts].
  intros H. inversion H as [|? ? _ H']. inversion H' as [|? ? Hfive _]. lia.
Qed.

Section EngineStore.

Import DataEngine.

Lemma logRefs_mutateArray_other (e : t) (h : Heap) (a : nat) (f : list nat -> list nat) :
  a <> results e -> logRefs e (mutateArray a f h) = logRefs e h.
Proof.
  intros Hne. unfold logRefs, mutateArray. cbn [arrays].
  rewrite lookup_alter_ne by congruence. reflexivity.
Qed.

(** Changing another array in place leaves the log as it is. *)
Lemma logOf_mutateArray_other (e : t) (h : Heap) (a : nat) (f : list nat -> list nat) :
  a <> results e -> logOf e (mutateArray a f h) = logOf e h.
Proof.
  intros Hne. unfold logOf, readArray, mutateArray. cbn [arrays objects].
  rewrite lookup_alter_ne by congruence. reflexivity.
Qed.

Lemma fresh_array_not_allocated (h : Heap) (a : nat) :
  a ∈ dom (arrays h) -> a <> fresh (dom (arrays h)).
Proof. intros Hin ->. exact (is_fresh _ Hin). Qed.

(** [getResults] returns a new array that reads as the log does, and leaves
    the log as it is. *)
Lemma getResults_snapshot (e : t) (h : Heap) :
  results e ∈ dom (arrays h) ->
  readArray (fst (getResults e h)) (snd (getResults e h)) = logOf e h /\
  fst (getResults e h) <> results e /\
  (fst (getResults e h) ∉ dom (arrays h)) /\
  logRefs e (snd (getResults e h)) = logRefs e h /\
  logOf e (snd (getResults e h)) = logOf e h /\
  objects (snd (getResults e h)) = objects h.
Proof.
  intros Hin. unfold getResults, allocArray. cbn [fst snd].
  assert (Hne : fresh (dom (arrays h)) <> results e).
  { apply not_eq_sym, fresh_array_not_allocated, Hin. }
  split; [|split; [exact Hne|split; [apply is_fresh|]]].
  - unfold readArray, logOf, readArray, logRefs. cbn [arrays objects].
    rewrite lookup_insert_eq. reflexivity.
  - unfold logOf, readArray, logRefs. cbn [arrays objects].
    rewrite lookup_insert_ne by exact Hne. auto.
Qed.

(** One emission: the object is new, so the entries already in the log read
    as before, and the log gains the result at its end. *)
Lemma emitAll_log (emitted : list AggregationResult) (e : t) :
  forall h : Heap,
    results e ∈ dom (arrays h) ->
    (forall r, r ∈ logRefs e h -> r ∈ dom (objects h)) ->
    WindowAggregator.subscribed (aggregator e) = true ->
    logOf e (emitAll emitted e h) = logOf e h ++ map Some emitted /\
    dom (arrays (emitAll emitted e h)) = dom (arrays h) /\
    (forall r, r ∈ logRefs e (emitAll emitted e h) ->
               r ∈ dom (objects (emitAll emitted e h))).
Proof.
  induction emitted as [|r emitted IH]; intros h Hin Hrefs Hsub.
  - cbn. rewrite app_nil_r. auto.
  - cbn [emitAll allocObject]. rewrite Hsub.
    set (ref := fresh (dom (objects h))).
    set (h1 := handleAggregationResult ref e
                 {| objects := <[ref := r]> (objects h); arrays := arrays h |}).
    apply elem_of_dom in Hin as Harr. destruct Harr as [items Hitems].
    assert (Hrefs1 : logRefs e h1 = items ++ [ref]).
    { subst h1. unfold logRefs, handleAggregationResult, mutateArray. cbn [arrays].
      rewrite lookup_alter_eq, Hitems. reflexivity. }
    assert (Hdom1 : dom (arrays h1) = dom (arrays h)).
    { subst h1. unfold handleAggregationResult, mutateArray. cbn [arrays].
      apply dom_alter_L. }
    assert (Hold : forall x, x ∈ items -> <[ref := r]> (objects h) !! x = objects h !! x).
    { intros x Hx. apply lookup_insert_ne. intros Heq.
      apply (is_fresh (dom (objects h))). fold ref. rewrite Heq. apply Hrefs.
      unfold logRefs. rewrite Hitems. exact Hx. }
    assert (Hlog1 : logOf e h1 = logOf e h ++ [Some r]).
    { unfold logOf, readArray. fold (logRefs e h1). rewrite Hrefs1.
      rewrite Hitems. cbn [default]. rewrite map_app. cbn [map].
      subst h1. cbn [handleAggregationResult mutateArray objects].
      rewrite lookup_insert_eq. f_equal.
      apply map_ext_in. intros x Hx. apply Hold, list_elem_of_In, Hx. }
    destruct (IH h1) as (Hlog & Hdom & Hrefs').
    + rewrite Hdom1. exact Hin.
    + intros x Hx. rewrite Hrefs1 in Hx. subst h1.
      cbn [handleAggregationResult mutateArray objects].
      apply elem_of_dom. apply elem_of_app in Hx as [Hx|Hx].
      * rewrite Hold by exact Hx. apply elem_of_dom, Hrefs.
        unfold logRefs. rewrite Hitems. exact Hx.
      * apply list_elem_of_singleton in Hx as ->. rewrite lookup_insert_eq. eauto.
    + exact Hsub.
    + split; [|split].
      * rewrite Hlog, Hlog1, <- app_assoc. reflexivity.
      * rewrite Hdom, Hdom1. reflexivity.
      * exact Hrefs'.
Qed.

(** The references the log gains by an emission, one per result. *)
Lemma emitAll_refs (emitted : list AggregationResult) (e : t) :
  forall h : Heap,
    results e ∈ dom (arrays h) ->
    WindowAggregator.subscribed (aggregator e) = true ->
    exists new : list nat,
      logRefs e (emitAll emitted e h) = logRefs e h ++ new /\
      length new = length emitted.
Proof.
  induction emitted as [|r emitted IH]; intros h Hin Hsub.
  - exists []. cbn. rewrite app_nil_r. auto.
  - cbn [emitAll allocObject]. rewrite Hsub.
    set (ref := fresh (dom (objects h))).
    set (h1 := handleAggregationResult ref e
                 {| objects := <[ref := r]> (objects h); arrays := arrays h |}).
    apply elem_of_dom in Hin as Harr. destruct Harr as [items Hitems].
    assert (Hrefs1 : logRefs e h1 = logRefs e h ++ [ref]).
    { subst h1. unfold logRefs, handleAggregationResult, mutateArray. cbn [arrays].
      rewrite lookup_alter_eq, Hitems. reflexivity. }
    assert (Hdom1 : dom (arrays h1) = dom (arrays h)).
    { subst h1. unfold handleAggregationResult, mutateArray. cbn [arrays].
      apply dom_alter_L. }
    destruct (IH h1) as (new & Hnew & Hlen).
    + rewrite Hdom1. exact Hin.
    + exact Hsub.
    + exists (ref :: new). split.
      * rewrite Hnew, Hrefs1, <- app_assoc. reflexivity.
      * cbn [length]. rewrite Hlen. reflexivity.
Qed.

(** A change of a result object keeps the entries of the log in place and
    shows at every entry that is this object. *)
Lemma logOf_mutateObject (e : t) (h : Heap) (ref : nat)
  (f : AggregationResult -> AggregationResult) :
  logRefs e (mutateObject ref f h) = logRefs e h /\
  logOf e (mutateObject ref f h) =
  map (fun r => if decide (r = ref) then f <$> objects h !! r else objects h !! r)
    (logRefs e h).
Proof.
  split; [reflexivity|]. unfold logOf, readArray, logRefs, mutateObject.
  cbn [objects arrays]. apply map_ext. intros r.
  destruct (decide (r = ref)) as [->|Hne].
  - rewrite lookup_alter_eq. reflexivity.
  - rewrite lookup_alter_ne by congruence. reflexivity.
Qed.

End EngineStore.

Section EngineLog.

Import DataEngine.

Variable StringToNumber : string -> float.
Variable NumberToString : float -> string.

Lemma addRecord_flags (now now' : Z) (record : CSVRecord)
  (agg agg' : WindowAggregator.t) :
  WindowAggregator.addRecord now now' record agg = Some agg' ->
  WindowAggregator.timer agg' = WindowAggregator.timer agg /\
  WindowAggregator.subscribed agg' = WindowAggregator.subscribed agg.
Proof.
  unfold WindowAggregator.addRecord.
  destruct (WindowAggregator.loopBound _); [|discriminate].
  intros [= <-]. destruct (_ <? _); cbn; auto.
Qed.

Lemma onData_flags (now now' : Z) (pushed : list CSVRecord) :
  forall agg agg' : WindowAggregator.t,
    onData now now' pushed agg = Some agg' ->
    WindowAggregator.timer agg' = WindowAggregator.timer agg /\
    WindowAggregator.subscribed agg' = WindowAggregator.subscribed agg.
Proof.
  induction pushed as [|record pushed IH]; intros agg agg' H; cbn [onData] in H.
  - injection H as <-. auto.
  - destruct (WindowAggregator.addRecord now now' record agg) as [agg1|] eqn:E;
      [|discriminate].
    destruct (addRecord_flags _ _ _ _ _ E) as [<- <-]. apply IH, H.
Qed.

Lemma wellFormed_start (opts : ProcessingOptions) (now : Z) :
  wellFormed (start opts now).
Proof.
  unfold wellFormed, start, constructor, allocArray, processFile. cbn.
  split; [|split; [|split]].
  - apply elem_of_dom. rewrite lookup_insert_eq. eauto.
  - unfold logRefs. cbn. rewrite lookup_insert_eq. cbn. intros r Hr. inversion Hr.
  - auto.
  - intros a Ha. inversion Ha.
Qed.

(** The log after [cleanup()] is empty, and the arrays handed out before are
    not the new results array. *)
Lemma cleanup_log (e : t) (h : Heap) :
  logOf (cleanup e h).1 (cleanup e h).2 = [] /\
  results (cleanup e h).1 = fresh (dom (arrays h)) /\
  arrays (cleanup e h).2 = <[fresh (dom (arrays h)) := []]> (arrays h) /\
  objects (cleanup e h).2 = objects h /\
  WindowAggregator.timer (aggregator (cleanup e h).1) = false.
Proof.
  unfold cleanup, allocArray, logOf, readArray. cbn.
  rewrite lookup_insert_eq. auto.
Qed.

Lemma wellFormed_cleanup (c : Config) (s : Settlement) (d : bool) :
  wellFormed c ->
  wellFormed {| engine := (cleanup (engine c) (heap c)).1;
                heap := (cleanup (engine c) (heap c)).2;
                completion := s; destroyed := d; snapshots := snapshots c |}.
Proof.
  intros (Hres & Hrefs & Hsub & Hsnap).
  destruct (cleanup_log (engine c) (heap c)) as (Hlog & Hr & Ha & Ho & Ht).
  unfold wellFormed. cbn [engine heap snapshots].
  split; [|split; [|split]].
  - rewrite Hr, Ha. apply elem_of_dom. rewrite lookup_insert_eq. eauto.
  - unfold logRefs. rewrite Hr, Ha, lookup_insert_eq. cbn. intros r H. inversion H.
  - rewrite Ht. discriminate.
  - intros a Hin. destruct (Hsnap a Hin) as [Hdom _]. split.
    + rewrite Ha. apply elem_of_dom. rewrite lookup_insert_ne.
      * apply elem_of_dom, Hdom.
      * apply not_eq_sym, fresh_array_not_allocated, Hdom.
    + rewrite Hr. apply fresh_array_not_allocated, Hdom.
Qed.

(** One step: a handler that runs [cleanup()] empties the log; every other
    step leaves the entries in place, changed only where a caller changed a
    result object, and appends exactly the results the step emits, in
    order. *)
Lemma step_log (steps fuel : nat) (ev : Event) (c c' : Config) :
  wellFormed c ->
  step StringToNumber NumberToString steps fuel ev c = Some c' ->
  wellFormed c' /\
  configLog c' =
  if runsCleanup ev then []
  else entriesAfter ev c ++ map Some (emittedBy StringToNumber NumberToString ev c).
Proof.
  intros Hwf Hstep. pose proof Hwf as (Hres & Hrefs & Hsub & Hsnap).
  unfold configLog.
  destruct ev as [now now' chunk| | |now now'| |now| | |i f|i j f];
    cbn [step runsCleanup emittedBy entriesAfter] in *; unfold configLog.
  - (* Decoded *)
    rewrite app_nil_r. destruct (destroyed c); [injection Hstep as <-; auto|].
    destruct chunk as [record|]; [|injection Hstep as <-; auto].
    destruct (StreamProcessor.write _ _ _ _) as [[sp batches]|]; [|discriminate].
    destruct (onData _ _ _ _) as [agg|] eqn:E; [|discriminate].
    injection Hstep as <-. destruct (onData_flags _ _ _ _ _ E) as [Ht Hs].
    split; [|reflexivity].
    unfold wellFormed. cbn. rewrite Ht, Hs. auto.
  - (* ParserError *)
    rewrite app_nil_r. destruct (destroyed c); injection Hstep as <-; auto.
  - (* StreamError *)
    rewrite app_nil_r. destruct (destroyed c); injection Hstep as <-; auto.
  - (* EndOfInput *)
    rewrite app_nil_r. destruct (destroyed c); [injection Hstep as <-; auto|].
    destruct (StreamProcessor.flushAll _ _ _ _) as [[sp batches]|]; [|discriminate].
    destruct (onData _ _ _ _) as [agg|] eqn:E; [|discriminate].
    injection Hstep as <-. destruct (onData_flags _ _ _ _ _ E) as [Ht Hs].
    split; [|reflexivity].
    unfold wellFormed. cbn. rewrite Ht, Hs. auto.
  - (* SetupFailure *)
    destruct (cleanup (engine c) (heap c)) as [e h] eqn:E.
    injection Hstep as <-.
    pose proof (wellFormed_cleanup c (settleWith Rejected (completion c)) true Hwf) as Hwf'.
    pose proof (cleanup_log (engine c) (heap c)) as (Hlog & _).
    rewrite E in Hwf', Hlog. cbn [fst snd] in *. split; [exact Hwf' | exact Hlog].
  - (* TimerTick *)
    injection Hstep as <-. cbn [engine heap].
    destruct (WindowAggregator.timer (aggregator (engine c))) eqn:Ht.
    + destruct (emitAll_log
                  (WindowAggregator.processWindows StringToNumber NumberToString now
                     (aggregator (engine c)))
                  (engine c) (heap c) Hres Hrefs (Hsub eq_refl))
        as (Hlog & Hdom & Hrefs').
      split; [|exact Hlog].
      unfold wellFormed. cbn [engine heap snapshots]. rewrite Hdom.
      split; [exact Hres|]. split; [exact Hrefs'|].
      split; [intros _; exact (Hsub eq_refl) | exact Hsnap].
    + cbn [emitAll]. rewrite app_nil_r. split; [exact Hwf | reflexivity].
  - (* Cleanup *)
    destruct (cleanup (engine c) (heap c)) as [e h] eqn:E.
    injection Hstep as <-.
    pose proof (wellFormed_cleanup c (completion c) true Hwf) as Hwf'.
    pose proof (cleanup_log (engine c) (heap c)) as (Hlog & _).
    rewrite E in Hwf', Hlog. cbn [fst snd] in *. split; [exact Hwf' | exact Hlog].
  - (* GetResults *)
    destruct (getResults (engine c) (heap c)) as [ref h] eqn:E.
    injection Hstep as <-.
    destruct (getResults_snapshot (engine c) (heap c) Hres)
      as (_ & Hne & Hfresh & Hrefs' & Hlog & Hobj).
    rewrite E in Hne, Hfresh, Hrefs', Hlog, Hobj. cbn [fst snd] in *.
    rewrite app_nil_r. split; [|exact Hlog].
    assert (Harr : arrays h = <[ref := logRefs (engine c) (heap c)]> (arrays (heap c))).
    { unfold getResults, allocArray in E. injection E as <- <-. reflexivity. }
    unfold wellFormed. cbn [engine heap snapshots].
    split; [|split; [|split]].
    + rewrite Harr. apply elem_of_dom. rewrite lookup_insert_ne by congruence.
      apply elem_of_dom, Hres.
    + rewrite Hrefs', Hobj. exact Hrefs.
    + exact Hsub.
    + intros a Ha. apply elem_of_app in Ha as [Ha|Ha].
      * destruct (Hsnap a Ha) as [Hdom Hna]. split; [|exact Hna].
        rewrite Harr. apply elem_of_dom.
        rewrite lookup_insert_ne by (intros ->; contradiction).
        apply elem_of_dom, Hdom.
      * apply list_elem_of_singleton in Ha as ->. split; [|exact Hne].
        rewrite Harr. apply elem_of_dom. rewrite lookup_insert_eq. eauto.
  - (* MutateSnapshot *)
    rewrite app_nil_r.
    destruct (snapshots c !! i) as [ref|] eqn:E; injection Hstep as <-; [|auto].
    assert (Hin : ref ∈ snapshots c) by (apply list_elem_of_lookup; eauto).
    destruct (Hsnap ref Hin) as [Hdom Hne].
    cbn [engine heap]. split; [|apply logOf_mutateArray_other, Hne].
    unfold wellFormed. cbn [engine heap snapshots].
    assert (Hd : dom (arrays (mutateArray ref f (heap c))) = dom (arrays (heap c))).
    { unfold mutateArray. cbn [arrays]. apply dom_alter_L. }
    rewrite Hd, logRefs_mutateArray_other by exact Hne.
    split; [exact Hres|]. split; [exact Hrefs|]. split; [exact Hsub | exact Hsnap].
  - (* MutateEntry *)
    rewrite app_nil_r.
    destruct (entryOf i j c) as [ref|] eqn:E; injection Hstep as <-; [|auto].
    cbn [engine heap].
    destruct (logOf_mutateObject (engine c) (heap c) ref f) as [Hsame Hlog].
    split; [|exact Hlog].
    unfold wellFormed. cbn [engine heap snapshots]. rewrite Hsame.
    assert (Hd : dom (objects (mutateObject ref f (heap c))) = dom (objects (heap c))).
    { unfold mutateObject. cbn [objects]. apply dom_alter_L. }
    rewrite Hd. cbn [mutateObject arrays].
    split; [exact Hres|]. split; [exact Hrefs|]. split; [exact Hsub | exact Hsnap].
Qed.

(** The same step seen on the references: a step that does not run
    [cleanup()] keeps every entry at its position and adds one reference
    per result it emits. *)
Lemma step_refs (steps fuel : nat) (ev : Event) (c c' : Config) :
  wellFormed c ->
  step StringToNumber NumberToString steps fuel ev c = Some c' ->
  runsCleanup ev = false ->
  exists new : list nat,
    configRefs c' = configRefs c ++ new /\
    length new = length (emittedBy StringToNumber NumberToString ev c).
Proof.
  intros Hwf Hstep Hno. pose proof Hwf as (Hres & Hrefs & Hsub & Hsnap).
  assert (Hsame : forall c1 : Config,
            configRefs c1 = configRefs c ->
            exists new : list nat, configRefs c1 = configRefs c ++ new /\ length new = 0%nat).
  { intros c1 H. exists []. rewrite app_nil_r. auto. }
  unfold configRefs in *.
  destruct ev as [now now' chunk| | |now now'| |now| | |i f|i j f];
    cbn [step runsCleanup emittedBy length] in *; try discriminate.
  - (* Decoded *)
    destruct (destroyed c); [injection Hstep as <-; auto|].
    destruct chunk as [record|]; [|injection Hstep as <-; auto].
    destruct (StreamProcessor.write _ _ _ _) as [[sp batches]|]; [|discriminate].
    destruct (onData _ _ _ _) as [agg|]; [|discriminate].
    injection Hstep as <-. apply Hsame. reflexivity.
  - (* ParserError *)
    destruct (destroyed c); injection Hstep as <-; auto.
  - (* StreamError *)
    destruct (destroyed c); injection Hstep as <-; auto.
  - (* EndOfInput *)
    destruct (destroyed c); [injection Hstep as <-; auto|].
    destruct (StreamProcessor.flushAll _ _ _ _) as [[sp batches]|]; [|discriminate].
    destruct (onData _ _ _ _) as [agg|]; [|discriminate].
    injection Hstep as <-. apply Hsame. reflexivity.
  - (* TimerTick *)
    injection Hstep as <-. cbn [engine heap].
    destruct (WindowAggregator.timer (aggregator (engine c))) eqn:Ht.
    + apply emitAll_refs; [exact Hres | exact (Hsub eq_refl)].
    + cbn [emitAll]. apply Hsame. reflexivity.
  - (* GetResults *)
    destruct (getResults (engine c) (heap c)) as [ref h] eqn:E.
    injection Hstep as <-.
    destruct (getResults_snapshot (engine c) (heap c) Hres)
      as (_ & _ & _ & Hrefs' & _).
    rewrite E in Hrefs'. cbn [fst snd] in Hrefs'. apply Hsame. exact Hrefs'.
  - (* MutateSnapshot *)
    destruct (snapshots c !! i) as [ref|] eqn:E; injection Hstep as <-; [|auto].
    assert (Hin : ref ∈ snapshots c) by (apply list_elem_of_lookup; eauto).
    destruct (Hsnap ref Hin) as [_ Hne].
    apply Hsame. cbn [engine heap]. apply logRefs_mutateArray_other, Hne.
  - (* MutateEntry *)
    destruct (entryOf i j c) as [ref|]; injection Hstep as <-; [|auto].
    apply Hsame. reflexivity.
Qed.

Lemma run_log (steps fuel : nat) (evs : list Event) :
  forall c c' : Config,
    wellFormed c ->
    run StringToNumber NumberToString steps fuel evs c = Some c' ->
    wellFormed c' /\
    (existsb runsCleanup evs = false -> existsb mutatesEntry evs = false ->
     configLog c' =
     configLog c ++
     map Some (emittedDuring StringToNumber NumberToString steps fuel evs c)).
Proof.
  induction evs as [|ev evs IH]; intros c c' Hwf Hrun; cbn [run] in Hrun.
  - injection Hrun as <-. split; [exact Hwf|]. intros _ _. cbn. rewrite app_nil_r.
    reflexivity.
  - destruct (step _ _ steps fuel ev c) as [c1|] eqn:Hstep; [|discriminate].
    destruct (step_log steps fuel ev c c1 Hwf Hstep) as [Hwf1 Hlog1].
    destruct (IH c1 c' Hwf1 Hrun) as [Hwf' Hlog'].
    split; [exact Hwf'|]. cbn [existsb emittedDuring]. intros Hno Hmut.
    apply orb_false_iff in Hno as [Hev Hrest].
    apply orb_false_iff in Hmut as [Hmev Hmrest].
    rewrite Hstep, (Hlog' Hrest Hmrest), Hlog1, Hev, map_app, app_assoc.
    destruct ev; try discriminate; reflexivity.
Qed.

(** Along a run that does not go through [cleanup()] the entries keep their
    positions, whatever the callers change, and the log gains one reference
    per emitted result. *)
Lemma run_refs (steps fuel : nat) (evs : list Event) :
  forall c c' : Config,
    wellFormed c ->
    run StringToNumber NumberToString steps fuel evs c = Some c' ->
    existsb runsCleanup evs = false ->
    exists new : list nat,
      configRefs c' = configRefs c ++ new /\
      length new =
      length (emittedDuring StringToNumber NumberToString steps fuel evs c).
Proof.
  induction evs as [|ev evs IH]; intros c c' Hwf Hrun Hno; cbn [run] in Hrun.
  - injection Hrun as <-. exists []. rewrite app_nil_r. auto.
  - destruct (step _ _ steps fuel ev c) as [c1|] eqn:Hstep; [|discriminate].
    cbn [existsb] in Hno. apply orb_false_iff in Hno as [Hev Hrest].
    destruct (step_log steps fuel ev c c1 Hwf Hstep) as [Hwf1 _].
    destruct (step_refs steps fuel ev c c1 Hwf Hstep Hev) as (new1 & Hnew1 & Hlen1).
    destruct (IH c1 c' Hwf1 Hrun Hrest) as (new & Hnew & Hlen).
    exists (new1 ++ new). split.
    + rewrite Hnew, Hnew1, <- app_assoc. reflexivity.
    + cbn [emittedDuring]. rewrite Hstep, !length_app, Hlen1, Hlen. reflexivity.
Qed.

(** C9, as the code has it.  Along the life of an engine, from its
    construction on, a run that does not go through [cleanup()] keeps every
    entry of the log at its position, whatever calls of [getResults] the run
    contains and whatever their callers do to the arrays and to the result
    objects they received, and adds one entry per result emitted during the
    run; when no caller changes a result object the log reads as it did,
    followed by the emitted results in emission order.  A single step either
    runs [cleanup()] and empties the log, or leaves the entries in place,
    changed only where a caller changed a result object, and appends what it
    emits.  [getResults] returns a new array that reads as the log does,
    entry by entry; changes of that array in place leave the log as it is;
    but its entries are the objects of the log itself, so a change of one of
    them shows in the log at every entry that is this object. *)
Theorem results_log_is_append_only
  (steps fuel : nat) (opts : ProcessingOptions) (now : Z)
  (evs0 evs : list Event) (c c' : Config) :
  run StringToNumber NumberToString steps fuel evs0 (start opts now) = Some c ->
  run StringToNumber NumberToString steps fuel evs c = Some c' ->
  (existsb runsCleanup evs = false ->
   (exists new : list nat,
      configRefs c' = configRefs c ++ new /\
      length new =
      length (emittedDuring StringToNumber NumberToString steps fuel evs c)) /\
   (existsb mutatesEntry evs = false ->
    configLog c' =
    configLog c ++
    map Some (emittedDuring StringToNumber NumberToString steps fuel evs c))) /\
  (forall (ev : Event) (c1 : Config),
     step StringToNumber NumberToString steps fuel ev c' = Some c1 ->
     configLog c1 =
     if runsCleanup ev then []
     else entriesAfter ev c' ++
          map Some (emittedBy StringToNumber NumberToString ev c')) /\
  (readArray (fst (getResults (engine c') (heap c')))
     (snd (getResults (engine c') (heap c'))) = configLog c' /\
   logOf (engine c') (snd (getResults (engine c') (heap c'))) = configLog c' /\
   (forall f : list nat -> list nat,
      logOf (engine c')
        (mutateArray (fst (getResults (engine c') (heap c'))) f
           (snd (getResults (engine c') (heap c')))) = configLog c') /\
   (forall (ref : nat) (g : AggregationResult -> AggregationResult),
      logRefs (engine c')
        (mutateObject ref g (snd (getResults (engine c') (heap c')))) = configRefs c' /\
      logOf (engine c')
        (mutateObject ref g (snd (getResults (engine c') (heap c')))) =
      map (fun r => if decide (r = ref)
                    then g <$> objects (heap c') !! r
                    else objects (heap c') !! r)
        (configRefs c'))).
Proof.
  intros Hrun0 Hrun.
  destruct (run_log steps fuel evs0 _ _ (wellFormed_start opts now) Hrun0) as [Hwf _].
  destruct (run_log steps fuel evs _ _ Hwf Hrun) as [Hwf' Hlog].
  split; [|split].
  - intros Hno. split; [|exact (Hlog Hno)].
    apply (run_refs steps fuel evs c c' Hwf Hrun Hno).
  - intros ev c1 Hstep. apply (step_log steps fuel ev c' c1 Hwf' Hstep).
  - destruct Hwf' as (Hres & _).
    destruct (getResults_snapshot (engine c') (heap c') Hres)
      as (Hread & Hne & _ & Hrefs & Hsame & Hobj).
    split; [exact Hread|]. split; [exact Hsame|]. split.
    + intros f. rewrite logOf_mutateArray_other by exact Hne. exact Hsame.
    + intros ref g.
      destruct (logOf_mutateObject (engine c') (snd (getResults (engine c') (heap c')))
                  ref g) as [H1 H2].
      unfold configRefs. rewrite H1, H2, Hrefs, Hobj. split; reflexivity.
Qed.

End EngineLog.

(** The theorem on a run of a new engine: two records, a tick, a snapshot
    that its caller reverses and truncates and of which it clears the count
    of an entry, and a second tick.  The log holds four entries, at the
    positions at which they were appended. *)
Lemma results_log_is_append_only_witness :
  exists c' : DataEngine.Config,
    DataEngine.run decimalStringToNumber smallNumberToString 2 1 sharedEntrySession
      (DataEngine.start (Types.mkOptions 2 1000 500) 1000) = Some c' /\
    length (configLog c') = 4%nat /\
    exists new : list nat,
      configRefs c' =
        configRefs (DataEngine.start (Types.mkOptions 2 1000 500) 1000) ++ new /\
      length new =
        length (DataEngine.emittedDuring decimalStringToNumber smallNumberToString 2 1
                  sharedEntrySession
                  (DataEngine.start (Types.mkOptions 2 1000 500) 1000)).
Proof.
  eexists. split; [vm_compute; reflexivity|]. split; [vm_compute; reflexivity|].
  apply (results_log_is_append_only decimalStringToNumber smallNumberToString 2 1
           (Types.mkOptions 2 1000 500) 1000 [] sharedEntrySession
           (DataEngine.start (Types.mkOptions 2 1000 500) 1000) _
           ltac:(vm_compute; reflexivity) ltac:(vm_compute; reflexivity)).
  vm_compute. reflexivity.
Defined.

(** C9 as stated fails.  A caller that receives the array of [getResults]
    and sets the count of its first entry to 0 changes the first entry of
    the engine's log, which read 2 before: the array is a copy, its entries
    are not. *)
Lemma snapshot_entry_mutation_changes_the_log :
  exists c c' : DataEngine.Config,
    DataEngine.run decimalStringToNumber smallNumberToString 2 1 snapshotSession
      (DataEngine.start (Types.mkOptions 2 1000 500) 1000) = Some c /\
    DataEngine.step decimalStringToNumber smallNumberToString 2 1
      (DataEngine.MutateEntry 0 0 clearCount) c = Some c' /\
    map (fmap Types.count) (configLog c) = [Some 2%nat; Some 2%nat] /\
    map (fmap Types.count) (configLog c') = [Some 0%nat; Some 2%nat] /\
    configLog c' <> configLog c.
Proof.
  eexists _, _. split; [vm_compute; reflexivity|]. split; [vm_compute; reflexivity|].
  split; [vm_compute; reflexivity|]. split; [vm_compute; reflexivity|].
  intros Heq. apply (f_equal (map (fmap Types.count))) in Heq.
  vm_compute in Heq. discriminate Heq.
Qed.

Section EngineBoundary.

Import DataEngine.

Variable StringToNumber : string -> float.
Variable NumberToString : float -> string.

(** The entries of a snapshot are the objects of the log itself: the copy is
    of the array, not of what it holds.  A caller that changes a property of
    an entry changes what the log reads at that entry. *)
Remark snapshot_entries_are_shared (e : t) (h : Heap) (ref : nat)
  (f : AggregationResult -> AggregationResult) :
  logRefs e (mutateObject ref f h) = logRefs e h /\
  logOf e (mutateObject ref f h) =
  map (fun r => if decide (r = ref) then f <$> objects h !! r else objects h !! r)
    (logRefs e h).
Proof.
  split; [reflexivity|]. unfold logOf, readArray, logRefs, mutateObject.
  cbn [objects arrays]. apply map_ext. intros r.
  destruct (decide (r = ref)) as [->|Hne].
  - rewrite lookup_alter_eq. reflexivity.
  - rewrite lookup_alter_ne by congruence. reflexivity.
Qed.

(** C3: what the code does.  For a source that produces no record the
    parser ends at once; [processFile] handles that end on a new engine by
    resolving its promise, whatever the options. *)
Theorem empty_source_resolves (steps fuel : nat) (opts : ProcessingOptions)
  (now t : Z) :
  exists c : Config,
    run StringToNumber NumberToString steps fuel (emptySource t) (start opts now)
      = Some c /\
    completion c = Resolved /\
    destroyed c = false /\
    configLog c = [].
Proof.
  unfold emptySource, start, constructor, allocArray, processFile.
  cbn [run step destroyed engine processor].
  unfold StreamProcessor.flushAll.
  assert (Hflush : forall sp : StreamProcessor.t,
            StreamProcessor.buffer sp = [] ->
            StreamProcessor._flush fuel t sp = Some (StreamProcessor.withFinished sp, [])).
  { intros sp Hb. destruct fuel; cbn [StreamProcessor._flush]; rewrite Hb; reflexivity. }
  rewrite Hflush by reflexivity.
  rewrite settle_idle by reflexivity.
  cbn [StreamProcessor.batchOf app concat onData].
  eexists. split; [reflexivity|]. cbn.
  repeat split.
Qed.

(** C8 (as amended).  Constructing an engine returns an engine for all
    options: nothing is validated, and the sizes and durations are stored as
    they were given, positive or not. *)
Theorem constructor_accepts_all_options (opts : ProcessingOptions) (now : Z) (h : Heap) :
  exists (e : t) (h' : Heap),
    constructor opts now h = (e, h') /\
    StreamProcessor.options (processor e) = opts /\
    WindowAggregator.windowSize (aggregator e) = Types.windowSize opts /\
    WindowAggregator.slidingInterval (aggregator e) = Types.slidingInterval opts /\
    WindowAggregator.maxWindows (aggregator e) =
      WindowAggregator.computeMaxWindows (Types.windowSize opts)
        (Types.slidingInterval opts) /\
    logOf e h' = [].
Proof.
  unfold constructor, allocArray. eexists _, _. split; [reflexivity|]. cbn.
  repeat split. unfold logOf, readArray. cbn. rewrite lookup_insert_eq. reflexivity.
Qed.

End EngineBoundary.

(** C8 as stated fails: options whose batch size, window size and sliding
    interval are all non-positive construct an engine that holds them. *)
Lemma invalid_options_construct_an_engine :
  invalidOptions (Types.mkOptions 0 (-1000) 0) /\
  exists (e : DataEngine.t) (h' : DataEngine.Heap),
    DataEngine.constructor (Types.mkOptions 0 (-1000) 0) 0
      (DataEngine.mkHeap ∅ ∅) = (e, h') /\
    StreamProcessor.options (DataEngine.processor e) = Types.mkOptions 0 (-1000) 0 /\
    WindowAggregator.windowSize (DataEngine.aggregator e) = -1000 /\
    WindowAggregator.slidingInterval (DataEngine.aggregator e) = 0.
Proof.
  split.
  - unfold invalidOptions. cbn. lia.
  - eexists _, _. split; [reflexivity|]. cbn. auto.
Qed.

Section InvalidOptions.

(** What invalid options lead to once the engine runs. *)

(** With a zero sliding interval and a positive window size the loop of
    [addRecord] has no end. *)
Lemma addRecord_zero_interval_never_returns
  (opts : ProcessingOptions) (t0 now now' : Z) (record : CSVRecord) :
  Types.slidingInterval opts = 0 -> 0 < Types.windowSize opts ->
  WindowAggregator.addRecord now now' record (WindowAggregator.constructor opts t0) = None.
Proof.
  intros Hsi Hws. unfold WindowAggregator.addRecord, WindowAggregator.constructor.
  cbn [WindowAggregator.maxWindows]. unfold WindowAggregator.computeMaxWindows.
  rewrite Hsi. cbn [Z.eqb].
  destruct (Z.ltb_spec 0 (Types.windowSize opts)); [reflexivity | lia].
Qed.

(** With a batch size that is not positive a flush cycle removes nothing,
    and [_flush] calls itself without end on a buffer that is not empty. *)
Lemma _flush_nonpositive_batch_never_returns (fuel : nat) (now : Z) :
  forall sp : StreamProcessor.t,
    Types.batchSize (StreamProcessor.options sp) <= 0 ->
    StreamProcessor.processing sp = false ->
    StreamProcessor.buffer sp <> [] ->
    StreamProcessor._flush fuel now sp = None.
Proof.
  induction fuel as [|fuel IH]; intros sp Hb Hp Hne;
    assert (Hn : Z.to_nat (Types.batchSize (StreamProcessor.options sp)) = O) by lia;
    cbn [StreamProcessor._flush];
    (destruct (StreamProcessor.buffer sp) as [|x rest] eqn:E; [contradiction|]);
    cbn [length Nat.ltb Nat.leb];
    (rewrite processBatch_none; [|assumption|rewrite Hn; reflexivity]);
    cbn [StreamProcessor.withProcessing StreamProcessor.withBuffer
           StreamProcessor.logFlushStart StreamProcessor.buffer
           StreamProcessor.options];
    rewrite Hn; cbn [skipn]; rewrite E; cbn [length Nat.ltb Nat.leb].
  - reflexivity.
  - rewrite IH; [reflexivity|..].
    + cbn. exact Hb.
    + reflexivity.
    + cbn. discriminate.
Qed.

End InvalidOptions.

(* ------------------------------------------------------------------ *)
(** * Further properties of the batcher *)

Section ChunkArrayGeneral.

Import StreamProcessor.

Context {T : Type}.

Lemma piecesOf_bounds (fuel : nat) :
  forall (size : nat) (l : list T),
    (1 <= size)%nat ->
    Forall (fun piece : list T => (1 <= length piece <= size)%nat) (piecesOf fuel size l).
Proof.
  induction fuel as [|fuel IH]; intros size l Hsize; cbn [piecesOf].
  - constructor.
  - destruct l as [|x l'] eqn:El; [constructor|].
    rewrite <- El. constructor.
    + rewrite length_firstn. subst l. cbn [length]. lia.
    + apply IH. exact Hsize.
Qed.

Lemma chunkLoop_zero_size (fuel : nat) :
  forall (array : list T) (i : nat) (chunks : list (list T)),
    (i < length array)%nat ->
    chunkLoop fuel array 0 i chunks = None.
Proof.
  induction fuel as [|fuel IH]; intros array i chunks Hi; cbn [chunkLoop];
    destruct (Nat.ltb_spec i (length array)) as [_|Hge]; try lia.
  - reflexivity.
  - rewrite Nat.add_0_r. apply IH. exact Hi.
Qed.

(** X1.  [chunkArray(array, size)] with a size of at least one returns the
    array cut into consecutive chunks: concatenated they give the array
    back, every chunk holds between one and [size] elements, and the sizes
    are [size] for each full chunk followed by the remainder.  With size 0
    and an array that is not empty the loop never ends, whatever the fuel;
    an empty array gives no chunk, whatever the size. *)
Theorem chunkArray_cuts_in_order (array : list T) (size : nat) :
  ((1 <= size)%nat ->
   exists chunks : list (list T),
     chunkArray array size = Some chunks /\
     concat chunks = array /\
     map (@length T) chunks = pieceSizes (length array) size /\
     Forall (fun chunk : list T => (1 <= length chunk <= size)%nat) chunks) /\
  (size = 0%nat -> array <> [] ->
   forall fuel : nat, chunkLoop fuel array size 0 [] = None) /\
  (array = [] -> chunkArray array size = Some []).
Proof.
  split; [|split].
  - intros Hsize. exists (piecesOf (length array) size array).
    split; [apply chunkArray_pieces; exact Hsize|].
    split; [apply piecesOf_concat; [exact Hsize|lia]|].
    split; [apply piecesOf_sizes; [exact Hsize|lia]|].
    apply piecesOf_bounds. exact Hsize.
  - intros -> Hne fuel. apply chunkLoop_zero_size.
    destruct array; [contradiction|cbn [length]; lia].
  - intros ->. reflexivity.
Qed.

End ChunkArrayGeneral.

Section Stamping.

Import StreamProcessor.

Lemma objSet_keys_present {V : Type} (key : string) (v : V) (obj : list (string * V)) :
  objGet key obj <> None -> map fst (objSet key v obj) = map fst obj.
Proof.
  induction obj as [|[k x] obj IH]; cbn [objGet objSet map fst].
  - intros H. contradiction.
  - destruct (String.eqb k key) eqn:E; intros H; cbn [map fst].
    + reflexivity.
    + f_equal. apply IH. exact H.
Qed.

Lemma objSet_keys_absent {V : Type} (key : string) (v : V) (obj : list (string * V)) :
  objGet key obj = None -> map fst (objSet key v obj) = map fst obj ++ [key].
Proof.
  induction obj as [|[k x] obj IH]; cbn [objGet objSet map fst app].
  - reflexivity.
  - destruct (String.eqb k key) eqn:E; intros H; [discriminate|].
    cbn [map fst app]. f_equal. apply IH. exact H.
Qed.

(** X2.  [processChunk] pushes one record per record it is given, in order.
    Each pushed record carries the clock reading under [timestamp], a
    [timestamp] property of the input included, which is overwritten; every
    other property reads as in the input; and the properties keep their
    order, [timestamp] coming last when the input had none. *)
Theorem processChunk_stamps_each_record (now : Z) (records : list CSVRecord) :
  length (processChunk now records) = length records /\
  forall (i : nat) (record : CSVRecord),
    records !! i = Some record ->
    exists pushed : CSVRecord,
      processChunk now records !! i = Some pushed /\
      objGet "timestamp" pushed = Some (VNum (numberOfZ now)) /\
      (forall key : string, key <> "timestamp" -> objGet key pushed = objGet key record) /\
      map fst pushed =
        match objGet "timestamp" record with
        | Some _ => map fst record
        | None => map fst record ++ ["timestamp"]
        end.
Proof.
  split; [apply processChunk_length|].
  unfold processChunk, spread.
  induction records as [|r records IH]; intros i record Hi.
  - destruct i; discriminate.
  - destruct i as [|i]; cbn [map lookup list_lookup] in *.
    + injection Hi as <-.
      exists (objSet "timestamp" (VNum (numberOfZ now)) r).
      split; [reflexivity|]. split; [apply objGet_objSet_eq|].
      split; [intros key Hkey; apply objGet_objSet_ne; exact Hkey|].
      destruct (objGet "timestamp" r) eqn:E.
      * apply objSet_keys_present. rewrite E. discriminate.
      * apply objSet_keys_absent. exact E.
    + apply IH. exact Hi.
Qed.

End Stamping.

Section RecordOrder.

Import StreamProcessor.

Variable opts : ProcessingOptions.
Hypothesis batchSize_positive : 1 <= Types.batchSize opts.

Lemma processChunk_stamped (times : list Z) (now : Z) (records : list CSVRecord) :
  now ∈ times ->
  Forall2 (stampedAmong times) (processChunk now records) records.
Proof.
  intros Hin. unfold processChunk, spread.
  induction records as [|r records IH]; cbn [map]; constructor.
  - exists now. split; [exact Hin | reflexivity].
  - exact IH.
Qed.

Lemma stampedAmong_mono (times times' : list Z) (outs records : list CSVRecord) :
  (forall now, now ∈ times -> now ∈ times') ->
  Forall2 (stampedAmong times) outs records ->
  Forall2 (stampedAmong times') outs records.
Proof.
  intros Hsub Hst. eapply Forall2_impl; [exact Hst|].
  intros out r (now & Hin & Heq). exists now. split; [apply Hsub; exact Hin | exact Heq].
Qed.

Lemma concat_batchOf (out : list CSVRecord) : concat (batchOf out) = out.
Proof. destruct out; cbn [batchOf concat]; [reflexivity | apply app_nil_r]. Qed.

(** A serialised write either keeps the record in the buffer or emits the
    whole buffer, the new record last, stamped with the time of the write. *)
Lemma write_idle_records (fuel : nat) (now : Z) (chunk : CSVRecord) (sp : t) :
  idle opts sp ->
  exists (sp' : t) (batches : list (list CSVRecord)),
    write fuel now chunk sp = Some (sp', batches) /\
    idle opts sp' /\
    ((concat batches = [] /\ buffer sp' = buffer sp ++ [chunk]) \/
     (concat batches = processChunk now (buffer sp ++ [chunk]) /\ buffer sp' = [])).
Proof.
  intros (Ho & Hh & Hp & Ha & Hb & Hw). unfold write, _transform.
  cbn [withBuffer options buffer highWaterMark]. rewrite Ho, Hh, length_app.
  cbn [length]. rewrite Nat.add_1_r.
  destruct ((Types.batchSize opts <=? Z.of_nat (S (length (buffer sp)))) ||
            (1000 <=? Z.of_nat (S (length (buffer sp))))) eqn:Hth.
  - set (sp1 := withBuffer (buffer sp ++ [chunk]) sp).
    assert (Hall : (length (buffer sp1) <= Z.to_nat (Types.batchSize (options sp1)))%nat).
    { subst sp1. cbn. rewrite Ho, length_app. cbn. lia. }
    rewrite processBatch_some.
    + rewrite firstn_all2, skipn_all2 by exact Hall.
      unfold resume. cbn [withProcessing awaiting].
      eexists _, _. split; [reflexivity|]. split.
      * unfold idle. subst sp1.
        cbn [withProcessing withBuffer logFlushStart buffer options highWaterMark
               processing awaiting length].
        repeat split; try assumption; lia.
      * right. split; [|reflexivity].
        cbn [batchOf]. rewrite app_nil_r, concat_batchOf. reflexivity.
    + exact Hp.
    + rewrite firstn_all2 by exact Hall. subst sp1. cbn.
      destruct (buffer sp); discriminate.
  - apply orb_false_iff in Hth as [H1 H2]. apply Z.leb_gt in H1, H2.
    eexists _, _. split; [reflexivity|]. split.
    + unfold idle.
      cbn [withBuffer buffer options highWaterMark processing awaiting].
      rewrite length_app. cbn [length]. rewrite Nat.add_1_r.
      repeat split; assumption.
    + left. split; reflexivity.
Qed.

Lemma writeAll_idle_records (fuel : nat) (input : list (Z * CSVRecord)) :
  forall sp : t,
    idle opts sp ->
    exists (sp' : t) (batches : list (list CSVRecord)) (taken : list CSVRecord),
      writeAll fuel input sp = Some (sp', batches) /\
      idle opts sp' /\
      taken ++ buffer sp' = buffer sp ++ map snd input /\
      Forall2 (stampedAmong (map fst input)) (concat batches) taken.
Proof.
  induction input as [|[now chunk] input IH]; intros sp Hidle.
  - exists sp, [], []. split; [reflexivity|]. split; [assumption|].
    split; [cbn; rewrite app_nil_r; reflexivity | constructor].
  - cbn [writeAll].
    destruct (write_idle_records fuel now chunk sp Hidle)
      as (sp1 & batches1 & -> & Hidle1 & Hcase).
    destruct (IH sp1 Hidle1) as (sp2 & batches2 & taken2 & -> & Hidle2 & Hbuf2 & Hst2).
    assert (Hlater : Forall2 (stampedAmong (map fst ((now, chunk) :: input)))
                       (concat batches2) taken2).
    { eapply stampedAmong_mono; [|exact Hst2].
      intros t Ht. cbn [map fst]. right. exact Ht. }
    destruct Hcase as [[Hout Hbuf1]|[Hout Hbuf1]].
    + exists sp2, (batches1 ++ batches2), taken2.
      split; [reflexivity|]. split; [assumption|]. split.
      * rewrite Hbuf2, Hbuf1. cbn [map snd]. rewrite <- app_assoc. reflexivity.
      * rewrite concat_app, Hout. exact Hlater.
    + exists sp2, (batches1 ++ batches2), ((buffer sp ++ [chunk]) ++ taken2).
      split; [reflexivity|]. split; [assumption|]. split.
      * rewrite <- app_assoc, Hbuf2, Hbuf1. cbn [map snd app].
        rewrite <- app_assoc. reflexivity.
      * rewrite concat_app, Hout. apply Forall2_app; [|exact Hlater].
        apply processChunk_stamped. cbn [map fst]. left.
Qed.

(** From an idle batcher the end of input emits the buffer as one batch. *)
Lemma flushAll_idle_records (steps fuel : nat) (now : Z) (sp : t) :
  idle opts sp -> (1 <= steps)%nat ->
  exists (sp' : t) (batches : list (list CSVRecord)),
    flushAll steps fuel now sp = Some (sp', batches) /\
    concat batches = processChunk now (buffer sp).
Proof.
  intros (Ho & Hh & Hp & Ha & Hb & Hw) Hsteps. unfold flushAll.
  destruct (buffer sp) as [|x rest] eqn:E.
  - destruct fuel; cbn [_flush]; rewrite E; cbn [length Nat.ltb Nat.leb];
      rewrite settle_idle by exact Ha;
      (eexists _, _; split; [reflexivity|]); reflexivity.
  - rewrite <- E. rewrite (_flush_starts_cycle opts batchSize_positive);
      [|assumption|assumption|rewrite E; discriminate].
    rewrite firstn_all2, skipn_all2 by (rewrite E; lia).
    destruct steps as [|steps]; [lia|].
    cbn [settle withProcessing awaiting]. unfold resume.
    cbn [withProcessing withBuffer awaiting buffer length Nat.ltb Nat.leb].
    rewrite settle_idle by reflexivity.
    eexists _, _. split; [reflexivity|].
    cbn [batchOf app]. rewrite !app_nil_r. apply concat_batchOf.
Qed.

(** X3.  For a positive batch size, the records a batcher emits for a source
    delivered one write at a time, batch after batch, are the records of the
    source in arrival order: none is lost, repeated or reordered, and each
    differs from the record written only by its [timestamp], which is a
    clock reading of one of the writes or of the end of input. *)
Theorem pipeline_keeps_records_in_order
  (steps fuel : nat) (input : list (Z * CSVRecord)) (tEnd : Z) :
  (1 <= steps)%nat ->
  exists (sp : t) (batches : list (list CSVRecord)),
    pipeline steps fuel opts input tEnd = Some (sp, batches) /\
    Forall2 (stampedAmong (map fst input ++ [tEnd])) (concat batches) (map snd input).
Proof.
  intros Hsteps. unfold pipeline.
  destruct (writeAll_idle_records fuel input (constructor opts) (constructor_idle opts batchSize_positive))
    as (sp1 & batches1 & taken & -> & Hidle1 & Hbuf & Hst).
  destruct (flushAll_idle_records steps fuel tEnd sp1 Hidle1 Hsteps)
    as (sp2 & batches2 & -> & Hout).
  eexists _, _. split; [reflexivity|].
  cbn [constructor buffer app] in Hbuf. rewrite <- Hbuf, concat_app, Hout.
  apply Forall2_app.
  - eapply stampedAmong_mono; [|exact Hst].
    intros t Ht. apply elem_of_app. left. exact Ht.
  - apply processChunk_stamped. apply elem_of_app. right. left.
Qed.

End RecordOrder.

Section BatchSizes.

Import StreamProcessor.

Variable opts : ProcessingOptions.
Hypothesis batchSize_positive : 1 <= Types.batchSize opts.

(** A serialised write emits nothing, or one batch of exactly the threshold
    size. *)
Lemma write_idle_batches (fuel : nat) (now : Z) (chunk : CSVRecord) (sp : t) :
  idle opts sp ->
  exists (sp' : t) (batches : list (list CSVRecord)),
    write fuel now chunk sp = Some (sp', batches) /\
    idle opts sp' /\
    Forall (fun batch => Z.of_nat (length batch) = flushThreshold opts) batches.
Proof.
  intros Hidle.
  destruct (write_idle_records opts batchSize_positive fuel now chunk sp Hidle)
    as (sp' & batches & Hw & Hidle' & Hcase).
  exists sp', batches. split; [exact Hw|]. split; [exact Hidle'|].
  destruct Hidle as (Ho & Hh & Hp & Ha & Hb & Hhw).
  unfold write, _transform in Hw.
  cbn [withBuffer options buffer highWaterMark] in Hw.
  rewrite Ho, Hh, length_app in Hw. cbn [length] in Hw. rewrite Nat.add_1_r in Hw.
  destruct ((Types.batchSize opts <=? Z.of_nat (S (length (buffer sp)))) ||
            (1000 <=? Z.of_nat (S (length (buffer sp))))) eqn:Hth.
  - set (sp1 := withBuffer (buffer sp ++ [chunk]) sp) in *.
    assert (Hall : (length (buffer sp1) <= Z.to_nat (Types.batchSize (options sp1)))%nat).
    { subst sp1. cbn. rewrite Ho, length_app. cbn. lia. }
    rewrite processBatch_some in Hw.
    + rewrite firstn_all2 in Hw by exact Hall.
      unfold resume in Hw. cbn [withProcessing awaiting] in Hw.
      injection Hw as _ <-. subst sp1. cbn [withBuffer buffer batchOf].
      rewrite app_nil_r.
      assert (Hlen : length (processChunk now (buffer sp ++ [chunk]))
                     = S (length (buffer sp))).
      { rewrite processChunk_length, length_app. cbn [length]. lia. }
      destruct (processChunk now (buffer sp ++ [chunk])) as [|r out] eqn:E;
        [discriminate|].
      cbn [batchOf]. constructor; [|constructor].
      rewrite Hlen. unfold flushThreshold.
      apply orb_true_iff in Hth as [H1|H1]; apply Z.leb_le in H1; lia.
    + exact Hp.
    + rewrite firstn_all2 by exact Hall. subst sp1. cbn.
      destruct (buffer sp); discriminate.
  - injection Hw as _ <-. constructor.
Qed.

Lemma writeAll_idle_batches (fuel : nat) (input : list (Z * CSVRecord)) :
  forall sp : t,
    idle opts sp ->
    exists (sp' : t) (batches : list (list CSVRecord)),
      writeAll fuel input sp = Some (sp', batches) /\
      idle opts sp' /\
      Forall (fun batch => Z.of_nat (length batch) = flushThreshold opts) batches.
Proof.
  induction input as [|[now chunk] input IH]; intros sp Hidle.
  - exists sp, []. split; [reflexivity|]. split; [assumption | constructor].
  - cbn [writeAll].
    destruct (write_idle_batches fuel now chunk sp Hidle)
      as (sp1 & batches1 & -> & Hidle1 & H1).
    destruct (IH sp1 Hidle1) as (sp2 & batches2 & -> & Hidle2 & H2).
    eexists _, _. split; [reflexivity|]. split; [assumption|].
    apply Forall_app. split; assumption.
Qed.

Lemma flushAll_idle_batches (steps fuel : nat) (now : Z) (sp : t) :
  idle opts sp -> (1 <= steps)%nat ->
  exists (sp' : t) (batches : list (list CSVRecord)),
    flushAll steps fuel now sp = Some (sp', batches) /\
    batches = batchOf (processChunk now (buffer sp)) /\
    Z.of_nat (length (buffer sp)) < flushThreshold opts.
Proof.
  intros (Ho & Hh & Hp & Ha & Hb & Hw) Hsteps. unfold flushAll.
  assert (Hlt : Z.of_nat (length (buffer sp)) < flushThreshold opts)
    by (unfold flushThreshold; lia).
  destruct (buffer sp) as [|x rest] eqn:E.
  - destruct fuel; cbn [_flush]; rewrite E; cbn [length Nat.ltb Nat.leb];
      rewrite settle_idle by exact Ha;
      (eexists _, _; split; [reflexivity|]); (split; [reflexivity | exact Hlt]).
  - rewrite <- E. rewrite (_flush_starts_cycle opts batchSize_positive);
      [|assumption|assumption|rewrite E; discriminate].
    rewrite firstn_all2, skipn_all2 by (rewrite E; lia).
    destruct steps as [|steps]; [lia|].
    cbn [settle withProcessing awaiting]. unfold resume.
    cbn [withProcessing withBuffer awaiting buffer length Nat.ltb Nat.leb].
    rewrite settle_idle by reflexivity.
    eexists _, _. split; [reflexivity|].
    cbn [batchOf app]. rewrite !app_nil_r. split; [reflexivity|].
    rewrite E. exact Hlt.
Qed.

(** X4.  For a positive batch size, every batch emitted for a source
    delivered one write at a time holds exactly the smaller of the batch
    size and the high-water mark of 1000 records, except the one emitted at
    the end of input, which holds fewer (and is absent when nothing is
    left).  A batch size above 1000 therefore never yields a batch of more
    than 1000 records. *)
Theorem pipeline_batches_fill_to_threshold
  (steps fuel : nat) (input : list (Z * CSVRecord)) (tEnd : Z) :
  (1 <= steps)%nat ->
  exists (sp : t) (full rest : list (list CSVRecord)),
    pipeline steps fuel opts input tEnd = Some (sp, full ++ rest) /\
    Forall (fun batch => Z.of_nat (length batch) = flushThreshold opts) full /\
    (rest = [] \/
     exists batch : list CSVRecord,
       rest = [batch] /\ 1 <= Z.of_nat (length batch) < flushThreshold opts).
Proof.
  intros Hsteps. unfold pipeline.
  destruct (writeAll_idle_batches fuel input (constructor opts)
              (constructor_idle opts batchSize_positive))
    as (sp1 & full & -> & Hidle1 & Hfull).
  destruct (flushAll_idle_batches steps fuel tEnd sp1 Hidle1 Hsteps)
    as (sp2 & rest & -> & -> & Hlt).
  exists sp2, full, (batchOf (processChunk tEnd (buffer sp1))).
  split; [reflexivity|]. split; [exact Hfull|].
  rewrite <- (processChunk_length tEnd) in Hlt.
  destruct (processChunk tEnd (buffer sp1)) as [|r out]; [left; reflexivity|].
  right. eexists. split; [reflexivity|]. cbn [length] in *. lia.
Qed.

End BatchSizes.

(* ------------------------------------------------------------------ *)
(** * Further properties of the aggregator *)

Section Ticks.

Import WindowAggregator.

Variable StringToNumber : string -> float.
Variable NumberToString : float -> string.

(** What no event changes: the two durations, the loop bound and the
    [processing] flag. *)
Lemma step_settings (ev : Event) (agg agg' : t) (out : list AggregationResult) :
  step StringToNumber NumberToString ev agg = Some (agg', out) ->
  windowSize agg' = windowSize agg /\
  slidingInterval agg' = slidingInterval agg /\
  maxWindows agg' = maxWindows agg /\
  processing agg' = processing agg.
Proof.
  destruct ev as [now now' record| now |]; cbn [step].
  - unfold addRecord. destruct (loopBound (maxWindows agg)) as [n|]; [|discriminate].
    intros [= <- <-]. cbn [withWindows windowSize lastCleanup].
    destruct (_ <? _); cbn; repeat split; reflexivity.
  - intros [= <- <-]. repeat split; reflexivity.
  - intros [= <- <-]. cbn. repeat split; reflexivity.
Qed.

Lemma run_settings (evs : list Event) :
  forall (agg agg' : t) (out : list AggregationResult),
    run StringToNumber NumberToString evs agg = Some (agg', out) ->
    windowSize agg' = windowSize agg /\
    slidingInterval agg' = slidingInterval agg /\
    maxWindows agg' = maxWindows agg /\
    processing agg' = processing agg /\
    (populated (windows agg) -> populated (windows agg')).
Proof.
  induction evs as [|ev evs IH]; intros agg agg' out Hrun; cbn [run] in Hrun.
  - injection Hrun as <- <-. do 4 (split; [reflexivity|]). intros Hw; exact Hw.
  - destruct (step _ _ ev agg) as [[agg1 out1]|] eqn:Hstep; [|discriminate].
    destruct (run _ _ evs agg1) as [[agg2 out2]|] eqn:Hrest; [|discriminate].
    injection Hrun as <- <-.
    destruct (step_settings ev agg agg1 out1 Hstep) as (H1 & H2 & H3 & H4).
    destruct (IH agg1 agg2 out2 Hrest) as (G1 & G2 & G3 & G4 & G5).
    do 4 (split; [congruence|]).
    intros Hw. apply G5. exact (populated_step _ _ ev agg agg1 out1 Hstep Hw).
Qed.

#[local] Instance laterFirst_transitive : Transitive laterFirst.
Proof. intros a b c. unfold laterFirst. lia. Qed.

#[local] Instance laterFirst_total : Total laterFirst.
Proof. intros a b. unfold laterFirst. lia. Qed.

(** The start times a tick visits are strictly decreasing. *)
Lemma windowsToProcess_descending (now : Z) (agg : t) :
  StronglySorted (fun a b : Z => b < a) (map fst (windowsToProcess now agg)).
Proof.
  unfold windowsToProcess.
  set (l := filter _ (map_to_list (windows agg))).
  assert (Hnd : NoDup (map fst (merge_sort laterFirst l))).
  { change (NoDup (fst <$> merge_sort laterFirst l)).
    rewrite merge_sort_Permutation.
    apply (sublist_NoDup _ (fst <$> map_to_list (windows agg)));
      [apply NoDup_fst_map_to_list | subst l; apply fmap_sublist, sublist_filter]. }
  pose proof (StronglySorted_merge_sort laterFirst l) as Hs.
  induction Hs as [|a l' Hs IH Hall]; cbn [map]; [constructor|].
  cbn [map] in Hnd. apply NoDup_cons in Hnd as [Hnotin Hnd].
  constructor; [apply IH; exact Hnd|].
  apply Forall_forall. intros k Hk. apply list_elem_of_In in Hk.
  apply in_map_iff in Hk as (b & <- & Hb).
  rewrite Forall_forall in Hall.
  pose proof (Hall b ltac:(apply list_elem_of_In; exact Hb)) as Hle. unfold laterFirst in Hle.
  assert (b.1 <> a.1).
  { intros Heq. apply Hnotin. rewrite <- Heq. apply list_elem_of_In, in_map, Hb. }
  lia.
Qed.

Lemma windowsToProcess_elem (now : Z) (agg : t) (k : Z) (window : Window) :
  (k, window) ∈ windowsToProcess now agg <->
  windows agg !! k = Some window /\ slidingInterval agg <= now - k.
Proof.
  unfold windowsToProcess. rewrite merge_sort_Permutation, list_elem_of_filter.
  rewrite elem_of_map_to_list. cbn [fst]. split; intros [H1 H2]; split; try assumption; lia.
Qed.

(** What a visited window yields: nothing when its aggregation throws, or
    one result that carries its start time, the number of its records and
    its aggregations. *)
Lemma processWindow_emitted (k : Z) (window : Window) (r : AggregationResult) :
  processWindow StringToNumber NumberToString k window = Emitted r <->
  (1 <= length (records window))%nat /\
  exists aggregations : list (string * GroupResult),
    calculateAggregations StringToNumber NumberToString (records window)
      = Some aggregations /\
    r = {| Types.timestamp := k; Types.count := length (records window);
           Types.data := aggregations |}.
Proof.
  unfold processWindow.
  destruct (Nat.eqb_spec (length (records window)) 0) as [E|E].
  - split; [discriminate | intros [Hlen _]; lia].
  - destruct (calculateAggregations _ _ (records window)) as [aggregations|].
    + split.
      * intros [= <-]. split; [lia|]. exists aggregations. split; reflexivity.
      * intros (_ & aggregations' & [= <-] & ->). reflexivity.
    + split; [discriminate | intros (_ & aggregations' & Hnone & _); discriminate].
Qed.

Lemma emitted_elem (l : list (Z * Window)) (r : AggregationResult) :
  r ∈ flat_map (fun kv => emitted (processWindow StringToNumber NumberToString kv.1 kv.2)) l
  <-> exists (k : Z) (window : Window),
        (k, window) ∈ l /\
        processWindow StringToNumber NumberToString k window = Emitted r.
Proof.
  rewrite list_elem_of_In, in_flat_map. split.
  - intros ([k window] & Hin & Hr). exists k, window.
    split; [apply list_elem_of_In; exact Hin|]. cbn [fst snd] in Hr.
    destruct (processWindow _ _ k window) as [|r'|]; cbn [emitted] in Hr;
      try contradiction.
    destruct Hr as [<-|[]]. reflexivity.
  - intros (k & window & Hin & Hemit). exists (k, window).
    split; [apply list_elem_of_In; exact Hin|]. cbn [fst snd].
    rewrite Hemit. left. reflexivity.
Qed.

(** The results of a pass come in the order of the windows visited, at most
    one per window. *)
Lemma emitted_descending (l : list (Z * Window)) :
  StronglySorted (fun a b : Z => b < a) (map fst l) ->
  StronglySorted (fun a b : Z => b < a)
    (map Types.timestamp
       (flat_map (fun kv => emitted (processWindow StringToNumber NumberToString kv.1 kv.2))
          l)).
Proof.
  induction l as [|[k window] l IH]; cbn [map flat_map fst snd]; intros Hs;
    [constructor|].
  apply StronglySorted_cons in Hs as [Hall Hs].
  destruct (processWindow _ _ k window) as [|r|] eqn:Hemit; cbn [emitted app map];
    try (apply IH; exact Hs).
  apply processWindow_emitted in Hemit as (_ & aggregations & _ & ->).
  cbn [Types.timestamp]. constructor; [apply IH; exact Hs|].
  apply Forall_forall. intros t Ht.
  apply list_elem_of_In, in_map_iff in Ht as (r' & <- & Hr').
  apply list_elem_of_In, emitted_elem in Hr' as (k' & window' & Hin & Hemit').
  apply processWindow_emitted in Hemit' as (_ & aggregations' & _ & ->).
  cbn [Types.timestamp]. rewrite Forall_forall in Hall. apply Hall.
  apply list_elem_of_In, in_map_iff. exists (k', window').
  split; [reflexivity | apply list_elem_of_In; exact Hin].
Qed.

(** X5.  In every state the aggregator reaches from its constructor, one
    pass of [processWindows] at time [now] visits the stored windows that
    started at least one sliding interval before [now], however old, most
    recent first, and emits one result for each of them whose aggregation
    does not throw, and no other result: the start times emitted are
    strictly decreasing.  Each result carries the start time, the number of
    records and the aggregations of its window; and, as a pass does not
    change the windows, a pass at a later time emits every one of these
    results again. *)
Theorem tick_emits_old_windows_latest_first (opts : ProcessingOptions) (t0 : Z)
  (evs : list Event) (agg : t) (out : list AggregationResult) (now : Z) :
  run StringToNumber NumberToString evs (constructor opts t0) = Some (agg, out) ->
  StronglySorted (fun a b : Z => b < a)
    (map Types.timestamp (processWindows StringToNumber NumberToString now agg)) /\
  (forall k : Z,
     k ∈ map Types.timestamp (processWindows StringToNumber NumberToString now agg) <->
     exists window : Window,
       windows agg !! k = Some window /\
       Types.slidingInterval opts <= now - k /\
       calculateAggregations StringToNumber NumberToString (records window) <> None) /\
  (forall r : AggregationResult,
     r ∈ processWindows StringToNumber NumberToString now agg ->
     exists window : Window,
       windows agg !! Types.timestamp r = Some window /\
       Types.count r = length (records window) /\
       calculateAggregations StringToNumber NumberToString (records window)
         = Some (Types.data r)) /\
  (forall (later : Z) (r : AggregationResult),
     now <= later ->
     r ∈ processWindows StringToNumber NumberToString now agg ->
     r ∈ processWindows StringToNumber NumberToString later agg).
Proof.
  intros Hrun.
  destruct (run_settings evs _ _ _ Hrun) as (_ & Hsi & _ & Hproc & Hpop).
  cbn [constructor slidingInterval processing windows] in Hsi, Hproc, Hpop.
  specialize (Hpop populated_empty).
  unfold processWindows. rewrite Hproc.
  split; [apply emitted_descending, windowsToProcess_descending|]. split; [|split].
  - intros k. rewrite <- Hsi. split.
    + intros Hk. apply list_elem_of_In, in_map_iff in Hk as (r & <- & Hr).
      apply list_elem_of_In, emitted_elem in Hr as (k & window & Hin & Hemit).
      apply windowsToProcess_elem in Hin as [Hst Hage].
      apply processWindow_emitted in Hemit as (_ & aggregations & Hsome & ->).
      cbn [Types.timestamp]. exists window.
      split; [exact Hst|]. split; [exact Hage|]. rewrite Hsome. discriminate.
    + intros (window & Hst & Hage & Hsome).
      destruct (calculateAggregations _ _ (records window)) as [aggregations|] eqn:Ea;
        [|contradiction].
      apply list_elem_of_In, in_map_iff.
      exists {| Types.timestamp := k; Types.count := length (records window);
                Types.data := aggregations |}.
      split; [reflexivity|]. apply list_elem_of_In, emitted_elem.
      exists k, window. split; [apply windowsToProcess_elem; split; assumption|].
      apply processWindow_emitted. split; [apply (Hpop k window Hst)|].
      exists aggregations. split; [exact Ea | reflexivity].
  - intros r Hr. apply emitted_elem in Hr as (k & window & Hin & Hemit).
    apply windowsToProcess_stored in Hin.
    apply processWindow_emitted in Hemit as (_ & aggregations & Hsome & ->).
    cbn [Types.timestamp Types.count Types.data].
    exists window. repeat split; assumption.
  - intros later r Hlater Hr.
    apply emitted_elem in Hr as (k & window & Hin & Hemit).
    apply emitted_elem. exists k, window. split; [|exact Hemit].
    apply windowsToProcess_elem in Hin as [Hst Hage].
    apply windowsToProcess_elem. split; [exact Hst | lia].
Qed.

End Ticks.

Section WindowKeys.

Import WindowAggregator.

Variable StringToNumber : string -> float.
Variable NumberToString : float -> string.

Lemma aligned_addRecordLoop (n : nat) :
  forall (i now q ws si : Z) record (w : gmap Z Window),
    aligned si w -> aligned si (addRecordLoop n i now (q * si) ws si record w).
Proof.
  induction n as [|n IH]; intros i now q ws si record w Hw; cbn [addRecordLoop].
  - exact Hw.
  - apply IH. destruct (_ <=? _); [|exact Hw].
    intros k window. rewrite addToWindow_lookup.
    destruct (decide (k = q * si - i * si)) as [->|_]; [|apply Hw].
    intros _. exists (q - i). lia.
Qed.

Lemma aligned_step (ev : Event) (agg agg' : t) (out : list AggregationResult) :
  step StringToNumber NumberToString ev agg = Some (agg', out) ->
  aligned (slidingInterval agg) (windows agg) ->
  aligned (slidingInterval agg') (windows agg').
Proof.
  destruct ev as [now now' record| now |]; cbn [step].
  - unfold addRecord. destruct (loopBound (maxWindows agg)) as [n|]; [|discriminate].
    intros [= <- <-] Hw. cbn [withWindows windowSize lastCleanup].
    destruct (_ <? _); cbn [cleanupWindows withWindows windows slidingInterval].
    + intros k window. rewrite map_lookup_filter_Some. intros [Hk _]. revert Hk.
      apply aligned_addRecordLoop, Hw.
    + apply aligned_addRecordLoop, Hw.
  - intros [= <- <-] Hw. exact Hw.
  - intros [= <- <-] _. cbn. intros k window H. rewrite lookup_empty in H. discriminate.
Qed.

(** X6.  In every state the aggregator reaches from its constructor,
    whatever the options, every window is stored under a start time that is
    a multiple of the sliding interval, and its [startTime] is the key it
    is stored under. *)
Theorem window_starts_are_multiples_of_the_interval (opts : ProcessingOptions) (t0 : Z)
  (evs : list Event) (agg : t) (out : list AggregationResult) :
  run StringToNumber NumberToString evs (constructor opts t0) = Some (agg, out) ->
  forall (k : Z) (window : Window),
    windows agg !! k = Some window ->
    (Types.slidingInterval opts | k) /\ startTime window = k.
Proof.
  intros Hrun k window Hk.
  destruct (run_settings StringToNumber NumberToString evs _ _ _ Hrun)
    as (_ & Hsi & _ & _ & Hpop).
  split; [|apply (Hpop populated_empty k window Hk)].
  cbn [constructor slidingInterval] in Hsi. rewrite <- Hsi.
  revert Hk. generalize k window. clear k window Hpop Hsi.
  assert (Hgen : forall evs agg0 agg out,
    run StringToNumber NumberToString evs agg0 = Some (agg, out) ->
    aligned (slidingInterval agg0) (windows agg0) ->
    aligned (slidingInterval agg) (windows agg)).
  { clear. induction evs as [|ev evs IH]; intros agg0 agg out Hrun Hw; cbn [run] in Hrun.
    - injection Hrun as <- <-. exact Hw.
    - destruct (step _ _ ev agg0) as [[agg1 out1]|] eqn:Hstep; [|discriminate].
      destruct (run _ _ evs agg1) as [[agg2 out2]|] eqn:Hrest; [|discriminate].
      injection Hrun as <- <-.
      apply (IH agg1 agg2 out2 Hrest). apply (aligned_step ev agg0 agg1 out1 Hstep Hw). }
  apply (Hgen evs _ _ _ Hrun).
  intros k window H. cbn in H. rewrite lookup_empty in H. discriminate.
Qed.

(** ** How many windows one record can open *)

Lemma addRecordLoop_size (n : nat) :
  forall (i now windowStart ws si : Z) record (w : gmap Z Window),
    0 < si -> windowStart <= now ->
    (size (addRecordLoop n i now windowStart ws si record w)
     <= size w + Z.to_nat (Z.min (i + Z.of_nat n) (ws / si + 1) - i))%nat.
Proof.
  induction n as [|n IH]; intros i now windowStart ws si record w Hsi Hstart;
    cbn [addRecordLoop].
  - lia.
  - specialize (IH (i + 1) now windowStart ws si record).
    destruct (Z.leb_spec (now - (windowStart - i * si)) ws) as [Hle|Hgt].
    + assert (Hi : i <= ws / si) by (apply Z.div_le_lower_bound; nia).
      specialize (IH (addToWindow (windowStart - i * si) record w) Hsi Hstart).
      assert (Hins : (size (addToWindow (windowStart - i * si) record w) <= S (size w))%nat).
      { unfold addToWindow. rewrite map_size_insert. destruct (w !! _); unfold id; lia. }
      lia.
    + specialize (IH w Hsi Hstart). lia.
Qed.

(** X7.  With a positive sliding interval, one call of [addRecord] returns
    and leaves at most [floor(windowSize / slidingInterval) + 1] more
    windows in the map than it found: the last iteration of its loop, of
    [ceil(windowSize / slidingInterval) + 1], opens a window only when the
    division is exact. *)
Theorem addRecord_opens_few_windows (agg : t) (now now' : Z) (record : CSVRecord) :
  configured agg -> 0 < slidingInterval agg ->
  exists agg' : t,
    addRecord now now' record agg = Some agg' /\
    (size (windows agg') <=
     size (windows agg) + Z.to_nat (windowSize agg / slidingInterval agg + 1))%nat.
Proof.
  intros Hcfg Hsi. unfold addRecord. rewrite Hcfg. unfold computeMaxWindows.
  destruct (Z.eqb_spec (slidingInterval agg) 0) as [E|_]; [lia|].
  cbn [loopBound]. eexists. split; [reflexivity|].
  set (w1 := addRecordLoop _ _ _ _ _ _ _ _).
  assert (Hw1 : (size w1 <= size (windows agg)
                 + Z.to_nat (windowSize agg / slidingInterval agg + 1))%nat).
  { subst w1.
    etransitivity; [apply addRecordLoop_size; [exact Hsi|]|].
    - pose proof (Z.mul_div_le now (slidingInterval agg) Hsi). lia.
    - lia. }
  cbn [withWindows windowSize lastCleanup].
  destruct (_ <? _); cbn [cleanupWindows withWindows windows]; [|exact Hw1].
  etransitivity; [apply map_subseteq_size, map_filter_subseteq | exact Hw1].
Qed.

(** X8.  When the window size is smaller than the time elapsed since the
    last multiple of the sliding interval ([windowSize < now mod
    slidingInterval], possible only when the window is shorter than the
    interval), [addRecord] stores the record in no window: the map changes
    by the eviction pass only. *)
Theorem short_window_drops_the_record (agg : t) (now now' : Z) (record : CSVRecord) :
  configured agg -> 0 < slidingInterval agg ->
  windowSize agg < now mod slidingInterval agg ->
  exists agg' : t,
    addRecord now now' record agg = Some agg' /\
    forall k : Z,
      windows agg' !! k =
      if decide (evictedBy agg now now' k) then None else windows agg !! k.
Proof.
  intros Hcfg Hsi Hshort. unfold addRecord. rewrite Hcfg. unfold computeMaxWindows.
  destruct (Z.eqb_spec (slidingInterval agg) 0) as [E|_]; [lia|].
  cbn [loopBound]. eexists. split; [reflexivity|].
  intros k.
  assert (Hloop : addRecordLoop (Z.to_nat (ceilDiv (windowSize agg) (slidingInterval agg) + 1))
                    0 now (now / slidingInterval agg * slidingInterval agg)
                    (windowSize agg) (slidingInterval agg) record (windows agg) !! k
                  = windows agg !! k).
  { rewrite addRecordLoop_lookup by exact Hsi.
    destruct (decide _) as [(Hmod & [Hlo _] & Hage)|_]; [|reflexivity].
    exfalso.
    pose proof (Z.mod_pos_bound
                  (now / slidingInterval agg * slidingInterval agg - k)
                  (slidingInterval agg) Hsi) as Hb.
    pose proof (Z.div_mod (now / slidingInterval agg * slidingInterval agg - k)
                  (slidingInterval agg) ltac:(lia)) as Hdm.
    pose proof (Z.div_mod now (slidingInterval agg) ltac:(lia)) as Hnow.
    nia. }
  unfold evictedBy.
  cbn [withWindows windowSize lastCleanup].
  destruct (Z.ltb_spec (windowSize agg) (now - lastCleanup agg)) as [Hrun|Hno].
  - rewrite cleanupWindows_lookup. cbn [withWindows windowSize windows].
    rewrite Hloop.
    destruct (decide (k < now' - windowSize agg));
      destruct (decide _) as [[? ?]|Hn]; try reflexivity; lia.
  - cbn [withWindows windows]. rewrite Hloop.
    destruct (decide _) as [[? ?]|_]; [lia | reflexivity].
Qed.

(** X9.  After [stop()] the aggregator emits nothing more: whatever records
    are added and whatever ticks are delivered afterwards, no result comes
    out, the timer stays cleared and no listener is registered. *)
Theorem stop_silences_the_aggregator (evs : list Event) :
  forall (agg agg' : t) (out : list AggregationResult),
    run StringToNumber NumberToString evs (stop agg) = Some (agg', out) ->
    out = [] /\ timer agg' = false /\ subscribed agg' = false.
Proof.
  assert (Hgen : forall evs agg0 agg' out,
    timer agg0 = false -> subscribed agg0 = false ->
    run StringToNumber NumberToString evs agg0 = Some (agg', out) ->
    out = [] /\ timer agg' = false /\ subscribed agg' = false).
  { clear. induction evs as [|ev evs IH]; intros agg0 agg' out Ht Hs Hrun; cbn [run] in Hrun.
    - injection Hrun as <- <-. repeat split; assumption.
    - destruct (step _ _ ev agg0) as [[agg1 out1]|] eqn:Hstep; [|discriminate].
      destruct (run _ _ evs agg1) as [[agg2 out2]|] eqn:Hrest; [|discriminate].
      injection Hrun as <- <-.
      assert (H1 : out1 = [] /\ timer agg1 = false /\ subscribed agg1 = false).
      { destruct ev as [now now' record| now |]; cbn [step] in Hstep.
        - destruct (addRecord now now' record agg0) as [a|] eqn:Ea; [|discriminate].
          injection Hstep as <- <-.
          destruct (addRecord_flags _ _ _ _ _ Ea) as [-> ->]. repeat split; assumption.
        - injection Hstep as <- <-. rewrite Ht. repeat split; assumption.
        - injection Hstep as <- <-. repeat split; reflexivity. }
      destruct H1 as (-> & Ht1 & Hs1).
      destruct (IH agg1 agg2 out2 Ht1 Hs1 Hrest) as (-> & Ht2 & Hs2).
      repeat split; assumption. }
  intros agg agg' out. apply Hgen; reflexivity.
Qed.

End WindowKeys.

Section TimestampsIgnored.

Import WindowAggregator.

Variable StringToNumber : string -> float.
Variable NumberToString : float -> string.

Lemma filter_other_objSet (v : JsValue) (record : CSVRecord) :
  filter (fun kv : string * JsValue => negb (String.eqb kv.1 "timestamp") = true)
    (objSet "timestamp" v record) =
  filter (fun kv : string * JsValue => negb (String.eqb kv.1 "timestamp") = true) record.
Proof.
  induction record as [|[k x] record IH]; cbn [objSet].
  - reflexivity.
  - destruct (String.eqb k "timestamp") eqn:E.
    + rewrite (filter_cons _ (k, v)), (filter_cons _ (k, x)). cbn [fst].
      rewrite E. cbn [negb].
      destruct (decide (false = true)); [discriminate | reflexivity].
    + rewrite (filter_cons _ (k, x)), (filter_cons _ (k, x)). cbn [fst].
      rewrite E. cbn [negb].
      destruct (decide (true = true)); [|contradiction]. f_equal. exact IH.
Qed.

Lemma getGroupKey_withTimestamp (v : JsValue) (record : CSVRecord) :
  getGroupKey NumberToString (withTimestamp v record) = getGroupKey NumberToString record.
Proof.
  unfold getGroupKey, withTimestamp, spread. rewrite filter_other_objSet. reflexivity.
Qed.

Lemma getNumericFields_withTimestamp (v : JsValue) (record : CSVRecord) :
  getNumericFields (withTimestamp v record) = getNumericFields record.
Proof.
  unfold getNumericFields, withTimestamp, spread. apply (f_equal (map fst)).
  unfold CSVRecord.
  induction record as [|[k x] record IH]; cbn [objSet].
  - reflexivity.
  - destruct (String.eqb k "timestamp") eqn:E.
    + rewrite (filter_cons _ (k, v)), (filter_cons _ (k, x)). cbn [fst snd].
      rewrite E. cbn [negb andb].
      destruct (decide (false = true)); [discriminate | reflexivity].
    + rewrite (filter_cons _ (k, x)), (filter_cons _ (k, x)). cbn [fst snd].
      rewrite E. cbn [negb andb].
      destruct (decide (isNumber x = true)); [f_equal|]; exact IH.
Qed.

Lemma getNumericFields_not_timestamp (record : CSVRecord) (field : string) :
  field ∈ getNumericFields record -> field <> "timestamp".
Proof.
  unfold getNumericFields. intros Hin.
  apply list_elem_of_In, in_map_iff in Hin as ([k x] & <- & Hin).
  apply list_elem_of_In, list_elem_of_filter in Hin as [Hp _].
  cbn [fst snd] in *. apply andb_true_iff in Hp as [Hp _].
  intros ->. rewrite String.eqb_refl in Hp. discriminate.
Qed.

Lemma numericValues_withTimestamp (field : string) (input : list (JsValue * CSVRecord)) :
  field <> "timestamp" ->
  numericValues StringToNumber field (timestamped input) =
  numericValues StringToNumber field (map snd input).
Proof.
  intros Hne. unfold numericValues, timestamped. f_equal. rewrite !map_map.
  apply map_ext. intros [v r]. cbn [fst snd]. unfold withTimestamp, spread.
  rewrite objGet_objSet_ne by exact Hne. reflexivity.
Qed.

Lemma calculateGroupAggregations_withTimestamp (input : list (JsValue * CSVRecord)) :
  calculateGroupAggregations StringToNumber (timestamped input) =
  calculateGroupAggregations StringToNumber (map snd input).
Proof.
  destruct input as [|[v first] rest]; [reflexivity|].
  unfold calculateGroupAggregations.
  change (timestamped ((v, first) :: rest))
    with (withTimestamp v first :: timestamped rest).
  cbn [map snd]. rewrite getNumericFields_withTimestamp. f_equal.
  change (withTimestamp v first :: timestamped rest)
    with (timestamped ((v, first) :: rest)).
  change (first :: map snd rest) with (map snd ((v, first) :: rest)).
  assert (Hlen : length (timestamped ((v, first) :: rest))
                 = length (map snd ((v, first) :: rest))).
  { unfold timestamped. rewrite !length_map. reflexivity. }
  rewrite Hlen.
  pose proof (getNumericFields_not_timestamp first) as Hfields.
  generalize [("count", numberOfNat (length (map snd ((v, first) :: rest))))].
  revert Hfields. generalize (getNumericFields first) as fields.
  induction fields as [|field fields IH]; intros Hfields result; cbn [fold_left].
  - reflexivity.
  - assert (Hstep : aggregateField StringToNumber (timestamped ((v, first) :: rest)) result field
                    = aggregateField StringToNumber (map snd ((v, first) :: rest)) result field).
    { unfold aggregateField. rewrite numericValues_withTimestamp; [reflexivity|].
      apply Hfields. left. }
    rewrite Hstep. apply IH. intros f Hf. apply Hfields. right. exact Hf.
Qed.

Lemma objGet_map_groups {A B : Type} (f : A -> B) (key : string) (groups : list (string * A)) :
  objGet key (map (fun kg => (kg.1, f kg.2)) groups) = f <$> objGet key groups.
Proof.
  induction groups as [|[k g] groups IH]; cbn [map objGet fst snd]; [reflexivity|].
  destruct (String.eqb k key); [reflexivity | exact IH].
Qed.

Lemma objSet_map_groups {A B : Type} (f : A -> B) (key : string) (g : A)
  (groups : list (string * A)) :
  objSet key (f g) (map (fun kg => (kg.1, f kg.2)) groups) =
  map (fun kg => (kg.1, f kg.2)) (objSet key g groups).
Proof.
  induction groups as [|[k g'] groups IH]; cbn [map objSet fst snd]; [reflexivity|].
  destruct (String.eqb k key); cbn [map fst snd]; [reflexivity | f_equal; exact IH].
Qed.

Lemma objSet_objSet {V : Type} (key : string) (a b : V) (obj : list (string * V)) :
  objSet key a (objSet key b obj) = objSet key a obj.
Proof.
  induction obj as [|[k x] obj IH]; cbn [objSet].
  - rewrite String.eqb_refl. reflexivity.
  - destruct (String.eqb k key) eqn:E; cbn [objSet]; rewrite E; [reflexivity|].
    f_equal. exact IH.
Qed.

(** A record joins the group of its key; seen through a map [f] over the
    members of the groups. *)
Lemma addToGroup_map {A : Type} (f : A -> CSVRecord) (a : A)
  (acc : list (string * list A)) :
  addToGroup NumberToString (map (fun kg => (kg.1, map f kg.2)) acc) (f a) =
  map (fun kg => (kg.1, map f kg.2))
    (match objGet (getGroupKey NumberToString (f a)) acc with
     | None => objSet (getGroupKey NumberToString (f a)) [a] acc
     | Some group => objSet (getGroupKey NumberToString (f a)) (group ++ [a]) acc
     end).
Proof.
  unfold addToGroup. set (key := getGroupKey NumberToString (f a)).
  rewrite (objGet_map_groups (map f)).
  destruct (objGet key acc) as [group|] eqn:E; cbn [fmap option_fmap option_map].
  - rewrite (objGet_map_groups (map f)), E. cbn [fmap option_fmap option_map].
    rewrite <- (objSet_map_groups (map f)), map_app. reflexivity.
  - rewrite objGet_objSet_eq, objSet_objSet. cbn [app].
    rewrite <- (objSet_map_groups (map f)). reflexivity.
Qed.

(** The groups of timestamped records are the groups of the records, each
    member with its timestamp. *)
Lemma groupRecords_withTimestamp (input : list (JsValue * CSVRecord)) :
  exists paired : list (string * list (JsValue * CSVRecord)),
    groupRecords NumberToString (timestamped input)
      = map (fun kg => (kg.1, timestamped kg.2)) paired /\
    groupRecords NumberToString (map snd input)
      = map (fun kg => (kg.1, map snd kg.2)) paired.
Proof.
  unfold groupRecords.
  assert (Hgen : forall (input acc : list _),
    exists paired : list (string * list (JsValue * CSVRecord)),
      fold_left (addToGroup NumberToString) (timestamped input)
        (map (fun kg => (kg.1, timestamped kg.2)) acc)
        = map (fun kg => (kg.1, timestamped kg.2)) paired /\
      fold_left (addToGroup NumberToString) (map snd input)
        (map (fun kg => (kg.1, map snd kg.2)) acc)
        = map (fun kg => (kg.1, map snd kg.2)) paired).
  { clear input. induction input as [|[v r] input IH]; intros acc.
    - exists acc. split; reflexivity.
    - unfold timestamped in *. cbn [map fold_left].
      rewrite (addToGroup_map (fun vr => withTimestamp vr.1 vr.2) (v, r)).
      rewrite (addToGroup_map snd (v, r)).
      cbn [fst snd]. rewrite getGroupKey_withTimestamp.
      apply IH. }
  apply (Hgen input []).
Qed.

Lemma setGroupResults_withTimestamp
  (paired : list (string * list (JsValue * CSVRecord))) :
  forall acc : option (list (string * GroupResult)),
    fold_left (setGroupResult StringToNumber)
      (map (fun kg => (kg.1, timestamped kg.2)) paired) acc =
    fold_left (setGroupResult StringToNumber)
      (map (fun kg => (kg.1, map snd kg.2)) paired) acc.
Proof.
  induction paired as [|[key group] paired IH]; intros acc; cbn [map fold_left fst snd].
  - reflexivity.
  - unfold setGroupResult at 2 4. cbn [fst snd].
    rewrite calculateGroupAggregations_withTimestamp. apply IH.
Qed.

(** X10.  The aggregations of a list of records do not depend on their
    [timestamp] properties: changing or adding a [timestamp], number or
    text, on any of the records leaves the result of
    [calculateAggregations] as it is, group keys and statistics included.
    In particular the records pushed by [processChunk] aggregate as the
    records it was given. *)
Theorem aggregation_ignores_timestamps :
  (forall input : list (JsValue * CSVRecord),
     calculateAggregations StringToNumber NumberToString (timestamped input) =
     calculateAggregations StringToNumber NumberToString (map snd input)) /\
  (forall (now : Z) (records : list CSVRecord),
     calculateAggregations StringToNumber NumberToString
       (StreamProcessor.processChunk now records) =
     calculateAggregations StringToNumber NumberToString records).
Proof.
  assert (Hall : forall input : list (JsValue * CSVRecord),
     calculateAggregations StringToNumber NumberToString (timestamped input) =
     calculateAggregations StringToNumber NumberToString (map snd input)).
  { intros input. unfold calculateAggregations.
    destruct (groupRecords_withTimestamp input) as (paired & -> & ->).
    apply setGroupResults_withTimestamp. }
  split; [exact Hall|].
  intros now records.
  specialize (Hall (map (fun r => (VNum (numberOfZ now), r)) records)).
  unfold timestamped in Hall. rewrite !map_map in Hall. cbn [fst snd] in Hall.
  rewrite map_id in Hall. exact Hall.
Qed.

End TimestampsIgnored.

(* ------------------------------------------------------------------ *)
(** * Further properties of the engine *)

Section EngineSessions.

Import DataEngine.

Variable StringToNumber : string -> float.
Variable NumberToString : float -> string.

Lemma run_destroyed_source (steps fuel : nat) (evs : list Event) (c : Config) :
  destroyed c = true -> forallb fromSource evs = true ->
  run StringToNumber NumberToString steps fuel evs c = Some c.
Proof.
  intros Hd. induction evs as [|ev evs IH]; intros Hsrc; cbn [run]; [reflexivity|].
  cbn [forallb] in Hsrc. apply andb_true_iff in Hsrc as [Hev Hsrc].
  assert (Hstep : step StringToNumber NumberToString steps fuel ev c = Some c).
  { destruct ev; try discriminate; cbn [step]; rewrite Hd; reflexivity. }
  rewrite Hstep. apply IH, Hsrc.
Qed.

(** X12.  A failure of the source of a call in progress (an error of the
    parser or of the stream, or a chunk that is not an object) rejects the
    promise if it is pending, discards the records still in the batcher's
    buffer, and leaves the aggregator and the results log as they are: the
    records already pushed stay in their windows.  Every later event of
    that source, records and end of input included, changes nothing. *)
Theorem failed_source_is_cut_off (steps fuel : nat) (ev : Event) (evs : list Event)
  (c : Config) :
  sourceFailure ev = true -> destroyed c = false -> forallb fromSource evs = true ->
  exists c' : Config,
    step StringToNumber NumberToString steps fuel ev c = Some c' /\
    run StringToNumber NumberToString steps fuel evs c' = Some c' /\
    completion c' = settleWith Rejected (completion c) /\
    StreamProcessor.buffer (processor (engine c')) = [] /\
    aggregator (engine c') = aggregator (engine c) /\
    configLog c' = configLog c.
Proof.
  intros Hfail Hd Hsrc. exists (fail c).
  split.
  - destruct ev as [now now' [record|]| | |now now'| |now| | |i f|i j f]; try discriminate;
      cbn [step]; rewrite Hd; reflexivity.
  - split; [apply run_destroyed_source; [reflexivity | exact Hsrc]|].
    repeat split.
Qed.

(** ** [cleanup()] during a call *)

Lemma cleanup_idempotent (sp : StreamProcessor.t) (agg : WindowAggregator.t) :
  StreamProcessor.cleanup (StreamProcessor.cleanup sp) = StreamProcessor.cleanup sp /\
  WindowAggregator.stop (WindowAggregator.stop agg) = WindowAggregator.stop agg.
Proof. split; reflexivity. Qed.

(** Once [cleanup()] has run during a pending call, every event but the
    failure of a set-up leaves the call pending and the two stages as
    [cleanup()] left them. *)
Lemma run_stranded (steps fuel : nat) (sp : StreamProcessor.t)
  (agg : WindowAggregator.t) (evs : list Event) :
  forallb afterSetup evs = true ->
  forall c : Config,
    destroyed c = true -> completion c = Pending ->
    processor (engine c) = StreamProcessor.cleanup sp ->
    aggregator (engine c) = WindowAggregator.stop agg ->
    exists c' : Config,
      run StringToNumber NumberToString steps fuel evs c = Some c' /\
      completion c' = Pending /\ destroyed c' = true /\
      processor (engine c') = StreamProcessor.cleanup sp /\
      aggregator (engine c') = WindowAggregator.stop agg.
Proof.
  induction evs as [|ev evs IH]; intros Hevs c Hd Hp Hsp Hagg; cbn [run].
  - exists c. repeat split; assumption.
  - cbn [forallb] in Hevs. apply andb_true_iff in Hevs as [Hev Hevs].
    assert (Hstep : exists c1 : Config,
              step StringToNumber NumberToString steps fuel ev c = Some c1 /\
              destroyed c1 = true /\ completion c1 = Pending /\
              processor (engine c1) = StreamProcessor.cleanup sp /\
              aggregator (engine c1) = WindowAggregator.stop agg).
    { destruct ev as [now now' chunk| | |now now'| |now| | |i f|i j f];
        cbn [step afterSetup] in *; try discriminate; rewrite ?Hd.
      - exists c. repeat split; assumption.
      - exists c. repeat split; assumption.
      - exists c. repeat split; assumption.
      - exists c. repeat split; assumption.
      - eexists. split; [reflexivity|]. cbn. repeat split; assumption.
      - unfold cleanup, allocArray. eexists. split; [reflexivity|].
        cbn [destroyed completion engine processor aggregator].
        rewrite Hsp, Hagg. repeat split; try assumption; reflexivity.
      - unfold getResults, allocArray. eexists. split; [reflexivity|].
        cbn. repeat split; assumption.
      - destruct (snapshots c !! i); eexists; (split; [reflexivity|]);
          cbn; repeat split; assumption.
      - destruct (entryOf i j c); eexists; (split; [reflexivity|]);
          cbn; repeat split; assumption. }
    destruct Hstep as (c1 & -> & Hd1 & Hp1 & Hsp1 & Hagg1).
    apply (IH Hevs c1 Hd1 Hp1 Hsp1 Hagg1).
Qed.

(** X11.  [cleanup()] strands a call of [processFile] in progress.  Called
    while the promise of the call is pending, it empties the batcher's
    buffer and the windows and removes the listeners of the call; from then
    on no event of the source adds a record to the aggregator, and neither
    the end of the source nor an error of the parser or of a stream settles
    the promise: it stays pending for ever. *)
Theorem cleanup_strands_the_call_in_progress (steps fuel : nat) (c : Config) :
  completion c = Pending ->
  exists c1 : Config,
    step StringToNumber NumberToString steps fuel Cleanup c = Some c1 /\
    StreamProcessor.buffer (processor (engine c1)) = [] /\
    WindowAggregator.windows (aggregator (engine c1)) = ∅ /\
    forall evs : list Event,
      forallb afterSetup evs = true ->
      exists c' : Config,
        run StringToNumber NumberToString steps fuel evs c1 = Some c' /\
        completion c' = Pending /\
        aggregator (engine c') = aggregator (engine c1).
Proof.
  intros Hp. cbn [step]. unfold cleanup, allocArray.
  eexists. split; [reflexivity|]. split; [reflexivity|]. split; [reflexivity|].
  intros evs Hevs.
  destruct (run_stranded steps fuel (processor (engine c)) (aggregator (engine c))
              evs Hevs
              {| engine := {| processor := StreamProcessor.cleanup (processor (engine c));
                              aggregator := WindowAggregator.stop (aggregator (engine c));
                              results := fresh (dom (arrays (heap c))) |};
                 heap := {| objects := objects (heap c);
                            arrays := <[fresh (dom (arrays (heap c))) := []]>
                                        (arrays (heap c)) |};
                 completion := completion c; destroyed := true;
                 snapshots := snapshots c |})
    as (c' & Hrun & Hp' & _ & Hsp & Hagg); try reflexivity; [exact Hp|].
  exists c'. split; [exact Hrun|]. split; [exact Hp' | exact Hagg].
Qed.

(** ** After [cleanup()] *)

Lemma step_timer_off (steps fuel : nat) (ev : Event) (c c' : Config) :
  step StringToNumber NumberToString steps fuel ev c = Some c' ->
  WindowAggregator.timer (aggregator (engine c)) = false ->
  WindowAggregator.timer (aggregator (engine c')) = false.
Proof.
  intros Hstep Ht.
  destruct ev as [now now' chunk| | |now now'| |now| | |i f|i j f]; cbn [step] in Hstep.
  - destruct (destroyed c); [injection Hstep as <-; exact Ht|].
    destruct chunk as [record|]; [|injection Hstep as <-; exact Ht].
    destruct (StreamProcessor.write _ _ _ _) as [[sp batches]|]; [|discriminate].
    destruct (onData _ _ _ _) as [agg|] eqn:E; [|discriminate].
    injection Hstep as <-. destruct (onData_flags _ _ _ _ _ E) as [H1 _].
    cbn. rewrite H1. exact Ht.
  - destruct (destroyed c); injection Hstep as <-; exact Ht.
  - destruct (destroyed c); injection Hstep as <-; exact Ht.
  - destruct (destroyed c); [injection Hstep as <-; exact Ht|].
    destruct (StreamProcessor.flushAll _ _ _ _) as [[sp batches]|]; [|discriminate].
    destruct (onData _ _ _ _) as [agg|] eqn:E; [|discriminate].
    injection Hstep as <-. destruct (onData_flags _ _ _ _ _ E) as [H1 _].
    cbn. rewrite H1. exact Ht.
  - injection Hstep as <-. reflexivity.
  - injection Hstep as <-. exact Ht.
  - injection Hstep as <-. reflexivity.
  - destruct (getResults (engine c) (heap c)) as [ref h].
    injection Hstep as <-. exact Ht.
  - destruct (snapshots c !! i); injection Hstep as <-; exact Ht.
  - destruct (entryOf i j c); injection Hstep as <-; exact Ht.
Qed.

Lemma entriesAfter_nil (ev : Event) (c : Config) :
  configLog c = [] -> entriesAfter ev c = [].
Proof.
  intros Hlog. destruct ev; try exact Hlog. cbn [entriesAfter].
  destruct (entryOf _ _ c); [|exact Hlog].
  unfold configLog, logOf, readArray in Hlog. apply map_eq_nil in Hlog.
  unfold configRefs, logRefs. rewrite Hlog. reflexivity.
Qed.

(** Once the timer is cleared nothing is emitted and an empty log stays
    empty. *)
Lemma run_timer_off (steps fuel : nat) (evs : list Event) :
  forall c c' : Config,
    wellFormed c ->
    WindowAggregator.timer (aggregator (engine c)) = false ->
    configLog c = [] ->
    run StringToNumber NumberToString steps fuel evs c = Some c' ->
    configLog c' = [] /\
    emittedDuring StringToNumber NumberToString steps fuel evs c = [] /\
    WindowAggregator.timer (aggregator (engine c')) = false.
Proof.
  induction evs as [|ev evs IH]; intros c c' Hwf Ht Hlog Hrun; cbn [run] in Hrun.
  - injection Hrun as <-. repeat split; assumption.
  - destruct (step _ _ steps fuel ev c) as [c1|] eqn:Hstep; [|discriminate].
    destruct (step_log StringToNumber NumberToString steps fuel ev c c1 Hwf Hstep)
      as [Hwf1 Hlog1].
    assert (Hem : emittedBy StringToNumber NumberToString ev c = []).
    { destruct ev; try reflexivity. cbn [emittedBy]. rewrite Ht. reflexivity. }
    rewrite Hem, (entriesAfter_nil ev c Hlog), app_nil_r in Hlog1.
    assert (Hlog1' : configLog c1 = []) by (destruct (runsCleanup ev); exact Hlog1).
    destruct (IH c1 c' Hwf1 (step_timer_off steps fuel ev c c1 Hstep Ht) Hlog1' Hrun)
      as (H1 & H2 & H3).
    cbn [emittedDuring]. rewrite Hem, Hstep, H2. repeat split; assumption.
Qed.

Lemma wellFormed_processFile (c : Config) :
  wellFormed c -> wellFormed (processFile (engine c) (heap c)).
Proof.
  intros (Hres & Hrefs & Hsub & _). unfold wellFormed, processFile.
  cbn [engine heap snapshots aggregator results].
  split; [exact Hres|]. split; [exact Hrefs|]. split; [exact Hsub|].
  intros a Ha. inversion Ha.
Qed.

(** X13.  [cleanup()] is final.  From any state an engine reaches, after a
    call of [cleanup()] the log is empty and stays empty, and no result is
    emitted, whatever events follow, a new call of [processFile] on the same
    engine included: [stop()] cleared the timer and removed the listener,
    and nothing restarts them. *)
Theorem cleanup_is_final (steps fuel : nat) (opts : ProcessingOptions) (now : Z)
  (evs0 : list Event) (c c1 : Config) :
  run StringToNumber NumberToString steps fuel evs0 (start opts now) = Some c ->
  step StringToNumber NumberToString steps fuel Cleanup c = Some c1 ->
  configLog c1 = [] /\
  (forall (evs : list Event) (c' : Config),
     run StringToNumber NumberToString steps fuel evs c1 = Some c' ->
     configLog c' = [] /\
     emittedDuring StringToNumber NumberToString steps fuel evs c1 = []) /\
  (forall (evs : list Event) (c' : Config),
     run StringToNumber NumberToString steps fuel evs
       (processFile (engine c1) (heap c1)) = Some c' ->
     configLog c' = [] /\
     emittedDuring StringToNumber NumberToString steps fuel evs
       (processFile (engine c1) (heap c1)) = []).
Proof.
  intros Hrun0 Hstep.
  destruct (run_log StringToNumber NumberToString steps fuel evs0 _ _
              (wellFormed_start opts now) Hrun0) as [Hwf _].
  destruct (step_log StringToNumber NumberToString steps fuel Cleanup c c1 Hwf Hstep)
    as [Hwf1 Hlog1].
  cbn [runsCleanup] in Hlog1.
  assert (Ht1 : WindowAggregator.timer (aggregator (engine c1)) = false).
  { cbn [step] in Hstep. destruct (cleanup (engine c) (heap c)) as [e h] eqn:E.
    injection Hstep as <-. cbn [engine].
    pose proof (cleanup_log (engine c) (heap c)) as (_ & _ & _ & _ & Ht).
    rewrite E in Ht. exact Ht. }
  split; [exact Hlog1|]. split.
  - intros evs c' Hrun.
    destruct (run_timer_off steps fuel evs c1 c' Hwf1 Ht1 Hlog1 Hrun) as (H1 & H2 & _).
    split; assumption.
  - intros evs c' Hrun.
    destruct (run_timer_off steps fuel evs _ c' (wellFormed_processFile c1 Hwf1)
                Ht1 Hlog1 Hrun) as (H1 & H2 & _).
    split; assumption.
Qed.

End EngineSessions.

Section InvalidOptionsSessions.

Import DataEngine.

Variable StringToNumber : string -> float.
Variable NumberToString : float -> string.

Lemma onData_unbounded_loop (now now' : Z) (pushed : list CSVRecord)
  (agg : WindowAggregator.t) :
  WindowAggregator.maxWindows agg = WindowAggregator.PosInfinity ->
  pushed <> [] -> onData now now' pushed agg = None.
Proof.
  intros Hmax Hne. destruct pushed as [|record pushed]; [contradiction|].
  cbn [onData]. unfold WindowAggregator.addRecord. rewrite Hmax. reflexivity.
Qed.

Lemma processChunk_nonempty (now : Z) (records : list CSVRecord) :
  records <> [] -> StreamProcessor.processChunk now records <> [].
Proof. destruct records; [contradiction | discriminate]. Qed.

Lemma run_zero_interval (steps fuel : nat) (opts : ProcessingOptions) (tEnd : Z)
  (rows : list (Z * CSVRecord)) :
  1 <= Types.batchSize opts -> (1 <= steps)%nat ->
  forall c : Config,
    destroyed c = false ->
    idle opts (processor (engine c)) ->
    WindowAggregator.maxWindows (aggregator (engine c)) = WindowAggregator.PosInfinity ->
    StreamProcessor.buffer (processor (engine c)) <> [] \/ rows <> [] ->
    run StringToNumber NumberToString steps fuel (sourceOf rows tEnd) c = None.
Proof.
  intros Hb Hsteps. unfold sourceOf.
  induction rows as [|[now record] rows IH]; intros c Hd Hidle Hmax Hne;
    cbn [map app run step fst snd]; rewrite Hd.
  - destruct Hne as [Hne|Hne]; [|contradiction].
    destruct (flushAll_idle_records opts Hb steps fuel tEnd _ Hidle Hsteps)
      as (sp & batches & -> & Hout).
    rewrite onData_unbounded_loop; [reflexivity | exact Hmax |].
    rewrite Hout. apply processChunk_nonempty, Hne.
  - destruct (write_idle_records opts Hb fuel now record _ Hidle)
      as (sp & batches & -> & Hidle' & [[Hout Hbuf]|[Hout Hbuf]]).
    + rewrite Hout. cbn [onData].
      apply IH; cbn [withPipeline engine processor aggregator destroyed].
      * exact Hd.
      * exact Hidle'.
      * exact Hmax.
      * left. rewrite Hbuf. destruct (StreamProcessor.buffer _); discriminate.
    + rewrite onData_unbounded_loop; [reflexivity | exact Hmax |].
      rewrite Hout. apply processChunk_nonempty.
      destruct (StreamProcessor.buffer _); discriminate.
Qed.

(** X14.  An engine built with a sliding interval of 0, a positive window
    size and a positive batch size never completes a source that delivers
    at least one record: the first record that reaches the aggregator
    enters a loop bounded by [Infinity], so the run has no result,
    whatever the fuel. *)
Theorem zero_interval_never_completes (steps fuel : nat) (opts : ProcessingOptions)
  (t0 tEnd : Z) (rows : list (Z * CSVRecord)) :
  Types.slidingInterval opts = 0 -> 0 < Types.windowSize opts ->
  1 <= Types.batchSize opts -> (1 <= steps)%nat -> rows <> [] ->
  run StringToNumber NumberToString steps fuel (sourceOf rows tEnd) (start opts t0) = None.
Proof.
  intros Hsi Hws Hb Hsteps Hrows.
  apply (run_zero_interval steps fuel opts tEnd rows Hb Hsteps).
  - reflexivity.
  - unfold start, constructor, allocArray, processFile, idle.
    cbn. repeat split; lia.
  - unfold start, constructor, allocArray, processFile.
    cbn. unfold WindowAggregator.computeMaxWindows. rewrite Hsi. cbn.
    destruct (Z.ltb_spec 0 (Types.windowSize opts)); [reflexivity | lia].
  - right. exact Hrows.
Qed.

(** With a batch size that is not positive a write takes no record out of
    the buffer. *)
Lemma write_nonpositive_batch (fuel : nat) (now : Z) (chunk : CSVRecord)
  (sp : StreamProcessor.t) :
  Types.batchSize (StreamProcessor.options sp) <= 0 ->
  StreamProcessor.processing sp = false ->
  exists sp' : StreamProcessor.t,
    StreamProcessor.write fuel now chunk sp = Some (sp', []) /\
    StreamProcessor.options sp' = StreamProcessor.options sp /\
    StreamProcessor.processing sp' = false /\
    StreamProcessor.buffer sp' = StreamProcessor.buffer sp ++ [chunk].
Proof.
  intros Hb Hp. unfold StreamProcessor.write, StreamProcessor._transform.
  cbn [StreamProcessor.withBuffer StreamProcessor.options StreamProcessor.buffer
         StreamProcessor.highWaterMark].
  assert (Hth : (Types.batchSize (StreamProcessor.options sp) <=?
                 Z.of_nat (length (StreamProcessor.buffer sp ++ [chunk]))) = true)
    by (apply Z.leb_le; lia).
  rewrite Hth. cbn [orb].
  assert (Hn : Z.to_nat (Types.batchSize (StreamProcessor.options sp)) = O) by lia.
  rewrite processBatch_none.
  - cbn [StreamProcessor.withBuffer StreamProcessor.options StreamProcessor.buffer
           StreamProcessor.logFlushStart].
    rewrite Hn. cbn [skipn StreamProcessor.batchOf].
    eexists. split; [reflexivity|]. repeat split.
  - exact Hp.
  - cbn [StreamProcessor.withBuffer StreamProcessor.options]. rewrite Hn. reflexivity.
Qed.

Lemma run_nonpositive_batch (steps fuel : nat) (tEnd : Z)
  (rows : list (Z * CSVRecord)) :
  forall c : Config,
    destroyed c = false ->
    Types.batchSize (StreamProcessor.options (processor (engine c))) <= 0 ->
    StreamProcessor.processing (processor (engine c)) = false ->
    StreamProcessor.buffer (processor (engine c)) <> [] \/ rows <> [] ->
    run StringToNumber NumberToString steps fuel (sourceOf rows tEnd) c = None.
Proof.
  unfold sourceOf.
  induction rows as [|[now record] rows IH]; intros c Hd Hb Hp Hne;
    cbn [map app run step fst snd]; rewrite Hd.
  - destruct Hne as [Hne|Hne]; [|contradiction].
    unfold StreamProcessor.flushAll.
    rewrite _flush_nonpositive_batch_never_returns by assumption. reflexivity.
  - destruct (write_nonpositive_batch fuel now record _ Hb Hp)
      as (sp & -> & Ho & Hp' & Hbuf).
    cbn [concat onData].
    apply IH; cbn [withPipeline engine processor aggregator destroyed].
    + exact Hd.
    + rewrite Ho. exact Hb.
    + exact Hp'.
    + left. rewrite Hbuf. destruct (StreamProcessor.buffer _); discriminate.
Qed.

(** X15.  An engine built with a batch size that is not positive never
    completes a source that delivers at least one record: no write takes
    anything out of the buffer, and at the end of input [_flush] calls
    itself on the same buffer without end, whatever the fuel. *)
Theorem nonpositive_batch_never_completes (steps fuel : nat) (opts : ProcessingOptions)
  (t0 tEnd : Z) (rows : list (Z * CSVRecord)) :
  Types.batchSize opts <= 0 -> rows <> [] ->
  run StringToNumber NumberToString steps fuel (sourceOf rows tEnd) (start opts t0) = None.
Proof.
  intros Hb Hrows. apply run_nonpositive_batch.
  - reflexivity.
  - exact Hb.
  - reflexivity.
  - right. exact Hrows.
Qed.

End InvalidOptionsSessions.

Section SessionConservation.

Import DataEngine.

Variable StringToNumber : string -> float.
Variable NumberToString : float -> string.

Lemma onData_feed (now now' : Z) (pushed : list CSVRecord) :
  forall agg : WindowAggregator.t,
    onData now now' pushed agg = feed (map (fun r => (now, now', r)) pushed) agg.
Proof.
  induction pushed as [|record pushed IH]; intros agg; cbn [onData map feed].
  - reflexivity.
  - destruct (WindowAggregator.addRecord now now' record agg); [apply IH | reflexivity].
Qed.

Lemma feed_app (calls1 calls2 : list (Z * Z * CSVRecord)) :
  forall agg agg1 : WindowAggregator.t,
    feed calls1 agg = Some agg1 ->
    feed (calls1 ++ calls2) agg = feed calls2 agg1.
Proof.
  induction calls1 as [|[[now now'] record] calls1 IH]; intros agg agg1 H;
    cbn [feed app] in *.
  - injection H as <-. reflexivity.
  - destruct (WindowAggregator.addRecord now now' record agg); [|discriminate].
    apply IH, H.
Qed.

Lemma run_source_feeds (steps fuel : nat) (opts : ProcessingOptions) (tEnd : Z)
  (rows : list (Z * CSVRecord)) :
  1 <= Types.batchSize opts -> (1 <= steps)%nat ->
  forall c c' : Config,
    destroyed c = false ->
    idle opts (processor (engine c)) ->
    run StringToNumber NumberToString steps fuel (sourceOf rows tEnd) c = Some c' ->
    completion c' = settleWith Resolved (completion c) /\
    StreamProcessor.buffer (processor (engine c')) = [] /\
    exists calls : list (Z * Z * CSVRecord),
      feed calls (aggregator (engine c)) = Some (aggregator (engine c')) /\
      Forall2 (stampedAmong (map fst rows ++ [tEnd])) (map snd calls)
        (StreamProcessor.buffer (processor (engine c)) ++ map snd rows).
Proof.
  intros Hb Hsteps. unfold sourceOf.
  induction rows as [|[now record] rows IH]; intros c c' Hd Hidle Hrun;
    cbn [map app run step fst snd] in Hrun; rewrite Hd in Hrun.
  - pose proof Hidle as (Ho & Hh & Hp & Ha & Hlen & Hhw).
    destruct (flushAll_idle_records opts Hb steps fuel tEnd _ Hidle Hsteps)
      as (sp & batches & Hflush & Hout).
    destruct (flushAll_drains opts Hb steps fuel tEnd _ Ho Hp Ha ltac:(lia))
      as (sp' & batches' & Hflush' & Hbuf & _).
    rewrite Hflush in Hflush'. injection Hflush' as <- <-.
    rewrite Hflush in Hrun.
    destruct (onData _ _ _ _) as [agg|] eqn:Hfed; [|discriminate].
    injection Hrun as <-. cbn [completion engine processor aggregator withPipeline].
    split; [reflexivity|]. split; [exact Hbuf|].
    rewrite onData_feed in Hfed. eexists. split; [exact Hfed|].
    rewrite map_map. cbn [snd map app]. rewrite map_id, app_nil_r, Hout.
    apply processChunk_stamped. left.
  - destruct (write_idle_records opts Hb fuel now record _ Hidle)
      as (sp & batches & Hw & Hidle' & Hcase).
    rewrite Hw in Hrun.
    destruct (onData _ _ _ _) as [agg|] eqn:Hfed; [|discriminate].
    destruct (IH (withPipeline sp agg c) c' Hd Hidle' Hrun)
      as (Hcompl & Hbuf & calls & Hfeed & Hst).
    cbn [withPipeline completion engine processor aggregator] in Hcompl, Hfeed, Hst.
    split; [exact Hcompl|]. split; [exact Hbuf|].
    rewrite onData_feed in Hfed.
    exists (map (fun r => (now, now, r)) (concat batches) ++ calls).
    split; [rewrite (feed_app _ _ _ _ Hfed); exact Hfeed|].
    assert (Hlater : Forall2 (stampedAmong (map fst ((now, record) :: rows) ++ [tEnd]))
                       (map snd calls) (StreamProcessor.buffer sp ++ map snd rows)).
    { eapply stampedAmong_mono; [|exact Hst].
      intros t Ht. cbn [map fst app]. right. exact Ht. }
    rewrite map_app, map_map. cbn [snd]. rewrite map_id.
    destruct Hcase as [[Hout Hbuf1]|[Hout Hbuf1]].
    + rewrite Hout. cbn [app map snd]. rewrite Hbuf1, <- app_assoc in Hlater.
      exact Hlater.
    + rewrite Hout. rewrite Hbuf1 in Hlater. cbn [app] in Hlater.
      cbn [map snd].
      change (StreamProcessor.buffer (processor (engine c)) ++ record :: map snd rows)
        with (StreamProcessor.buffer (processor (engine c)) ++ [record] ++ map snd rows).
      rewrite app_assoc. apply Forall2_app; [|exact Hlater].
      apply processChunk_stamped. cbn [map fst app]. left.
Qed.

Lemma onData_returns (now now' : Z) (pushed : list CSVRecord) :
  forall agg : WindowAggregator.t,
    configured agg -> WindowAggregator.slidingInterval agg <> 0 ->
    exists agg' : WindowAggregator.t,
      onData now now' pushed agg = Some agg' /\
      configured agg' /\
      WindowAggregator.slidingInterval agg' = WindowAggregator.slidingInterval agg.
Proof.
  induction pushed as [|record pushed IH]; intros agg Hcfg Hsi; cbn [onData].
  - exists agg. repeat split; assumption.
  - destruct (addRecord_returns agg now now' record Hcfg Hsi)
      as (agg1 & -> & Hcfg1 & _ & Hsi1).
    destruct (IH agg1 Hcfg1 ltac:(rewrite Hsi1; exact Hsi)) as (agg2 & -> & Hcfg2 & Hsi2).
    exists agg2. split; [reflexivity|]. split; [exact Hcfg2|]. congruence.
Qed.

Lemma run_source_returns (steps fuel : nat) (opts : ProcessingOptions) (tEnd : Z)
  (rows : list (Z * CSVRecord)) :
  1 <= Types.batchSize opts -> (1 <= steps)%nat ->
  forall c : Config,
    destroyed c = false ->
    idle opts (processor (engine c)) ->
    configured (aggregator (engine c)) ->
    WindowAggregator.slidingInterval (aggregator (engine c)) <> 0 ->
    exists c' : Config,
      run StringToNumber NumberToString steps fuel (sourceOf rows tEnd) c = Some c'.
Proof.
  intros Hb Hsteps. unfold sourceOf.
  induction rows as [|[now record] rows IH]; intros c Hd Hidle Hcfg Hsi;
    cbn [map app run step fst snd]; rewrite Hd.
  - destruct (flushAll_idle_records opts Hb steps fuel tEnd _ Hidle Hsteps)
      as (sp & batches & -> & _).
    destruct (onData_returns tEnd tEnd (concat batches) _ Hcfg Hsi) as (agg & -> & _).
    eexists. reflexivity.
  - destruct (write_idle_records opts Hb fuel now record _ Hidle)
      as (sp & batches & -> & Hidle' & _).
    destruct (onData_returns now now (concat batches) _ Hcfg Hsi)
      as (agg & -> & Hcfg' & Hsi').
    apply IH; cbn [withPipeline engine processor aggregator destroyed].
    + exact Hd.
    + exact Hidle'.
    + exact Hcfg'.
    + rewrite Hsi'. exact Hsi.
Qed.

(** X16.  For a positive batch size and a sliding interval that is not 0,
    a call of [processFile] on a new engine whose source decodes any finite
    list of records and then ends runs to its end: the promise is resolved,
    the batcher's buffer is empty, and the aggregator is in the state that
    calls of [addRecord] bring it to, one call per decoded record, in the
    order of the source, each with the record as decoded but for its
    [timestamp]. *)
Theorem session_feeds_every_record_to_the_aggregator (steps fuel : nat)
  (opts : ProcessingOptions) (t0 tEnd : Z) (rows : list (Z * CSVRecord)) :
  1 <= Types.batchSize opts -> Types.slidingInterval opts <> 0 -> (1 <= steps)%nat ->
  exists c : Config,
    run StringToNumber NumberToString steps fuel (sourceOf rows tEnd) (start opts t0)
      = Some c /\
    completion c = Resolved /\
    StreamProcessor.buffer (processor (engine c)) = [] /\
    exists calls : list (Z * Z * CSVRecord),
      feed calls (aggregator (engine (start opts t0))) = Some (aggregator (engine c)) /\
      Forall2 (stampedAmong (map fst rows ++ [tEnd])) (map snd calls) (map snd rows).
Proof.
  intros Hb Hsi Hsteps.
  assert (Hidle : idle opts (processor (engine (start opts t0)))).
  { unfold start, constructor, allocArray, processFile, idle.
    cbn. repeat split; lia. }
  destruct (run_source_returns steps fuel opts tEnd rows Hb Hsteps (start opts t0))
    as (c & Hrun); [reflexivity | exact Hidle | reflexivity | exact Hsi |].
  exists c. split; [exact Hrun|].
  destruct (run_source_feeds steps fuel opts tEnd rows Hb Hsteps (start opts t0) c
              eq_refl Hidle Hrun)
    as (Hcompl & Hbuf & calls & Hfeed & Hst).
  split; [exact Hcompl|]. split; [exact Hbuf|].
  exists calls. split; [exact Hfeed | exact Hst].
Qed.

End SessionConservation.

(* ------------------------------------------------------------------ *)
(** * Properties of the router *)

Section Router.

Import Routes.

Variable StringToNumber : string -> float.
Variable NumberToString : float -> string.

Lemma awaitAll_settled (settled : list (string * Awaited)) :
  awaitAll (settledUploads settled) = Some (map (fun na => processOne na.1 na.2) settled).
Proof.
  induction settled as [|[name a] settled IH]; cbn [settledUploads map awaitAll fst snd].
  - reflexivity.
  - fold (settledUploads settled). rewrite IH. reflexivity.
Qed.

Lemma awaitAll_pending (files : list Upload) (name : string) :
  (name, None) ∈ files -> awaitAll files = None.
Proof.
  induction files as [|[n a] files IH]; intros Hin; [inversion Hin|].
  cbn [awaitAll]. apply elem_of_cons in Hin as [Heq|Hin].
  - injection Heq as <- <-. reflexivity.
  - rewrite (IH Hin). destruct a; reflexivity.
Qed.

Lemma hasErrors_settled (settled : list (string * Awaited)) :
  existsb (fun r => String.eqb (status r) "error")
    (map (fun na => processOne na.1 na.2) settled) = false <->
  Forall (fun na => na.2 = Fulfilled) settled.
Proof.
  induction settled as [|[name a] settled IH]; cbn [map existsb fst snd].
  - split; [constructor | reflexivity].
  - rewrite Forall_cons, <- IH. destruct a as [|text]; cbn.
    + tauto.
    + split; [discriminate | intros [H _]; discriminate].
Qed.

(** X17.  [POST /process] answers once every file has settled, never
    before.  With at least one file it answers 200, counts every file in
    [filesProcessed], lists one result per file in upload order with the
    name of the file and 'success' or 'error' with the message, and sets
    [success] exactly when no file failed; it does not call
    [dataEngine.cleanup()], even when every file failed.  Without files it
    answers 400 with empty results. *)
Theorem process_route_reports_each_file :
  (forall settled : list (string * Awaited),
     settled <> [] ->
     exists response : Response,
       processRoute (Some (settledUploads settled)) = Some (response, false) /\
       code response = 200%nat /\
       filesProcessed response = Some (length settled) /\
       map filename (results response) = map fst settled /\
       (success response = true <-> Forall (fun na => na.2 = Fulfilled) settled) /\
       forall (i : nat) (name : string) (a : Awaited),
         settled !! i = Some (name, a) ->
         results response !! i = Some (processOne name a)) /\
  (forall (files : list Upload) (name : string),
     (name, None) ∈ files -> processRoute (Some files) = None) /\
  (exists response : Response,
     processRoute None = Some (response, false) /\
     processRoute (Some []) = Some (response, false) /\
     code response = 400%nat /\ success response = false /\ results response = []).
Proof.
  split; [|split].
  - intros settled Hne. unfold processRoute.
    destruct (settledUploads settled) as [|file files] eqn:E.
    { destruct settled; [contradiction | discriminate]. }
    rewrite <- E, awaitAll_settled. eexists. split; [reflexivity|].
    cbn [code filesProcessed results success].
    split; [reflexivity|]. split.
    { unfold settledUploads. rewrite length_map. reflexivity. }
    split.
    { rewrite map_map. apply map_ext. intros [name a]. destruct a; reflexivity. }
    split.
    { rewrite negb_true_iff. apply hasErrors_settled. }
    intros i name a Hi.
    change (map (fun na => processOne na.1 na.2) settled)
      with ((fun na => processOne na.1 na.2) <$> settled).
    rewrite list_lookup_fmap, Hi. reflexivity.
  - intros files name Hin. unfold processRoute.
    destruct files as [|file files]; [inversion Hin|].
    rewrite (awaitAll_pending _ name Hin). reflexivity.
  - eexists. split; [reflexivity|]. split; [reflexivity|]. repeat split.
Qed.

(** X18.  [POST /upload] calls [dataEngine.cleanup()] when the file fails.
    So after one failed upload, on an engine in any state it can reach, the
    response is 400, the log is empty, and every later upload to the same
    engine, failed or not, leaves the log empty and emits no result. *)
Theorem failed_upload_silences_the_engine (steps fuel : nat)
  (opts : ProcessingOptions) (now : Z) (evs0 evs : list DataEngine.Event)
  (c0 c : DataEngine.Config) (originalname text : string) (response : Response) :
  DataEngine.run StringToNumber NumberToString steps fuel evs0
    (DataEngine.start opts now) = Some c0 ->
  upload StringToNumber NumberToString steps fuel originalname text evs
    (DataEngine.engine c0) (DataEngine.heap c0) = Some (response, c) ->
  success response = false ->
  code response = 400%nat /\
  configLog c = [] /\
  forall (evs' : list DataEngine.Event) (originalname' text' : string)
         (response' : Response) (c' : DataEngine.Config),
    upload StringToNumber NumberToString steps fuel originalname' text' evs'
      (DataEngine.engine c) (DataEngine.heap c) = Some (response', c') ->
    configLog c' = [] /\
    DataEngine.emittedDuring StringToNumber NumberToString steps fuel evs'
      (DataEngine.processFile (DataEngine.engine c) (DataEngine.heap c)) = [].
Proof.
  intros Hrun0 Hup Hfailed.
  destruct (run_log StringToNumber NumberToString steps fuel evs0 _ _
              (wellFormed_start opts now) Hrun0) as [Hwf0 _].
  unfold upload in Hup.
  destruct (DataEngine.run _ _ steps fuel evs _) as [c1|] eqn:Hrun1; [|discriminate].
  destruct (run_log StringToNumber NumberToString steps fuel evs _ _
              (wellFormed_processFile c0 Hwf0) Hrun1) as [Hwf1 _].
  destruct (DataEngine.completion c1); cbn [awaited uploadRoute] in Hup;
    [discriminate| |].
  { injection Hup as <- <-. discriminate. }
  destruct (DataEngine.step _ _ steps fuel DataEngine.Cleanup c1) as [c2|] eqn:Hstep;
    [|discriminate].
  injection Hup as <- <-. split; [reflexivity|].
  destruct (step_log StringToNumber NumberToString steps fuel _ c1 c2 Hwf1 Hstep)
    as [Hwf2 Hlog2].
  cbn [DataEngine.runsCleanup] in Hlog2.
  assert (Ht2 : WindowAggregator.timer (DataEngine.aggregator (DataEngine.engine c2)) = false).
  { cbn [DataEngine.step] in Hstep.
    destruct (DataEngine.cleanup (DataEngine.engine c1) (DataEngine.heap c1))
      as [e h] eqn:E.
    injection Hstep as <-. cbn [DataEngine.engine].
    pose proof (cleanup_log (DataEngine.engine c1) (DataEngine.heap c1))
      as (_ & _ & _ & _ & Ht).
    rewrite E in Ht. exact Ht. }
  split; [exact Hlog2|].
  intros evs' name' text' response' c' Hup'. unfold upload in Hup'.
  destruct (DataEngine.run _ _ steps fuel evs' _) as [c3|] eqn:Hrun3; [|discriminate].
  destruct (run_timer_off StringToNumber NumberToString steps fuel evs' _ c3
              (wellFormed_processFile c2 Hwf2) Ht2 Hlog2 Hrun3) as (Hlog3 & Hem3 & Ht3).
  split; [|exact Hem3].
  destruct (run_log StringToNumber NumberToString steps fuel evs' _ _
              (wellFormed_processFile c2 Hwf2) Hrun3) as [Hwf3 _].
  destruct (uploadRoute _) as [[resp cleans]|]; [|discriminate].
  destruct cleans.
  - destruct (DataEngine.step _ _ steps fuel DataEngine.Cleanup c3) as [c4|] eqn:Hstep4;
      [|discriminate].
    injection Hup' as <- <-.
    destruct (step_log StringToNumber NumberToString steps fuel _ c3 c4 Hwf3 Hstep4)
      as [_ Hlog4].
    exact Hlog4.
  - injection Hup' as <- <-. exact Hlog3.
Qed.

End Router.

(* ------------------------------------------------------------------ *)
(** * The further properties on examples *)

(** X3 for seven numbered records and batch size 3. *)
Lemma pipeline_keeps_records_in_order_witness :
  exists (sp : StreamProcessor.t) (batches : list (list CSVRecord)),
    StreamProcessor.pipeline 2 1 (Types.mkOptions 3 1000 500) (numberedInput 7) 99
      = Some (sp, batches) /\
    Forall2 (stampedAmong (map fst (numberedInput 7) ++ [99]))
      (concat batches) (map snd (numberedInput 7)).
Proof.
  apply (pipeline_keeps_records_in_order (Types.mkOptions 3 1000 500)
           ltac:(simpl; lia) 2 1 (numberedInput 7) 99 ltac:(lia)).
Defined.

(** X4 for seven numbered records and batch size 3: two batches of three
    and one of one. *)
Lemma pipeline_batches_fill_to_threshold_witness :
  exists (sp : StreamProcessor.t) (full rest : list (list CSVRecord)),
    StreamProcessor.pipeline 2 1 (Types.mkOptions 3 1000 500) (numberedInput 7) 99
      = Some (sp, full ++ rest) /\
    Forall (fun batch => Z.of_nat (length batch)
                         = flushThreshold (Types.mkOptions 3 1000 500)) full /\
    (rest = [] \/
     exists batch : list CSVRecord,
       rest = [batch] /\
       1 <= Z.of_nat (length batch) < flushThreshold (Types.mkOptions 3 1000 500)).
Proof.
  apply (pipeline_batches_fill_to_threshold (Types.mkOptions 3 1000 500)
           ltac:(simpl; lia) 2 1 (numberedInput 7) 99 ltac:(lia)).
Defined.

(** X5 for two records added at 1000 and 1250 and a pass at 1600: the
    windows starting at 1000, 500 and 0 are emitted, in that order. *)
Lemma tick_emits_old_windows_latest_first_witness :
  exists (agg : WindowAggregator.t) (out : list AggregationResult),
    WindowAggregator.run decimalStringToNumber smallNumberToString twoRecords
      (WindowAggregator.constructor (Types.mkOptions 2 1000 500) 1000) = Some (agg, out) /\
    map Types.timestamp
      (WindowAggregator.processWindows decimalStringToNumber smallNumberToString 1600 agg)
      = [1000; 500; 0] /\
    (StronglySorted (fun a b : Z => b < a)
       (map Types.timestamp
          (WindowAggregator.processWindows decimalStringToNumber smallNumberToString
             1600 agg)) /\
     (forall k : Z,
        k ∈ map Types.timestamp
              (WindowAggregator.processWindows decimalStringToNumber smallNumberToString
                 1600 agg) <->
        exists window : WindowAggregator.Window,
          WindowAggregator.windows agg !! k = Some window /\
          Types.slidingInterval (Types.mkOptions 2 1000 500) <= 1600 - k /\
          WindowAggregator.calculateAggregations decimalStringToNumber
            smallNumberToString (WindowAggregator.records window) <> None) /\
     (forall r : AggregationResult,
        r ∈ WindowAggregator.processWindows decimalStringToNumber smallNumberToString
              1600 agg ->
        exists window : WindowAggregator.Window,
          WindowAggregator.windows agg !! Types.timestamp r = Some window /\
          Types.count r = length (WindowAggregator.records window) /\
          WindowAggregator.calculateAggregations decimalStringToNumber smallNumberToString
            (WindowAggregator.records window) = Some (Types.data r)) /\
     (forall (later : Z) (r : AggregationResult),
        1600 <= later ->
        r ∈ WindowAggregator.processWindows decimalStringToNumber smallNumberToString
              1600 agg ->
        r ∈ WindowAggregator.processWindows decimalStringToNumber smallNumberToString
              later agg)).
Proof.
  eexists _, _. split; [vm_compute; reflexivity|]. split; [vm_compute; reflexivity|].
  eapply (tick_emits_old_windows_latest_first decimalStringToNumber smallNumberToString
           (Types.mkOptions 2 1000 500) 1000 twoRecords).
  vm_compute. reflexivity.
Defined.

(** X6 on the sample run of the aggregator, interval 500. *)
Lemma window_starts_are_multiples_of_the_interval_witness :
  exists (agg : WindowAggregator.t) (out : list AggregationResult),
    WindowAggregator.run decimalStringToNumber smallNumberToString sampleEvents
      (WindowAggregator.constructor (Types.mkOptions 2 1000 500) 1000) = Some (agg, out) /\
    WindowAggregator.windows agg <> ∅ /\
    forall (k : Z) (window : WindowAggregator.Window),
      WindowAggregator.windows agg !! k = Some window ->
      (Types.slidingInterval (Types.mkOptions 2 1000 500) | k) /\
      WindowAggregator.startTime window = k.
Proof.
  eexists _, _. split; [vm_compute; reflexivity|]. split; [vm_compute; discriminate|].
  eapply (window_starts_are_multiples_of_the_interval
           decimalStringToNumber smallNumberToString
           (Types.mkOptions 2 1000 500) 1000 sampleEvents).
  vm_compute. reflexivity.
Defined.

(** X7 for a record added at 1250 to a new aggregator with window size 1000
    and interval 500: at most three windows. *)
Lemma addRecord_opens_few_windows_witness :
  exists agg' : WindowAggregator.t,
    WindowAggregator.addRecord 1250 1250 sampleRecord
      (WindowAggregator.constructor (Types.mkOptions 2 1000 500) 1000) = Some agg' /\
    (size (WindowAggregator.windows agg') <=
     size (WindowAggregator.windows
             (WindowAggregator.constructor (Types.mkOptions 2 1000 500) 1000)) +
     Z.to_nat
       (WindowAggregator.windowSize
          (WindowAggregator.constructor (Types.mkOptions 2 1000 500) 1000) /
        WindowAggregator.slidingInterval
          (WindowAggregator.constructor (Types.mkOptions 2 1000 500) 1000) + 1))%nat.
Proof.
  apply (addRecord_opens_few_windows
           (WindowAggregator.constructor (Types.mkOptions 2 1000 500) 1000)
           1250 1250 sampleRecord).
  - reflexivity.
  - simpl. lia.
Defined.

(** X8 for window size 100, interval 500 and a record added at 250. *)
Lemma short_window_drops_the_record_witness :
  exists agg' : WindowAggregator.t,
    WindowAggregator.addRecord 250 250 sampleRecord shortWindowAggregator = Some agg' /\
    forall k : Z,
      WindowAggregator.windows agg' !! k =
      if decide (evictedBy shortWindowAggregator 250 250 k) then None
      else WindowAggregator.windows shortWindowAggregator !! k.
Proof.
  apply (short_window_drops_the_record shortWindowAggregator 250 250 sampleRecord).
  - reflexivity.
  - simpl. lia.
  - vm_compute. reflexivity.
Defined.

(** X9 for the sample aggregator, stopped, then fed and ticked. *)
Lemma stop_silences_the_aggregator_witness :
  exists (agg' : WindowAggregator.t) (out : list AggregationResult),
    WindowAggregator.run decimalStringToNumber smallNumberToString
      [WindowAggregator.AddRecord 3200 3200 sampleRecord; WindowAggregator.Tick 4000]
      (WindowAggregator.stop sampleAggregator) = Some (agg', out) /\
    WindowAggregator.windows agg' <> ∅ /\
    (out = [] /\ WindowAggregator.timer agg' = false /\
     WindowAggregator.subscribed agg' = false).
Proof.
  eexists _, _. split; [vm_compute; reflexivity|]. split; [vm_compute; discriminate|].
  apply (stop_silences_the_aggregator decimalStringToNumber smallNumberToString
           [WindowAggregator.AddRecord 3200 3200 sampleRecord; WindowAggregator.Tick 4000]
           sampleAggregator).
  vm_compute. reflexivity.
Defined.

(** X11 for an engine that holds one record in its buffer and whose call
    is pending when [cleanup()] runs. *)
Lemma cleanup_strands_the_call_in_progress_witness :
  DataEngine.completion bufferedSession = DataEngine.Pending /\
  exists c1 : DataEngine.Config,
    DataEngine.step decimalStringToNumber smallNumberToString 2 1
      DataEngine.Cleanup bufferedSession = Some c1 /\
    StreamProcessor.buffer (DataEngine.processor (DataEngine.engine c1)) = [] /\
    WindowAggregator.windows (DataEngine.aggregator (DataEngine.engine c1)) = ∅ /\
    forall evs : list DataEngine.Event,
      forallb afterSetup evs = true ->
      exists c' : DataEngine.Config,
        DataEngine.run decimalStringToNumber smallNumberToString 2 1 evs c1 = Some c' /\
        DataEngine.completion c' = DataEngine.Pending /\
        DataEngine.aggregator (DataEngine.engine c') =
          DataEngine.aggregator (DataEngine.engine c1).
Proof.
  split; [vm_compute; reflexivity|].
  apply (cleanup_strands_the_call_in_progress
           decimalStringToNumber smallNumberToString 2 1 bufferedSession).
  vm_compute. reflexivity.
Defined.

(** X12 for an engine that holds one record in its buffer when the parser
    fails; a record and the end of input follow. *)
Lemma failed_source_is_cut_off_witness :
  StreamProcessor.buffer (DataEngine.processor (DataEngine.engine bufferedSession))
    = [sampleRecord] /\
  exists c' : DataEngine.Config,
    DataEngine.step decimalStringToNumber smallNumberToString 2 1
      DataEngine.ParserError bufferedSession = Some c' /\
    DataEngine.run decimalStringToNumber smallNumberToString 2 1
      [DataEngine.Decoded 1100 1100 (DataEngine.Row sampleRecord);
       DataEngine.EndOfInput 1200 1200] c' = Some c' /\
    DataEngine.completion c' =
      DataEngine.settleWith DataEngine.Rejected (DataEngine.completion bufferedSession) /\
    StreamProcessor.buffer (DataEngine.processor (DataEngine.engine c')) = [] /\
    DataEngine.aggregator (DataEngine.engine c') =
      DataEngine.aggregator (DataEngine.engine bufferedSession) /\
    configLog c' = configLog bufferedSession.
Proof.
  split; [vm_compute; reflexivity|].
  apply (failed_source_is_cut_off decimalStringToNumber smallNumberToString 2 1
           DataEngine.ParserError
           [DataEngine.Decoded 1100 1100 (DataEngine.Row sampleRecord);
            DataEngine.EndOfInput 1200 1200]
           bufferedSession).
  - reflexivity.
  - vm_compute. reflexivity.
  - reflexivity.
Defined.

(** X13 for the sample session, whose log holds four results when
    [cleanup()] is called. *)
Lemma cleanup_is_final_witness :
  exists c c1 : DataEngine.Config,
    DataEngine.run decimalStringToNumber smallNumberToString 2 1 sampleSession
      (DataEngine.start (Types.mkOptions 2 1000 500) 1000) = Some c /\
    DataEngine.step decimalStringToNumber smallNumberToString 2 1 DataEngine.Cleanup c
      = Some c1 /\
    length (configLog c) = 4%nat /\
    (configLog c1 = [] /\
     (forall (evs : list DataEngine.Event) (c' : DataEngine.Config),
        DataEngine.run decimalStringToNumber smallNumberToString 2 1 evs c1 = Some c' ->
        configLog c' = [] /\
        DataEngine.emittedDuring decimalStringToNumber smallNumberToString 2 1 evs c1 = []) /\
     (forall (evs : list DataEngine.Event) (c' : DataEngine.Config),
        DataEngine.run decimalStringToNumber smallNumberToString 2 1 evs
          (DataEngine.processFile (DataEngine.engine c1) (DataEngine.heap c1)) = Some c' ->
        configLog c' = [] /\
        DataEngine.emittedDuring decimalStringToNumber smallNumberToString 2 1 evs
          (DataEngine.processFile (DataEngine.engine c1) (DataEngine.heap c1)) = [])).
Proof.
  eexists _, _. split; [vm_compute; reflexivity|]. split; [vm_compute; reflexivity|].
  split; [vm_compute; reflexivity|].
  eapply (cleanup_is_final decimalStringToNumber smallNumberToString 2 1
           (Types.mkOptions 2 1000 500) 1000 sampleSession);
    vm_compute; reflexivity.
Defined.

(** X14 for interval 0, window size 1000, batch size 2 and one record. *)
Lemma zero_interval_never_completes_witness :
  DataEngine.run decimalStringToNumber smallNumberToString 1 1
    (sourceOf [(1000, sampleRecord)] 2000)
    (DataEngine.start (Types.mkOptions 2 1000 0) 1000) = None.
Proof.
  apply (zero_interval_never_completes decimalStringToNumber smallNumberToString 1 1
           (Types.mkOptions 2 1000 0) 1000 2000 [(1000, sampleRecord)]).
  - reflexivity.
  - simpl. lia.
  - simpl. lia.
  - lia.
  - discriminate.
Defined.

(** X15 for batch size 0 and one record. *)
Lemma nonpositive_batch_never_completes_witness :
  DataEngine.run decimalStringToNumber smallNumberToString 1 1
    (sourceOf [(1000, sampleRecord)] 2000)
    (DataEngine.start (Types.mkOptions 0 1000 500) 1000) = None.
Proof.
  apply (nonpositive_batch_never_completes decimalStringToNumber smallNumberToString 1 1
           (Types.mkOptions 0 1000 500) 1000 2000 [(1000, sampleRecord)]).
  - simpl. lia.
  - discriminate.
Defined.

(** X16 for three numbered records and batch size 2. *)
Lemma session_feeds_every_record_to_the_aggregator_witness :
  exists c : DataEngine.Config,
    DataEngine.run decimalStringToNumber smallNumberToString 2 1
      (sourceOf (numberedInput 3) 99)
      (DataEngine.start (Types.mkOptions 2 1000 500) 1000) = Some c /\
    DataEngine.completion c = DataEngine.Resolved /\
    StreamProcessor.buffer (DataEngine.processor (DataEngine.engine c)) = [] /\
    exists calls : list (Z * Z * CSVRecord),
      feed calls
        (DataEngine.aggregator
           (DataEngine.engine (DataEngine.start (Types.mkOptions 2 1000 500) 1000)))
        = Some (DataEngine.aggregator (DataEngine.engine c)) /\
      Forall2 (stampedAmong (map fst (numberedInput 3) ++ [99]))
        (map snd calls) (map snd (numberedInput 3)).
Proof.
  apply (session_feeds_every_record_to_the_aggregator
           decimalStringToNumber smallNumberToString 2 1
           (Types.mkOptions 2 1000 500) 1000 99 (numberedInput 3)).
  - simpl. lia.
  - simpl. lia.
  - lia.
Defined.

(** X18 for an engine whose log holds four results when an upload fails. *)
Lemma failed_upload_silences_the_engine_witness :
  exists (c0 : DataEngine.Config) (response : Routes.Response) (c : DataEngine.Config),
    DataEngine.run decimalStringToNumber smallNumberToString 2 1 sampleSession
      (DataEngine.start (Types.mkOptions 2 1000 500) 1000) = Some c0 /\
    Routes.upload decimalStringToNumber smallNumberToString 2 1
      "data.csv" "Invalid Record Length" failingSession
      (DataEngine.engine c0) (DataEngine.heap c0) = Some (response, c) /\
    length (configLog c0) = 4%nat /\
    (Routes.code response = 400%nat /\
     configLog c = [] /\
     forall (evs' : list DataEngine.Event) (originalname' text' : string)
            (response' : Routes.Response) (c' : DataEngine.Config),
       Routes.upload decimalStringToNumber smallNumberToString 2 1
         originalname' text' evs' (DataEngine.engine c) (DataEngine.heap c)
         = Some (response', c') ->
       configLog c' = [] /\
       DataEngine.emittedDuring decimalStringToNumber smallNumberToString 2 1 evs'
         (DataEngine.processFile (DataEngine.engine c) (DataEngine.heap c)) = []).
Proof.
  eexists _, _, _. split; [vm_compute; reflexivity|]. split; [vm_compute; reflexivity|].
  split; [vm_compute; reflexivity|].
  eapply (failed_upload_silences_the_engine decimalStringToNumber smallNumberToString 2 1
           (Types.mkOptions 2 1000 500) 1000 sampleSession failingSession
           _ _ "data.csv" "Invalid Record Length");
    vm_compute; reflexivity.
Defined.
